(** * Meritage Homes harvester: a shallow embedding of
      [get_meritage_page.py] and [get_meritage_api_links.py].

    The development follows the two Python scripts function by function.
    Text is a string of code points below 256, so that [\d], [\s],
    [str.strip] and [str.lower] have their exact Python meaning on it.
    The parsed page (what BeautifulSoup hands back) is a tree of elements
    and strings; the rendering session, the file system, the clock and the
    pseudo-random source are explicit. *)

From Stdlib Require Import String Ascii List ZArith Lia Bool Arith DecimalString
  Sorted.
From stdpp Require Import base option gmap strings list.

Set Warnings "-register-all".

Local Open Scope string_scope.
Local Open Scope list_scope.
Local Open Scope nat_scope.

(* ===================================================================== *)
(** * Python strings *)
(* ===================================================================== *)

Module Py.

Definition chars (s : string) : list ascii := list_ascii_of_string s.
Definition text (l : list ascii) : string := string_of_list_ascii l.

(** [c.isdigit()] / the class [\d], on code points below 256. *)
Definition is_digit (c : ascii) : bool :=
  let n := nat_of_ascii c in (48 <=? n) && (n <=? 57).

(** [c.isspace()] / the class [\s]: TAB..CR, FS..US, SPACE, NEL, NBSP. *)
Definition is_space (c : ascii) : bool :=
  let n := nat_of_ascii c in
  ((9 <=? n) && (n <=? 13)) || ((28 <=? n) && (n <=? 32))
  || (n =? 133) || (n =? 160).

Fixpoint lstrip_chars (l : list ascii) : list ascii :=
  match l with
  | c :: l' => if is_space c then lstrip_chars l' else l
  | [] => []
  end.

Definition rstrip_chars (l : list ascii) : list ascii :=
  rev (lstrip_chars (rev l)).

(** [s.strip()] *)
Definition strip (s : string) : string :=
  text (rstrip_chars (lstrip_chars (chars s))).

(** [s.split()]: maximal runs of non-space characters. [cur] is the run
    being read, most recent character first. *)
Fixpoint split_ws_aux (cur : list ascii) (l : list ascii) : list string :=
  match l with
  | [] => match cur with [] => [] | _ => [text (rev cur)] end
  | c :: l' =>
      if is_space c
      then match cur with
           | [] => split_ws_aux [] l'
           | _ => text (rev cur) :: split_ws_aux [] l'
           end
      else split_ws_aux (c :: cur) l'
  end.

Definition split_ws (s : string) : list string := split_ws_aux [] (chars s).

(** [sep.join(parts)] *)
Fixpoint join (sep : string) (parts : list string) : string :=
  match parts with
  | [] => ""
  | [p] => p
  | p :: rest => p +:+ sep +:+ join sep rest
  end.

(** [s.split(sep)] for a one-character separator; the list is never empty. *)
Fixpoint split_char_aux (sep : ascii) (cur : list ascii) (l : list ascii)
  : list string :=
  match l with
  | [] => [text (rev cur)]
  | c :: l' =>
      if Ascii.eqb c sep
      then text (rev cur) :: split_char_aux sep [] l'
      else split_char_aux sep (c :: cur) l'
  end.

Definition split_char (sep : ascii) (s : string) : list string :=
  split_char_aux sep [] (chars s).

(** [parts[-1]] on the result of a [split]. *)
Definition last_item (parts : list string) : string := List.last parts "".

(** [s.startswith(p)] *)
Definition startswith (p s : string) : bool := String.prefix p s.

(** [s.endswith(p)] *)
Definition endswith (p s : string) : bool :=
  String.prefix (text (rev (chars p))) (text (rev (chars s))).

(** [p in s] *)
Fixpoint contains (p s : string) : bool :=
  String.prefix p s
  || match s with
     | EmptyString => false
     | String _ s' => contains p s'
     end.

Definition lower_char (c : ascii) : ascii :=
  let n := nat_of_ascii c in
  if ((65 <=? n) && (n <=? 90))
     || ((192 <=? n) && (n <=? 222) && negb (n =? 215))
  then ascii_of_nat (n + 32) else c.

(** [s.lower()] *)
Definition lower (s : string) : string := text (map lower_char (chars s)).

(** [s.replace(c, '')] for a one-character [c]. *)
Definition remove_char (c : ascii) (s : string) : string :=
  text (List.filter (fun x => negb (Ascii.eqb x c)) (chars s)).

(** [str(n)] for a non-negative integer. *)
Definition str (n : nat) : string := NilEmpty.string_of_uint (Nat.to_uint n).

(** Truth value of an optional string: [None] and [''] are false. *)
Definition truthy (o : option string) : bool :=
  match o with
  | Some s => negb (String.eqb s "")
  | None => false
  end.

(** [a or b] on optional strings. *)
Definition or_else (a b : option string) : option string :=
  if truthy a then a else b.

(** What an f-string prints for a value that may be [None]. *)
Definition fmt (o : option string) : string :=
  match o with Some s => s | None => "None" end.

(** Exceptions the scripts can meet. *)
Inductive exn :=
| AttributeError | KeyError | TypeError | ValueError | IndexError
| FileNotFoundError | OSError | WebDriverException.

Inductive result (A : Type) :=
| Ok (a : A)
| Raise (e : exn).
Arguments Ok {A} a.
Arguments Raise {A} e.

Definition rbind {A B} (r : result A) (f : A -> result B) : result B :=
  match r with
  | Ok a => f a
  | Raise e => Raise e
  end.

(** [o.attr] where [o] may be [None]: AttributeError on [None]. *)
Definition deref {A} (o : option A) : result A :=
  match o with
  | Some a => Ok a
  | None => Raise AttributeError
  end.

End Py.

Export Py.

Notation "x <-r c1 ; c2" := (rbind c1 (fun x => c2))
  (at level 20, c1 at level 100, c2 at level 200, only parsing).

(* ===================================================================== *)
(** * Regular expressions, as [re] runs them *)
(* ===================================================================== *)

Module Re.

(** The fragment of [re] syntax the scripts use. Repetition is only ever
    applied to a character class. *)
Inductive regex :=
| Eps
| Chr (p : ascii -> bool)
| Cat (r1 r2 : regex)
| Alt (r1 r2 : regex)
| Star (p : ascii -> bool)
| Grp (i : nat) (r : regex)
| Eol.

Definition Plus (p : ascii -> bool) : regex := Cat (Chr p) (Star p).
Definition Opt (r : regex) : regex := Alt r Eps.
Definition Ch (c : ascii) : regex := Chr (Ascii.eqb c).

Fixpoint Lit_chars (l : list ascii) : regex :=
  match l with
  | [] => Eps
  | [c] => Ch c
  | c :: l' => Cat (Ch c) (Lit_chars l')
  end.
Definition Lit (s : string) : regex := Lit_chars (chars s).

Fixpoint Seq (rs : list regex) : regex :=
  match rs with
  | [] => Eps
  | [r] => r
  | r :: rs' => Cat r (Seq rs')
  end.

Definition captures := list (nat * list ascii).

(** The characters of [s] read before reaching its suffix [s']. *)
Definition consumed (s s' : list ascii) : list ascii :=
  firstn (length s - length s') s.

(** [$]: at the end, or just before a final newline. *)
Definition at_eol (s : list ascii) : bool :=
  match s with
  | [] => true
  | [c] => Ascii.eqb c "010"%char
  | _ => false
  end.

Section Backtrack.
Context {A : Type}.

(** Greedy [p*]: the longest run first, then shorter ones. *)
Fixpoint star_bt (p : ascii -> bool) (s : list ascii)
         (k : list ascii -> option A) : option A :=
  match s with
  | c :: s' =>
      if p c
      then match star_bt p s' k with
           | Some x => Some x
           | None => k s
           end
      else k s
  | [] => k []
  end.

(** Backtracking match of [r] at the head of [s]; [k] is what remains
    to be matched. Alternatives are tried left to right. *)
Fixpoint bt (r : regex) (s : list ascii) (caps : captures)
         (k : list ascii -> captures -> option A) : option A :=
  match r with
  | Eps => k s caps
  | Chr p =>
      match s with
      | c :: s' => if p c then k s' caps else None
      | [] => None
      end
  | Cat r1 r2 => bt r1 s caps (fun s' caps' => bt r2 s' caps' k)
  | Alt r1 r2 =>
      match bt r1 s caps k with
      | Some x => Some x
      | None => bt r2 s caps k
      end
  | Star p => star_bt p s (fun s' => k s' caps)
  | Grp i r1 =>
      bt r1 s caps (fun s' caps' => k s' ((i, consumed s s') :: caps'))
  | Eol => if at_eol s then k s caps else None
  end.
End Backtrack.

(** A match object. *)
Record rmatch := {
  m_start : nat;
  m_text : list ascii;
  m_rest : list ascii;
  m_groups : captures
}.

Definition match_here (r : regex) (pos : nat) (s : list ascii)
  : option rmatch :=
  bt r s [] (fun s' caps =>
    Some {| m_start := pos; m_text := consumed s s';
            m_rest := s'; m_groups := caps |}).

(** Leftmost match, scanning start positions from [pos]. *)
Fixpoint search_from (r : regex) (pos : nat) (s : list ascii)
  : option rmatch :=
  match match_here r pos s with
  | Some m => Some m
  | None =>
      match s with
      | [] => None
      | _ :: s' => search_from r (S pos) s'
      end
  end.

Fixpoint lookup_group (i : nat) (caps : captures) : option (list ascii) :=
  match caps with
  | [] => None
  | (j, v) :: caps' => if Nat.eqb i j then Some v else lookup_group i caps'
  end.

(** [m.group(i)]; [None] for a group that took no part in the match. *)
Definition group (m : rmatch) (i : nat) : option string :=
  match i with
  | 0 => Some (text (m_text m))
  | _ => option_map text (lookup_group i (m_groups m))
  end.

(** [re.search(pattern, t)] on a value known to be a string. *)
Definition search_text (r : regex) (t : string) : option rmatch :=
  search_from r 0 (chars t).

(** [re.search(pattern, s)]: TypeError when [s] is [None]. *)
Definition search (r : regex) (s : option string) : result (option rmatch) :=
  match s with
  | None => Raise TypeError
  | Some t => Ok (search_text r t)
  end.

(** [re.sub(pattern, repl, s)] for a pattern that matches no empty string. *)
Fixpoint sub_chars (fuel : nat) (r : regex) (repl : list ascii)
         (s : list ascii) : list ascii :=
  match fuel with
  | 0 => s
  | S fuel' =>
      match match_here r 0 s, s with
      | Some m, c :: s' =>
          if length (m_rest m) <? length s
          then repl ++ sub_chars fuel' r repl (m_rest m)
          else c :: sub_chars fuel' r repl s'
      | Some m, [] => []
      | None, c :: s' => c :: sub_chars fuel' r repl s'
      | None, [] => []
      end
  end.

Definition sub (r : regex) (repl s : string) : string :=
  text (sub_chars (S (String.length s)) r (chars repl) (chars s)).

(** What it means for [r] to match at the head of [s], leaving [s']. *)
Inductive matches : regex -> list ascii -> list ascii -> Prop :=
| M_Eps s : matches Eps s s
| M_Chr p c s : p c = true -> matches (Chr p) (c :: s) s
| M_Cat r1 r2 s1 s2 s3 :
    matches r1 s1 s2 -> matches r2 s2 s3 -> matches (Cat r1 r2) s1 s3
| M_AltL r1 r2 s s' : matches r1 s s' -> matches (Alt r1 r2) s s'
| M_AltR r1 r2 s s' : matches r2 s s' -> matches (Alt r1 r2) s s'
| M_Star0 p s : matches (Star p) s s
| M_StarS p c s s' :
    p c = true -> matches (Star p) s s' -> matches (Star p) (c :: s) s'
| M_Grp i r s s' : matches r s s' -> matches (Grp i r) s s'
| M_Eol s : at_eol s = true -> matches Eol s s.

(** The pattern occurs somewhere in the text. *)
Definition occurs (r : regex) (t : string) : Prop :=
  exists pre suf rest, chars t = pre ++ suf /\ matches r suf rest.

(** Groups that every match of a pattern sets. *)
Fixpoint binds (r : regex) (i : nat) : bool :=
  match r with
  | Cat r1 r2 => binds r1 i || binds r2 i
  | Alt r1 r2 => binds r1 i && binds r2 i
  | Grp j r1 => Nat.eqb i j || binds r1 i
  | _ => false
  end.

Definition bound (i : nat) (caps : captures) : Prop :=
  lookup_group i caps <> None.

Definition extends (caps caps' : captures) : Prop :=
  forall i, bound i caps -> bound i caps'.

End Re.

(* ===================================================================== *)
(** * The pattern extractors of [get_meritage_page.py] *)
(* ===================================================================== *)

Module Patterns.
Import Re.

Definition digit_or_comma (c : ascii) : bool :=
  is_digit c || Ascii.eqb c ","%char.

(** [\$[\d,]+] *)
Definition re_price : regex := Cat (Ch "$") (Plus digit_or_comma).

(** [(\d+)\s*(?:Bedroom|Bed|BR)] *)
Definition re_beds : regex :=
  Seq [Grp 1 (Plus is_digit); Star is_space;
       Alt (Lit "Bedroom") (Alt (Lit "Bed") (Lit "BR"))].

(** [(\d+(?:\.\d+)?)\s*(?:Bathroom|Bath|BA)] *)
Definition re_baths : regex :=
  Seq [Grp 1 (Cat (Plus is_digit) (Opt (Cat (Ch ".") (Plus is_digit))));
       Star is_space;
       Alt (Lit "Bathroom") (Alt (Lit "Bath") (Lit "BA"))].

(** [([\d,]+)\s*sq\s*ft] *)
Definition re_sqft : regex :=
  Seq [Grp 1 (Plus digit_or_comma); Star is_space; Lit "sq";
       Star is_space; Lit "ft"].

End Patterns.

Import Patterns.

(** [extract_price(text)] *)
Definition extract_price (text : option string) : result (option string) :=
  if negb (truthy text) then Ok None
  else
    price_match <-r Re.search re_price text;
    match price_match with
    | Some m => Ok (Re.group m 0)
    | None => Ok None
    end.

(** [extract_beds_baths(text)] *)
Definition extract_beds_baths (text : option string)
  : result (option string * option string) :=
  if negb (truthy text) then Ok (None, None)
  else
    beds_match <-r Re.search re_beds text;
    baths_match <-r Re.search re_baths text;
    let beds := match beds_match with Some m => Re.group m 1 | None => None end in
    let baths := match baths_match with Some m => Re.group m 1 | None => None end in
    Ok (beds, baths).

(** [extract_sqft(text)] *)
Definition extract_sqft (text : option string) : result (option string) :=
  if negb (truthy text) then Ok None
  else
    lowered <-r deref text;
    sqft_match <-r Re.search re_sqft (Some (lower lowered));
    match sqft_match with
    | Some m =>
        g <-r deref (Re.group m 1);
        Ok (Some (remove_char "," g))
    | None => Ok None
    end.

(* ===================================================================== *)
(** * The parsed page: what BeautifulSoup gives the scripts *)
(* ===================================================================== *)

Module Soup.

(** A parsed document. [Str] is an ordinary string of the page; [Special]
    is a string that [.text] leaves out (a comment, the body of a script
    or style element) but [.string] still returns. *)
Inductive node :=
| Elem (name : string) (attrs : list (string * string)) (children : list node)
| Str (s : string)
| Special (s : string).

(** A tag as the scripts hold it: the element and the siblings after it. *)
Record tag := { t_node : node; t_next : list node }.

(** The [BeautifulSoup] object of a document. *)
Definition soup_of (n : node) : tag := {| t_node := n; t_next := [] |}.

Definition name_of (n : node) : option string :=
  match n with Elem nm _ _ => Some nm | _ => None end.

Definition attrs_of (n : node) : list (string * string) :=
  match n with Elem _ a _ => a | _ => [] end.

Definition children_of (n : node) : list node :=
  match n with Elem _ _ cs => cs | _ => [] end.

Fixpoint assoc (k : string) (l : list (string * string)) : option string :=
  match l with
  | [] => None
  | (k', v) :: l' => if String.eqb k k' then Some v else assoc k l'
  end.

(** [tag.get(attr)] *)
Definition get (t : tag) (attr : string) : option string :=
  assoc attr (attrs_of (t_node t)).

(** [tag.get(attr, default)] *)
Definition get_default (t : tag) (attr default : string) : string :=
  match get t attr with Some v => v | None => default end.

(** [tag[attr]]: KeyError when the attribute is missing. *)
Definition index (t : tag) (attr : string) : result string :=
  match get t attr with Some v => Ok v | None => Raise KeyError end.

(** All tags and strings below a node, in document order. *)
Fixpoint descendants (n : node) : list tag :=
  match n with
  | Elem _ _ cs =>
      (fix walk (l : list node) : list tag :=
         match l with
         | [] => []
         | c :: rest =>
             {| t_node := c; t_next := rest |} :: descendants c ++ walk rest
         end) cs
  | _ => []
  end.

(** [tag.text]: the ordinary strings below the tag, concatenated. *)
Fixpoint node_text (n : node) : string :=
  match n with
  | Elem _ _ cs =>
      (fix cat (l : list node) : string :=
         match l with
         | [] => ""
         | c :: rest => node_text c +:+ cat rest
         end) cs
  | Str s => s
  | Special _ => ""
  end.

Definition text_of (t : tag) : string := node_text (t_node t).

(** [tag.string]: defined when the tag has a single child, which is a
    string or a tag that itself has a [.string]. *)
Fixpoint node_string (n : node) : option string :=
  match n with
  | Elem _ _ [c] => node_string c
  | Elem _ _ _ => None
  | Str s => Some s
  | Special s => Some s
  end.

Definition string_of (t : tag) : option string := node_string (t_node t).

(** What a search asks of one attribute. *)
Inductive attr_test :=
| Is (v : string)                      (* attr='v' *)
| Present                              (* attr=True *)
| Class (v : string)                   (* class_='v' *)
| Test (f : option string -> bool).    (* attr=lambda x: ... *)

(** [class_='v']: [v] is one of the element's classes, or the whole
    class list joined by single spaces. *)
Definition class_matches (v : string) (value : option string) : bool :=
  match value with
  | None => false
  | Some raw =>
      let classes := split_ws raw in
      existsb (String.eqb v) classes || String.eqb v (join " " classes)
  end.

Definition attr_holds (n : node) (c : string * attr_test) : bool :=
  let value := assoc (fst c) (attrs_of n) in
  match snd c with
  | Is v => match value with Some x => String.eqb x v | None => false end
  | Present => match value with Some _ => true | None => false end
  | Class v => class_matches v value
  | Test f => f value
  end.

Definition selects (nm : string) (tests : list (string * attr_test))
           (t : tag) : bool :=
  match name_of (t_node t) with
  | Some nm' => String.eqb nm nm' && forallb (attr_holds (t_node t)) tests
  | None => false
  end.

(** [tag.find_all(name, attrs)] *)
Definition find_all (t : tag) (nm : string)
           (tests : list (string * attr_test)) : list tag :=
  List.filter (selects nm tests) (descendants (t_node t)).

(** [tag.find(name, attrs)] *)
Definition find (t : tag) (nm : string)
           (tests : list (string * attr_test)) : option tag :=
  head (find_all t nm tests).

(** [tag.find_next_sibling(name)] *)
Fixpoint next_sibling_in (nm : string) (l : list node) : option tag :=
  match l with
  | [] => None
  | c :: rest =>
      match name_of c with
      | Some nm' =>
          if String.eqb nm nm'
          then Some {| t_node := c; t_next := rest |}
          else next_sibling_in nm rest
      | None => next_sibling_in nm rest
      end
  end.

Definition find_next_sibling (t : tag) (nm : string) : option tag :=
  next_sibling_in nm (t_next t).

End Soup.

Import Soup.

(* ===================================================================== *)
(** * The record schema *)
(* ===================================================================== *)

(** One entry of ["nearbyplaces"]. *)
Module Nearby.
Record t := {
  name : string;
  category : option string;
  distance : option string;
  rating : option string;
  reviews : option string
}.
End Nearby.

(** One entry of a plan's ["includedFeatures"]. *)
Module Feature.
Record t := { description : string; section_index : nat }.
End Feature.

(** One entry of a plan's ["floorplan_images"]. *)
Module Floorplan.
Record t := { name : string; image_url : string }.
End Floorplan.

(** One entry of ["homesites"]. *)
Module HomeSite.
Record t := {
  address : option string;
  name : option string;
  plan : option string;
  id : string;
  price : option string;
  beds : option string;
  baths : option string;
  sqft : option string;
  status : string;
  image_url : option string;
  url : option string;
  latitude : option string;
  longitude : option string;
  overview : option string;
  images : list string
}.

Definition set_image_url (v : option string) (h : t) : t :=
  {| address := address h; name := name h; plan := plan h; id := id h;
     price := price h; beds := beds h; baths := baths h; sqft := sqft h;
     status := status h; image_url := v; url := url h;
     latitude := latitude h; longitude := longitude h;
     overview := overview h; images := images h |}.

Definition set_coordinates (lat long : option string) (h : t) : t :=
  {| address := address h; name := name h; plan := plan h; id := id h;
     price := price h; beds := beds h; baths := baths h; sqft := sqft h;
     status := status h; image_url := image_url h; url := url h;
     latitude := lat; longitude := long;
     overview := overview h; images := images h |}.

Definition set_overview (v : option string) (h : t) : t :=
  {| address := address h; name := name h; plan := plan h; id := id h;
     price := price h; beds := beds h; baths := baths h; sqft := sqft h;
     status := status h; image_url := image_url h; url := url h;
     latitude := latitude h; longitude := longitude h;
     overview := v; images := images h |}.

Definition append_image (src : string) (h : t) : t :=
  {| address := address h; name := name h; plan := plan h; id := id h;
     price := price h; beds := beds h; baths := baths h; sqft := sqft h;
     status := status h; image_url := image_url h; url := url h;
     latitude := latitude h; longitude := longitude h;
     overview := overview h; images := images h ++ [src] |}.
End HomeSite.

(** One entry of ["homeplans"]. *)
Module HomePlan.
Record details := {
  price : option string;
  beds : option string;
  baths : option string;
  half_baths : option string;
  sqft : option string;
  status : string;
  image_url : option string
}.

Record t := {
  name : option string;
  url : option string;
  dets : details;
  floorplan_images : list Floorplan.t;
  includedFeatures : list Feature.t
}.

Definition set_image_url (v : option string) (h : t) : t :=
  {| name := name h; url := url h;
     dets := {| price := price (dets h); beds := beds (dets h);
                baths := baths (dets h); half_baths := half_baths (dets h);
                sqft := sqft (dets h); status := status (dets h);
                image_url := v |};
     floorplan_images := floorplan_images h;
     includedFeatures := includedFeatures h |}.

Definition set_half_baths (v : option string) (h : t) : t :=
  {| name := name h; url := url h;
     dets := {| price := price (dets h); beds := beds (dets h);
                baths := baths (dets h); half_baths := v;
                sqft := sqft (dets h); status := status (dets h);
                image_url := image_url (dets h) |};
     floorplan_images := floorplan_images h;
     includedFeatures := includedFeatures h |}.

Definition set_includedFeatures (v : list Feature.t) (h : t) : t :=
  {| name := name h; url := url h; dets := dets h;
     floorplan_images := floorplan_images h;
     includedFeatures := v |}.

Definition append_floorplan (f : Floorplan.t) (h : t) : t :=
  {| name := name h; url := url h; dets := dets h;
     floorplan_images := floorplan_images h ++ [f];
     includedFeatures := includedFeatures h |}.
End HomePlan.

(** The record written for one community page: the dict [data]. *)
Module Community.
Record address_parts := {
  city : option string;
  state : option string;
  market : option string
}.

Record location := {
  latitude : option string;
  longitude : option string;
  loc_address : address_parts
}.

Record details := {
  price_range : option string;
  sqft_range : option string;
  bed_range : option string;
  bath_range : option string;
  stories_range : option string;
  community_count : nat
}.

Record t := {
  timestamp : string;
  name : option string;
  status : option string;
  url : string;
  price_from : option string;
  address : option string;
  phone : option string;
  description : option string;
  images : list string;
  loc : location;
  dets : details;
  amenities : list string;
  homeplans : list HomePlan.t;
  homesites : list HomeSite.t;
  nearbyplaces : list Nearby.t;
  collections : list string
}.

(** The dict literal that creates [data]. *)
Definition initial (now url : string) : t :=
  {| timestamp := now;
     name := None;
     status := None;
     url := url;
     price_from := None;
     address := None;
     phone := None;
     description := None;
     images := [];
     loc := {| latitude := None; longitude := None;
               loc_address := {| city := None; state := None;
                                 market := None |} |};
     dets := {| price_range := None; sqft_range := None;
                bed_range := None; bath_range := None;
                stories_range := None; community_count := 1 |};
     amenities := [];
     homeplans := [];
     homesites := [];
     nearbyplaces := [];
     collections := [] |}.

Definition with_details (f : details -> details) (d : t) : t :=
  {| timestamp := timestamp d; name := name d; status := status d;
     url := url d; price_from := price_from d; address := address d;
     phone := phone d; description := description d; images := images d;
     loc := loc d; dets := f (dets d); amenities := amenities d;
     homeplans := homeplans d; homesites := homesites d;
     nearbyplaces := nearbyplaces d; collections := collections d |}.

Definition set_name (v : option string) (d : t) : t :=
  {| timestamp := timestamp d; name := v; status := status d;
     url := url d; price_from := price_from d; address := address d;
     phone := phone d; description := description d; images := images d;
     loc := loc d; dets := dets d; amenities := amenities d;
     homeplans := homeplans d; homesites := homesites d;
     nearbyplaces := nearbyplaces d; collections := collections d |}.

Definition set_price_from (v : option string) (d : t) : t :=
  {| timestamp := timestamp d; name := name d; status := status d;
     url := url d; price_from := v; address := address d;
     phone := phone d; description := description d; images := images d;
     loc := loc d; dets := dets d; amenities := amenities d;
     homeplans := homeplans d; homesites := homesites d;
     nearbyplaces := nearbyplaces d; collections := collections d |}.

Definition set_address (v : option string) (d : t) : t :=
  {| timestamp := timestamp d; name := name d; status := status d;
     url := url d; price_from := price_from d; address := v;
     phone := phone d; description := description d; images := images d;
     loc := loc d; dets := dets d; amenities := amenities d;
     homeplans := homeplans d; homesites := homesites d;
     nearbyplaces := nearbyplaces d; collections := collections d |}.

Definition set_description (v : option string) (d : t) : t :=
  {| timestamp := timestamp d; name := name d; status := status d;
     url := url d; price_from := price_from d; address := address d;
     phone := phone d; description := v; images := images d;
     loc := loc d; dets := dets d; amenities := amenities d;
     homeplans := homeplans d; homesites := homesites d;
     nearbyplaces := nearbyplaces d; collections := collections d |}.

Definition set_images (v : list string) (d : t) : t :=
  {| timestamp := timestamp d; name := name d; status := status d;
     url := url d; price_from := price_from d; address := address d;
     phone := phone d; description := description d; images := v;
     loc := loc d; dets := dets d; amenities := amenities d;
     homeplans := homeplans d; homesites := homesites d;
     nearbyplaces := nearbyplaces d; collections := collections d |}.

Definition set_coordinates (lat long : option string) (d : t) : t :=
  {| timestamp := timestamp d; name := name d; status := status d;
     url := url d; price_from := price_from d; address := address d;
     phone := phone d; description := description d; images := images d;
     loc := {| latitude := lat; longitude := long;
               loc_address := loc_address (loc d) |};
     dets := dets d; amenities := amenities d;
     homeplans := homeplans d; homesites := homesites d;
     nearbyplaces := nearbyplaces d; collections := collections d |}.

Definition set_price_range (v : option string) : t -> t :=
  with_details (fun x =>
    {| price_range := v; sqft_range := sqft_range x;
       bed_range := bed_range x; bath_range := bath_range x;
       stories_range := stories_range x;
       community_count := community_count x |}).

Definition set_sqft_range (v : option string) : t -> t :=
  with_details (fun x =>
    {| price_range := price_range x; sqft_range := v;
       bed_range := bed_range x; bath_range := bath_range x;
       stories_range := stories_range x;
       community_count := community_count x |}).

Definition set_bed_range (v : option string) : t -> t :=
  with_details (fun x =>
    {| price_range := price_range x; sqft_range := sqft_range x;
       bed_range := v; bath_range := bath_range x;
       stories_range := stories_range x;
       community_count := community_count x |}).

Definition set_bath_range (v : option string) : t -> t :=
  with_details (fun x =>
    {| price_range := price_range x; sqft_range := sqft_range x;
       bed_range := bed_range x; bath_range := v;
       stories_range := stories_range x;
       community_count := community_count x |}).

Definition set_stories_range (v : option string) : t -> t :=
  with_details (fun x =>
    {| price_range := price_range x; sqft_range := sqft_range x;
       bed_range := bed_range x; bath_range := bath_range x;
       stories_range := v;
       community_count := community_count x |}).

Definition append_nearby (n : Nearby.t) (d : t) : t :=
  {| timestamp := timestamp d; name := name d; status := status d;
     url := url d; price_from := price_from d; address := address d;
     phone := phone d; description := description d; images := images d;
     loc := loc d; dets := dets d; amenities := amenities d;
     homeplans := homeplans d; homesites := homesites d;
     nearbyplaces := nearbyplaces d ++ [n]; collections := collections d |}.

Definition append_homesite (h : HomeSite.t) (d : t) : t :=
  {| timestamp := timestamp d; name := name d; status := status d;
     url := url d; price_from := price_from d; address := address d;
     phone := phone d; description := description d; images := images d;
     loc := loc d; dets := dets d; amenities := amenities d;
     homeplans := homeplans d; homesites := homesites d ++ [h];
     nearbyplaces := nearbyplaces d; collections := collections d |}.

Definition append_homeplan (h : HomePlan.t) (d : t) : t :=
  {| timestamp := timestamp d; name := name d; status := status d;
     url := url d; price_from := price_from d; address := address d;
     phone := phone d; description := description d; images := images d;
     loc := loc d; dets := dets d; amenities := amenities d;
     homeplans := homeplans d ++ [h]; homesites := homesites d;
     nearbyplaces := nearbyplaces d; collections := collections d |}.
End Community.

(* ===================================================================== *)
(** * The outside world: browser, files, clock, random source *)
(* ===================================================================== *)

Module World.

Inductive content :=
| Html (source : string)
| Json (record : Community.t).

(** What the script did to the outside, most recent first. *)
Inductive event :=
| SetupDriver
| DriverGet (url : string)
| DriverQuit
| Sleep (seconds : nat)
| Makedirs (path : string)
| WriteFile (path : string)
| RemoveFile (path : string).

(** A rendered page: [driver.page_source] and its parse. *)
Record page := { page_source : string; parsed : node }.

(** What the run cannot control: which URLs load (and as what), whether a
    browser can be started, the clock, the random draws, and which paths
    the operating system refuses to remove ([os.remove] raises OSError on
    a directory and on a locked or protected file). *)
Record env := {
  web : string -> option page;
  chrome : bool;
  clock : nat -> string;
  rand : nat -> nat;
  protected : string -> bool
}.

(** The files with their contents, the directories that exist, and the
    history. A path names a file or a directory, not both. *)
Record world := {
  fs : gmap string content;
  dirs : list string;
  events : list event;
  draws : nat
}.

Definition log (ev : event) (w : world) : world :=
  {| fs := fs w; dirs := dirs w; events := ev :: events w;
     draws := draws w |}.

Definition with_fs (f : gmap string content -> gmap string content)
           (w : world) : world :=
  {| fs := f (fs w); dirs := dirs w; events := events w; draws := draws w |}.

Definition with_dirs (f : list string -> list string) (w : world) : world :=
  {| fs := fs w; dirs := f (dirs w); events := events w; draws := draws w |}.

(** [os.path.exists(path)] *)
Definition path_exists (path : string) (w : world) : bool :=
  match fs w !! path with Some _ => true | None => false end.

(** The directory a path lies in: the text before its last slash, the
    working directory (the empty path) when it has none. *)
Fixpoint after_slash (l : list ascii) : list ascii :=
  match l with
  | [] => []
  | c :: l' => if Ascii.eqb c "/" then l' else after_slash l'
  end.

Definition parent (path : string) : string :=
  text (rev (after_slash (rev (chars path)))).

(** A path and the directories above it, outermost first: [a], [a/b],
    [a/b/c] for [a/b/c]. [done] is what was read, most recent first. *)
Fixpoint ancestors_aux (done : list ascii) (l : list ascii) : list string :=
  match l with
  | [] => [text (rev done)]
  | c :: l' =>
      if Ascii.eqb c "/"
      then text (rev done) :: ancestors_aux (c :: done) l'
      else ancestors_aux (c :: done) l'
  end.

Definition ancestors (path : string) : list string :=
  ancestors_aux [] (chars path).

(** The directory exists; the working directory always does. *)
Definition dir_exists (dir : string) (w : world) : bool :=
  String.eqb dir "" || existsb (String.eqb dir) (dirs w).

End World.

Import World.

(** State and exceptions: a computation runs from a state to a state and
    either a value or a raised exception. A raise keeps the state reached. *)
Module Run.

Definition M (S A : Type) : Type := S -> S * result A.

Definition ret {S A} (a : A) : M S A := fun s => (s, Ok a).

Definition bind {S A B} (m : M S A) (f : A -> M S B) : M S B :=
  fun s =>
    match m s with
    | (s', Ok a) => f a s'
    | (s', Raise e) => (s', Raise e)
    end.

Definition lift {S A} (r : result A) : M S A := fun s => (s, r).

(** [try: body except Exception: handler] *)
Definition try_except {S A} (body : M S A) (handler : exn -> M S A) : M S A :=
  fun s =>
    match body s with
    | (s', Ok a) => (s', Ok a)
    | (s', Raise e) => handler e s'
    end.

(** [for x in l: body(x)] *)
Fixpoint for_each {S X} (l : list X) (body : X -> M S unit) : M S unit :=
  match l with
  | [] => ret tt
  | x :: l' => bind (body x) (fun _ => for_each l' body)
  end.

(** A computation on the world, run beside a local object. *)
Definition outside {L A} (m : M world A) : M (world * L) A :=
  fun s =>
    match m (fst s) with
    | (w', r) => ((w', snd s), r)
    end.

(** An in-place update of the local object. *)
Definition update {L} (f : L -> L) : M (world * L) unit :=
  fun s => ((fst s, f (snd s)), Ok tt).

(** The local object as it is now. *)
Definition current {L} : M (world * L) L :=
  fun s => (s, Ok (snd s)).

End Run.

Import Run.

Notation "x <- c1 ;; c2" := (bind c1 (fun x => c2))
  (at level 100, c1 at next level, right associativity).
Notation "c1 ;; c2" := (bind c1 (fun _ => c2))
  (at level 100, right associativity).

(** ** The browser and the file system, as the scripts call them *)

(** [setup_driver()] *)
Definition setup_driver (e : env) : M world unit :=
  fun w =>
    if chrome e then (log SetupDriver w, Ok tt)
    else (w, Raise WebDriverException).

(** [driver.get(url)], giving the page then held by the browser. *)
Definition driver_get (e : env) (url : string) : M world page :=
  fun w =>
    match web e url with
    | Some p => (log (DriverGet url) w, Ok p)
    | None => (log (DriverGet url) w, Raise WebDriverException)
    end.

(** [driver.quit()] *)
Definition driver_quit : M world unit :=
  fun w => (log DriverQuit w, Ok tt).

(** [time.sleep(seconds)] *)
Definition sleep (seconds : nat) : M world unit :=
  fun w => (log (Sleep seconds) w, Ok tt).

(** [os.makedirs(path, exist_ok=True)]: the directory and those above it
    exist afterwards. *)
Definition makedirs (path : string) : M world unit :=
  fun w =>
    (log (Makedirs path) (with_dirs (fun d => ancestors path ++ d) w), Ok tt).

(** [with open(path, 'w') as f: f.write(...)] / [json.dump(..., f)]:
    [open] raises FileNotFoundError when the directory of [path] does not
    exist, and nothing is written then. *)
Definition write_file (path : string) (c : content) : M world unit :=
  fun w =>
    if dir_exists (parent path) w
    then (log (WriteFile path) (with_fs (insert path c) w), Ok tt)
    else (w, Raise FileNotFoundError).

(** [os.path.exists(path)] *)
Definition os_path_exists (path : string) : M world bool :=
  fun w => (w, Ok (path_exists path w)).

(** [os.remove(path)]: FileNotFoundError when nothing is there, OSError
    when the path is there but cannot be removed. *)
Definition os_remove (e : env) (path : string) : M world unit :=
  fun w =>
    if path_exists path w
    then if protected e path
         then (w, Raise OSError)
         else (log (RemoveFile path) (with_fs (delete path) w), Ok tt)
    else (w, Raise FileNotFoundError).

(** [datetime.now().isoformat()] *)
Definition now_isoformat (e : env) : M world string :=
  fun w => (w, Ok (clock e (length (events w)))).

(** [random.choice(seq)] *)
Definition random_choice (e : env) (seq : list string) : M world string :=
  fun w =>
    match nth_error seq (rand e (draws w) mod length seq) with
    | Some x =>
        ({| fs := fs w; dirs := dirs w; events := events w;
            draws := S (draws w) |}, Ok x)
    | None => (w, Raise IndexError)
    end.

(* ===================================================================== *)
(** * [fetch_page]: the community page *)
(* ===================================================================== *)

Module PagePatterns.
Import Re.

Definition dash_digit_dot (c : ascii) : bool :=
  Ascii.eqb c "-"%char || is_digit c || Ascii.eqb c "."%char.

(** [Starting at\s+(\$[\d,]+)] *)
Definition re_starting_at : regex :=
  Seq [Lit "Starting at"; Plus is_space; Grp 1 re_price].

(** [Approx\.\s+Sq\.\s+Ft\.\s+([\d,]+)\s*-\s*([\d,]+)] *)
Definition re_sqft_range : regex :=
  Seq [Lit "Approx."; Plus is_space; Lit "Sq."; Plus is_space; Lit "Ft.";
       Plus is_space; Grp 1 (Plus digit_or_comma); Star is_space; Ch "-";
       Star is_space; Grp 2 (Plus digit_or_comma)].

(** [Bed\s+(\d+)] *)
Definition re_bed : regex :=
  Seq [Lit "Bed"; Plus is_space; Grp 1 (Plus is_digit)].

(** [Bath\s+(\d+)] *)
Definition re_bath : regex :=
  Seq [Lit "Bath"; Plus is_space; Grp 1 (Plus is_digit)].

(** [Approx\.\s+([\d,]+)\s+sq\.\s+ft\.] *)
Definition re_approx_sqft : regex :=
  Seq [Lit "Approx."; Plus is_space; Grp 1 (Plus digit_or_comma);
       Plus is_space; Lit "sq."; Plus is_space; Lit "ft."].

(** [\s+\d{5}$] *)
Definition re_zip_tail : regex :=
  Seq [Plus is_space; Chr is_digit; Chr is_digit; Chr is_digit;
       Chr is_digit; Chr is_digit; Eol].

(** [daddr=([-\d.]+),([-\d.]+)] *)
Definition re_daddr : regex :=
  Seq [Lit "daddr="; Grp 1 (Plus dash_digit_dot); Ch ",";
       Grp 2 (Plus dash_digit_dot)].

(** The pattern that reads the [src] of the [img] inside a lazy-load
    script: the text [<img], any run of characters other than [>], the
    text [src=], a double quote (code point 34), group 1 made of any run
    of characters other than a double quote, and a closing double quote. *)
Definition re_lazy_img : regex :=
  Seq [Lit "<img"; Star (fun c => negb (Ascii.eqb c ">"%char));
       Lit "src="; Ch "034";
       Grp 1 (Star (fun c => negb (Ascii.eqb c "034"%char))); Ch "034"].

End PagePatterns.

Import PagePatterns.

Definition origin : string := "https://www.meritagehomes.com".

(** [if src and not src.startswith('http'): src = origin + src], giving the
    value [src] then has. *)
Definition absolutize (src : option string) : option string :=
  match src with
  | Some s =>
      if truthy src && negb (startswith "http" s)
      then Some (origin +:+ s)
      else src
  | None => None
  end.

(** [soup.find_all(...)] keyed by class. *)
Definition by_class (c : string) : list (string * attr_test) :=
  [("class", Class c)].

(** ** Scalar fields *)

Definition extract_name (soup : tag) (data : Community.t)
  : result Community.t :=
  match find soup "div" (by_class "community-detail-overview") with
  | Some overview_section =>
      article <-r deref (find overview_section "article" []);
      match find article "h1" [] with
      | Some h1_elem =>
          Ok (Community.set_name (Some (strip (text_of h1_elem))) data)
      | None => Ok data
      end
  | None => Ok data
  end.

Definition extract_price_from (soup : tag) (data : Community.t)
  : result Community.t :=
  let price_text := text_of soup in
  price_match <-r Re.search re_starting_at (Some price_text);
  match price_match with
  | Some m =>
      let price_from := Some ("From " +:+ fmt (Re.group m 1)) in
      Ok (Community.set_price_range price_from
            (Community.set_price_from price_from data))
  | None => Ok data
  end.

Definition extract_address (soup : tag) (data : Community.t) : Community.t :=
  match find soup "div" [("id", Is "community-driving-directions--location")] with
  | Some location_elem =>
      match find location_elem "div" (by_class "has-dividers") with
      | Some address_elem =>
          match find address_elem "p" [] with
          | Some p => Community.set_address (Some (strip (text_of p))) data
          | None => data
          end
      | None => data
      end
  | None => data
  end.

Definition extract_description (soup : tag) (data : Community.t)
  : Community.t :=
  match find soup "meta" [("name", Is "description")] with
  | Some meta_desc =>
      Community.set_description
        (Some (strip (get_default meta_desc "content" ""))) data
  | None => data
  end.

(** The first slide's image: appended only inside the branch that prefixes
    the origin. *)
Definition extract_first_image (soup : tag) (data : Community.t)
  : Community.t :=
  match find_all soup "li" (by_class "slick-slide orbit-slide") with
  | first_imageParent :: _ =>
      match find first_imageParent "span" [("data-lazy", Present)] with
      | Some first_image =>
          let src := or_else (get first_image "src")
                             (get first_image "data-csrc") in
          match src with
          | Some s =>
              if truthy src
              then if negb (startswith "http" s)
                   then Community.set_images
                          (Community.images data ++ [origin +:+ s]) data
                   else data
              else data
          | None => data
          end
      | None => data
      end
  | [] => data
  end.

Definition extract_coordinates (soup : tag) (data : Community.t)
  : Community.t :=
  match find soup "div" [("id", Is "community-driving-directions--location")] with
  | Some location_elem =>
      Community.set_coordinates (get location_elem "data-lat")
                                (get location_elem "data-long") data
  | None => data
  end.

Definition extract_sqft_range (soup : tag) (data : Community.t)
  : result Community.t :=
  let html_text := text_of soup in
  sqft_match <-r Re.search re_sqft_range (Some html_text);
  match sqft_match with
  | Some m =>
      Ok (Community.set_sqft_range
            (Some (fmt (Re.group m 1) +:+ " - " +:+ fmt (Re.group m 2))) data)
  | None => Ok data
  end.

(** [for col in columns: ... break]: the loop stops at the first column
    whose heading is [label]; the value is set only if a [span] follows. *)
Fixpoint labelled_column (label : string) (columns : list tag)
  : option string :=
  match columns with
  | [] => None
  | col :: rest =>
      match find col "h3" [] with
      | Some h3 =>
          if String.eqb (strip (text_of h3)) label
          then match find_next_sibling h3 "span" with
               | Some span => Some (strip (text_of span))
               | None => None
               end
          else labelled_column label rest
      | None => labelled_column label rest
      end
  end.

Definition extract_ranges (soup : tag) (data : Community.t) : Community.t :=
  let columns := find_all soup "div" (by_class "small-6 medium-6 large-3 column") in
  let data :=
    match labelled_column "Bedrooms" columns with
    | Some v => Community.set_bed_range (Some v) data
    | None => data
    end in
  let data :=
    match labelled_column "Full Bathrooms" columns with
    | Some v => Community.set_bath_range (Some v) data
    | None => data
    end in
  match labelled_column "Stories" columns with
  | Some v => Community.set_stories_range (Some v) data
  | None => data
  end.

(** ** Nearby places *)

Definition nearby_of_group (group : tag) (data : Community.t) : Community.t :=
  let category :=
    match find group "h5" [] with
    | Some h5 => Some (strip (text_of h5))
    | None => None
    end in
  fold_left
    (fun data link =>
       Community.append_nearby
         {| Nearby.name := strip (text_of link);
            Nearby.category := category;
            Nearby.distance := None;
            Nearby.rating := None;
            Nearby.reviews := None |} data)
    (find_all group "span" (by_class "plain")) data.

Definition extract_nearbyplaces (soup : tag) (data : Community.t)
  : Community.t :=
  fold_left (fun data group => nearby_of_group group data)
            (find_all soup "div" (by_class "multicol")) data.

(** ** Home sites (quick move-ins) *)

(** The value of ["beds"], ["baths"] or ["sqft"] of a card: group 1 of [r]
    in the text of its [bottom-details] block, followed by the unit; [None]
    when the block or the pattern is missing. *)
Definition bottom_detail (card : tag) (r : Re.regex) (unit : string)
  : option string :=
  match find card "div" (by_class "bottom-details") with
  | Some bottom =>
      match Re.search_text r (text_of bottom) with
      | Some m => Some (fmt (Re.group m 1) +:+ unit)
      | None => None
      end
  | None => None
  end.

(** [" ft"] followed by the superscript two (code point 178). *)
Definition ft2 : string := " ft" +:+ String "178"%char EmptyString.

(** The link of a card's heading, origin prepended: [None] without a
    heading or a link, KeyError when the link has no [href]. *)
Definition heading_url (card : option tag) : result (option string) :=
  match card with
  | Some c =>
      match find c "h3" [] with
      | Some h3 =>
          match find h3 "a" [] with
          | Some a => href <-r index a "href"; Ok (Some (origin +:+ href))
          | None => Ok None
          end
      | None => Ok None
      end
  | None => Ok None
  end.

Definition top_details (card : tag) : option string :=
  match find card "div" (by_class "top-details") with
  | Some d => Some (strip (text_of d))
  | None => None
  end.

(** The dict literal [homesite = {...}]. *)
Definition homesite_record (index : nat) (mid : tag) : result HomeSite.t :=
  let raw_address :=
    match find mid "p" [] with
    | Some p => Some (strip (text_of p))
    | None => None
    end in
  let address :=
    match raw_address with
    | Some raw => if truthy raw_address
                  then Some (join " " (split_ws raw)) else None
    | None => None
    end in
  let name :=
    match address with
    | Some a => if truthy address then Some (Re.sub re_zip_tail "" a) else None
    | None => None
    end in
  let plan :=
    match find mid "h3" [] with
    | Some h3 => Some (strip (text_of h3))
    | None => None
    end in
  url <-r heading_url (Some mid);
  Ok {| HomeSite.address := address;
        HomeSite.name := name;
        HomeSite.plan := plan;
        HomeSite.id := str (index + 1);
        HomeSite.price := top_details mid;
        HomeSite.beds := bottom_detail mid re_bed "bd";
        HomeSite.baths := bottom_detail mid re_bath "ba";
        HomeSite.sqft := bottom_detail mid re_approx_sqft ft2;
        HomeSite.status := "Available";
        HomeSite.image_url := None;
        HomeSite.url := url;
        HomeSite.latitude := None;
        HomeSite.longitude := None;
        HomeSite.overview := None;
        HomeSite.images := [] |}.

Definition homesite_image (qmi : tag) (homesite : HomeSite.t) : HomeSite.t :=
  match find qmi "div" (by_class "image") with
  | Some img_container =>
      match find img_container "img" [] with
      | Some img =>
          let src := or_else (get img "src") (get img "data-csrc") in
          HomeSite.set_image_url (absolutize src) homesite
      | None => homesite
      end
  | None => homesite
  end.

Definition homesite_html_file (output_dir url : string) : string :=
  let site_name := last_item (split_char "/" url) in
  output_dir +:+ "/html/meritage_homesite_" +:+ site_name +:+ ".html".

Definition is_maps_href (x : option string) : bool :=
  match x with
  | Some v => truthy x && contains "maps.google.com" v
  | None => false
  end.

Definition homesite_coordinates (content_section : tag)
  : M (world * HomeSite.t) unit :=
  match find content_section "a"
             [("class", Class "plain"); ("href", Test is_maps_href)] with
  | Some map_link =>
      match get map_link "href" with
      | Some href =>
          match Re.search_text re_daddr href with
          | Some m =>
              update (HomeSite.set_coordinates (Re.group m 1) (Re.group m 2))
          | None => ret tt
          end
      | None => ret tt
      end
  | None => ret tt
  end.

(** [for p in paragraphs: if ...: overview = ...; break] *)
Fixpoint first_overview (paragraphs : list tag) : option string :=
  match paragraphs with
  | [] => None
  | p :: rest =>
      if negb (startswith "Plan #" (strip (text_of p)))
         && negb (contains "Estimated Completion" (text_of p))
         && negb (contains "Home Address" (text_of p))
      then Some (strip (text_of p))
      else first_overview rest
  end.

Definition homesite_overview (content_section : tag)
  : M (world * HomeSite.t) unit :=
  match first_overview (find_all content_section "p" []) with
  | Some v => update (HomeSite.set_overview (Some v))
  | None => ret tt
  end.

(** One slide of the gallery: the lazily loaded source if there is one,
    else the plain image. In the second branch the append sits inside the
    test that prefixes the origin. *)
Definition gallery_slide (slide : tag) : M (world * HomeSite.t) unit :=
  let hidden_img := find slide "span" (by_class "hidden-image") in
  let lazy :=
    match hidden_img with
    | Some h => get h "data-lazy"
    | None => None
    end in
  if truthy lazy
  then match absolutize lazy with
       | Some src => update (HomeSite.append_image src)
       | None => ret tt
       end
  else match find slide "img" (by_class "orbit-image") with
       | Some img =>
           let src := or_else (get img "src") (get img "data-csrc") in
           match src with
           | Some s =>
               if truthy src && negb (startswith "http" s)
                  && negb (endswith "meritageLoadingCommunityHero.gif" s)
               then update (HomeSite.append_image (origin +:+ s))
               else ret tt
           | None => ret tt
           end
       | None => ret tt
       end.

(** [if os.path.exists(f): os.remove(f)] *)
Definition remove_if_exists (e : env) (path : string) : M world unit :=
  there <- os_path_exists path ;;
  if there then os_remove e path else ret tt.

(** The body of the [try] that fetches a home site's own page. *)
Definition homesite_detail (e : env) (output_dir url : string)
  : M (world * HomeSite.t) unit :=
  let site_html_file := homesite_html_file output_dir url in
  p <- outside (driver_get e url) ;;
  outside (sleep 3) ;;
  outside (write_file site_html_file (Html (page_source p))) ;;
  let site_soup := soup_of (parsed p) in
  match find site_soup "article"
             (by_class "small-12 medium-10 large-8 column text-center pad-bottom-2")
  with
  | Some content_section =>
      homesite_coordinates content_section ;;
      homesite_overview content_section
  | None => ret tt
  end ;;
  for_each (find_all site_soup "li" (by_class "slick-slide orbit-slide"))
           gallery_slide ;;
  outside (remove_if_exists e site_html_file).

(** A block that works on a local object in place and hands it back. *)
Definition on_object {L} (obj : L) (m : M (world * L) unit) : M world L :=
  fun w =>
    match m (w, obj) with
    | ((w', obj'), Ok _) => (w', Ok obj')
    | ((w', _), Raise ex) => (w', Raise ex)
    end.

(** [if homesite["url"]: try: ... except Exception as e: ...] *)
Definition enrich_homesite (e : env) (output_dir : string)
           (homesite : HomeSite.t) : M world HomeSite.t :=
  match HomeSite.url homesite with
  | Some url =>
      if truthy (HomeSite.url homesite)
      then on_object homesite
             (try_except
                (homesite_detail e output_dir url)
                (fun _ =>
                   outside (remove_if_exists e
                              (homesite_html_file output_dir url))))
      else ret homesite
  | None => ret homesite
  end.

(** One [qmi-vertical] card of the loop, [index] being its [enumerate]
    number. *)
Definition process_qmi (e : env) (output_dir : string) (index : nat)
           (qmi : tag) (data : Community.t) : M world Community.t :=
  match find qmi "div" (by_class "content") with
  | Some content =>
      match find content "div" (by_class "mid") with
      | Some mid =>
          homesite <- lift (homesite_record index mid) ;;
          let homesite := homesite_image qmi homesite in
          homesite <- enrich_homesite e output_dir homesite ;;
          ret (Community.append_homesite homesite data)
      | None => ret data
      end
  | None => ret data
  end.

(** [for index, qmi in enumerate(...)], from [index] on. *)
Fixpoint process_qmis (e : env) (output_dir : string) (index : nat)
         (qmis : list tag) (data : Community.t) : M world Community.t :=
  match qmis with
  | [] => ret data
  | qmi :: rest =>
      data <- process_qmi e output_dir index qmi data ;;
      process_qmis e output_dir (S index) rest data
  end.

Definition extract_homesites (e : env) (output_dir : string) (soup : tag)
           (data : Community.t) : M world Community.t :=
  match find soup "section" [("aria-label", Is "Quick Move Ins")] with
  | Some qmi_section =>
      process_qmis e output_dir 0
                   (find_all qmi_section "div" (by_class "qmi-vertical")) data
  | None => ret data
  end.

(** ** Home plans *)

(** [int(s)]: optional sign, then decimal digits, single underscores
    allowed between digits; ValueError otherwise. *)
Fixpoint int_digits (acc : Z) (after_digit : bool) (l : list ascii)
  : option Z :=
  match l with
  | [] => if after_digit then Some acc else None
  | c :: l' =>
      if is_digit c
      then int_digits (10 * acc + Z.of_nat (nat_of_ascii c - 48)) true l'
      else if Ascii.eqb c "_"%char
           then if after_digit then int_digits acc false l' else None
           else None
  end.

Definition py_int (s : string) : result Z :=
  let body := chars (strip s) in
  let signed :=
    match body with
    | c :: rest =>
        if Ascii.eqb c "-"%char then (true, rest)
        else if Ascii.eqb c "+"%char then (false, rest)
        else (false, body)
    | [] => (false, body)
    end in
  match int_digits 0 false (snd signed) with
  | Some n => Ok (if fst signed then (- n)%Z else n)
  | None => Raise ValueError
  end.

(** [range(1, stories + 1)] *)
Definition range_from_1 (stories : Z) : list nat := seq 1 (Z.to_nat stories).

(** The dict literal [homeplan = {...}]. *)
Definition homeplan_record (plan : tag) : result HomePlan.t :=
  let content := find plan "div" (by_class "content") in
  let name :=
    match content with
    | Some c =>
        match find c "h3" [] with
        | Some h3 => Some (strip (text_of h3))
        | None => None
        end
    | None => None
    end in
  url <-r heading_url content;
  Ok {| HomePlan.name := name;
        HomePlan.url := url;
        HomePlan.dets :=
          {| HomePlan.price := top_details plan;
             HomePlan.beds := bottom_detail plan re_bed "bd";
             HomePlan.baths := bottom_detail plan re_bath "ba";
             HomePlan.half_baths := None;
             HomePlan.sqft := bottom_detail plan re_approx_sqft ft2;
             HomePlan.status := "Actively selling";
             HomePlan.image_url := None |};
        HomePlan.floorplan_images := [];
        HomePlan.includedFeatures := [] |}.

(** The plan card's picture: from the lazy-load script when the card has
    one, else from a plain [img]. *)
Definition homeplan_image (plan : tag) (homeplan : HomePlan.t)
  : result HomePlan.t :=
  match find plan "div" (by_class "image") with
  | Some img_container =>
      match find img_container "script" [("type", Is "text/lazyload")] with
      | Some lazy_script =>
          img_match <-r Re.search re_lazy_img (string_of lazy_script);
          match img_match with
          | Some m =>
              Ok (HomePlan.set_image_url (absolutize (Re.group m 1)) homeplan)
          | None => Ok homeplan
          end
      | None =>
          match find img_container "img" [] with
          | Some img =>
              let src := or_else (get img "src") (get img "data-csrc") in
              Ok (HomePlan.set_image_url (absolutize src) homeplan)
          | None => Ok homeplan
          end
      end
  | None => Ok homeplan
  end.

Definition homeplan_html_file (output_dir url : string) : string :=
  let plan_name := last_item (split_char "/" url) in
  output_dir +:+ "/html/meritage_" +:+ plan_name +:+ ".html".

(** *** Included features and their section indexes *)

(** The [li] items of a feature section: those of its first [ul]. *)
Definition section_items (section : tag) : list tag :=
  match find section "ul" [] with
  | Some ul => find_all ul "li" []
  | None => []
  end.

(** The first pass: [total_features]. *)
Definition count_features (feature_sections : list tag) : nat :=
  fold_left (fun total_features section =>
               total_features + length (section_items section))
            feature_sections 0.

(** [total_features // 4 if total_features > 0 else 0] *)
Definition per_section (total_features : nat) : nat :=
  if 0 <? total_features then total_features / 4 else 0.

(** The variables of the second pass. *)
Record bucketing := {
  included : list Feature.t;
  current_section : nat;
  feature_count : nat
}.

(** The body of [for li in ul.find_all('li')]. *)
Definition add_feature (features_per_section : nat) (b : bucketing)
           (li : tag) : bucketing :=
  let feature_text := strip (text_of li) in
  if negb (String.eqb feature_text "")
  then
    let included' :=
      included b ++ [{| Feature.description := feature_text;
                        Feature.section_index := current_section b |}] in
    let feature_count' := feature_count b + 1 in
    if (current_section b + 1) * features_per_section <=? feature_count'
    then {| included := included';
            current_section := Nat.min (current_section b + 1) 3;
            feature_count := feature_count' |}
    else {| included := included';
            current_section := current_section b;
            feature_count := feature_count' |}
  else b.

(** The body of [for section in feature_sections]. *)
Definition add_section (features_per_section : nat) (b : bucketing)
           (section : tag) : bucketing :=
  fold_left (add_feature features_per_section) (section_items section) b.

(** Both passes over the feature sections of a plan page: the value of
    [features_per_section] and the list left in ["includedFeatures"]. *)
Definition bucket_features (feature_sections : list tag)
  : nat * list Feature.t :=
  let total_features := count_features feature_sections in
  let features_per_section := per_section total_features in
  let b := fold_left (add_section features_per_section) feature_sections
             {| included := []; current_section := 0; feature_count := 0 |} in
  (features_per_section, included b).

Definition feature_sections_of (plan_soup : tag) : list tag :=
  find_all plan_soup "div"
           (by_class "small-12 large-6 column text align-middle text-left").

(** *** Half baths, stories and floor plans *)

Definition detail_columns (plan_soup : tag) : list tag :=
  find_all plan_soup "div" (by_class "small-6 medium-6 large-4 column").

(** The half-bath loop: it stops only once a value has been stored. *)
Fixpoint half_baths_column (cols : list tag) : option string :=
  match cols with
  | [] => None
  | col :: rest =>
      match find col "h3" [] with
      | Some h3 =>
          if String.eqb (strip (text_of h3)) "Half Bathrooms"
          then match find_next_sibling h3 "span" with
               | Some span => Some (strip (text_of span))
               | None => half_baths_column rest
               end
          else half_baths_column rest
      | None => half_baths_column rest
      end
  end.

Definition floor_name (i : nat) : string :=
  match i with
  | 1 => "1st Floor Floorplan"
  | 2 => "2nd Floor Floorplan"
  | 3 => "3rd Floor Floorplan"
  | _ => str i +:+ "th Floor Floorplan"
  end.

(** The body of [for i in range(1, stories + 1)]. *)
Definition floorplan_entry (plan_soup : tag) (i : nat)
  : M (world * HomePlan.t) unit :=
  match find plan_soup "div" (by_class "tabs-content") with
  | Some tabs_content =>
      panels <- lift (deref (find tabs_content "div" (by_class "tabs-panel"))) ;;
      match find panels "img" [] with
      | Some img =>
          let src := or_else (get img "src") (get img "data-csrc") in
          match src with
          | Some s =>
              if truthy src
              then update (HomePlan.append_floorplan
                             {| Floorplan.name := floor_name i;
                                Floorplan.image_url := s |})
              else ret tt
          | None => ret tt
          end
      | None => ret tt
      end
  | None => ret tt
  end.

(** [try: body except ValueError: handler] *)
Definition try_except_ValueError {S A} (body : M S A) (handler : M S A)
  : M S A :=
  fun s =>
    match body s with
    | (s', Raise ValueError) => handler s'
    | other => other
    end.

(** The stories loop. The [try] gives [true] when the loop is to [break]
    and [false] when the handler said [continue]. *)
Fixpoint stories_loop (plan_soup : tag) (cols : list tag)
  : M (world * HomePlan.t) unit :=
  match cols with
  | [] => ret tt
  | col :: rest =>
      match find col "h3" [] with
      | Some h3 =>
          if String.eqb (strip (text_of h3)) "Stories"
          then match find_next_sibling h3 "span" with
               | Some span =>
                   leave <-
                     try_except_ValueError
                       (stories <- lift (py_int (strip (text_of span))) ;;
                        for_each (range_from_1 stories)
                                 (floorplan_entry plan_soup) ;;
                        ret true)
                       (ret false) ;;
                   (if leave : bool then ret tt
                    else stories_loop plan_soup rest)
               | None => stories_loop plan_soup rest
               end
          else stories_loop plan_soup rest
      | None => stories_loop plan_soup rest
      end
  end.

(** The body of the [try] that fetches a plan's own page. *)
Definition homeplan_detail (e : env) (output_dir url : string)
  : M (world * HomePlan.t) unit :=
  let plan_html_file := homeplan_html_file output_dir url in
  p <- outside (driver_get e url) ;;
  outside (sleep 3) ;;
  outside (write_file plan_html_file (Html (page_source p))) ;;
  let plan_soup := soup_of (parsed p) in
  update (HomePlan.set_includedFeatures []) ;;
  update (HomePlan.set_includedFeatures
            (snd (bucket_features (feature_sections_of plan_soup)))) ;;
  match half_baths_column (detail_columns plan_soup) with
  | Some v => update (HomePlan.set_half_baths (Some v))
  | None => ret tt
  end ;;
  stories_loop plan_soup (detail_columns plan_soup) ;;
  outside (remove_if_exists e plan_html_file).

(** [if homeplan["url"]: try: ... except Exception as e: ...] *)
Definition enrich_homeplan (e : env) (output_dir : string)
           (homeplan : HomePlan.t) : M world HomePlan.t :=
  match HomePlan.url homeplan with
  | Some url =>
      if truthy (HomePlan.url homeplan)
      then on_object homeplan
             (try_except
                (homeplan_detail e output_dir url)
                (fun _ =>
                   outside (remove_if_exists e
                              (homeplan_html_file output_dir url))))
      else ret homeplan
  | None => ret homeplan
  end.

(** One [floorplan-vertical] card of the loop. *)
Definition process_plan (e : env) (output_dir : string) (plan : tag)
           (data : Community.t) : M world Community.t :=
  homeplan <- lift (homeplan_record plan) ;;
  homeplan <- lift (homeplan_image plan homeplan) ;;
  homeplan <- enrich_homeplan e output_dir homeplan ;;
  ret (Community.append_homeplan homeplan data).

Fixpoint process_plans (e : env) (output_dir : string) (plans : list tag)
         (data : Community.t) : M world Community.t :=
  match plans with
  | [] => ret data
  | plan :: rest =>
      data <- process_plan e output_dir plan data ;;
      process_plans e output_dir rest data
  end.

Definition extract_homeplans (e : env) (output_dir : string) (soup : tag)
           (data : Community.t) : M world Community.t :=
  process_plans e output_dir
    (find_all soup "div" (by_class "row columns collapse floorplan-vertical"))
    data.

(** ** The fallback for an empty top-level image list *)

(** [available_images], as the two collecting loops build it. *)
Definition available_images (data : Community.t) : list string :=
  flat_map
    (fun plan =>
       match HomePlan.image_url (HomePlan.dets plan) with
       | Some u => if truthy (Some u) then [u] else []
       | None => []
       end)
    (Community.homeplans data)
  ++ flat_map
       (fun site =>
          match HomeSite.image_url site with
          | Some u => if truthy (Some u) then [u] else []
          | None => []
          end
          ++ HomeSite.images site)
       (Community.homesites data).

Definition image_fallback (e : env) (data : Community.t)
  : M world Community.t :=
  match Community.images data with
  | [] =>
      match available_images data with
      | [] => ret data
      | available =>
          chosen <- random_choice e available ;;
          ret (Community.set_images [chosen] data)
      end
  | _ => ret data
  end.

(** ** The whole function *)

Definition default_output_dir : string := "data/meritagehomes".

Definition json_file_of (output_dir url : string) : string :=
  let community_name := last_item (split_char "/" url) in
  output_dir +:+ "/json/meritage_" +:+ community_name +:+ ".json".

Definition html_file_of (output_dir url : string) : string :=
  let community_name := last_item (split_char "/" url) in
  output_dir +:+ "/html/meritage_" +:+ community_name +:+ ".html".

(** What [fetch_page] does once it holds a driver, up to [return data]. *)
Definition assemble (e : env) (url output_dir : string)
  : M world Community.t :=
  p <- driver_get e url ;;
  sleep 5 ;;
  makedirs (output_dir +:+ "/html") ;;
  makedirs (output_dir +:+ "/json") ;;
  write_file (html_file_of output_dir url) (Html (page_source p)) ;;
  let soup := soup_of (parsed p) in
  now <- now_isoformat e ;;
  let data := Community.initial now url in
  data <- lift (extract_name soup data) ;;
  data <- lift (extract_price_from soup data) ;;
  let data := extract_address soup data in
  let data := extract_description soup data in
  let data := extract_first_image soup data in
  let data := extract_coordinates soup data in
  data <- lift (extract_sqft_range soup data) ;;
  let data := extract_ranges soup data in
  let data := extract_nearbyplaces soup data in
  data <- extract_homesites e output_dir soup data ;;
  data <- extract_homeplans e output_dir soup data ;;
  data <- image_fallback e data ;;
  write_file (json_file_of output_dir url) (Json data) ;;
  ret data.

(** [fetch_page(url, output_dir)]: [None] when the output exists already or
    when anything raised; the driver, once created, is always quit. *)
Definition fetch_page (e : env) (url output_dir : string)
  : world -> world * option Community.t :=
  fun w =>
    let json_file := json_file_of output_dir url in
    if path_exists json_file w
    then (w, None)
    else
      match setup_driver e w with
      | (w1, Raise _) => (w1, None)
      | (w1, Ok _) =>
          match assemble e url output_dir w1 with
          | (w2, r) =>
              (fst (driver_quit w2),
               match r with
               | Ok data => Some data
               | Raise _ => None
               end)
          end
      end.

(** The batch loop of [main]: [fetch_page(url, output_dir)] then
    [time.sleep(2)], for each URL of the frontier. *)
Fixpoint process_urls (e : env) (urls : list string) (output_dir : string)
         (w : world) : world :=
  match urls with
  | [] => w
  | url :: rest =>
      let w1 := fst (fetch_page e url output_dir w) in
      let w2 := fst (sleep 2 w1) in
      process_urls e rest output_dir w2
  end.

(* ===================================================================== *)
(** * [get_city_links]: the link loop of [get_meritage_api_links.py] *)
(* ===================================================================== *)

(** The body of [for element in city_elements]. *)
Definition add_city_link (city_links : list string) (element : tag)
  : list string :=
  let href := get element "href" in
  if truthy href
  then match absolutize href with
       | Some h =>
           if existsb (String.eqb h) city_links
           then city_links
           else city_links ++ [h]
       | None => city_links
       end
  else city_links.

Definition city_links_of (soup : tag) : list string :=
  fold_left add_city_link (find_all soup "a" (by_class "city-link")) [].

(** [get_city_links()]: the driver is set up outside the [try], so a
    failure to start it propagates; anything raised after that gives the
    empty list; the driver is quit either way. *)
Definition homes_url : string := "https://www.meritagehomes.com/homes".

Definition city_links_page (e : env) : M world (list string) :=
  p <- driver_get e homes_url ;;
  sleep 5 ;;
  makedirs "data" ;;
  write_file "data/meritage_initial.html" (Html (page_source p)) ;;
  ret (city_links_of (soup_of (parsed p))).

Definition get_city_links (e : env) : M world (list string) :=
  fun w =>
    match setup_driver e w with
    | (w1, Raise ex) => (w1, Raise ex)
    | (w1, Ok _) =>
        match city_links_page e w1 with
        | (w2, r) =>
            (fst (driver_quit w2),
             Ok match r with
                | Ok city_links => city_links
                | Raise _ => []
                end)
        end
    end.

(* ===================================================================== *)
(** * [get_community_links] *)
(* ===================================================================== *)

(** [s.rstrip(c)] for a one-character [c]. *)
Fixpoint lstrip_char (c : ascii) (l : list ascii) : list ascii :=
  match l with
  | x :: l' => if Ascii.eqb x c then lstrip_char c l' else l
  | [] => []
  end.

Definition rstrip_char (c : ascii) (s : string) : string :=
  text (rev (lstrip_char c (rev (chars s)))).

(** [url.rstrip('/').split('/')[-1] or 'index'] *)
Definition page_filename (url : string) : string :=
  let name := last_item (split_char "/" (rstrip_char "/" url)) in
  if String.eqb name "" then "index" else name.

Definition city_html_file (url : string) : string :=
  "data/meritage_" +:+ page_filename url +:+ ".html".

(** The body of [for link in links]. *)
Definition add_community_link (community_links : list string) (link : tag)
  : list string :=
  let href := get link "href" in
  if truthy href
  then match absolutize href with
       | Some h =>
           if existsb (String.eqb h) community_links
           then community_links
           else community_links ++ [h]
       | None => community_links
       end
  else community_links.

(** The body of [for container in community_containers]. *)
Definition add_container_links (community_links : list string)
           (container : tag) : list string :=
  fold_left add_community_link
            (find_all container "a" (by_class "button--blue--solid"))
            community_links.

Definition add_page_links (soup : tag) (community_links : list string)
  : list string :=
  fold_left add_container_links
            (find_all soup "div" (by_class "community-horizontal"))
            community_links.

(** The body of [for url in city_links], with its own [try]: whatever is
    raised (by the page load, or by [open] when [data/] is missing) is
    logged and the loop continues. The snapshot is written before the
    page is read. The list of links is the local object. *)
Definition visit_city (e : env) (url : string)
  : M (world * list string) unit :=
  try_except
    (p <- outside (driver_get e url) ;;
     outside (sleep 5) ;;
     outside (write_file (city_html_file url) (Html (page_source p))) ;;
     update (add_page_links (soup_of (parsed p))))
    (fun _ => ret tt).

(** [get_community_links(city_links)]. [set_order] is the order in which
    [list(set(...))] happens to give the elements of a list. *)
Definition get_community_links (e : env)
           (set_order : list string -> list string)
           (city_links : list string) : M world (list string) :=
  fun w =>
    match setup_driver e w with
    | (w1, Raise ex) => (w1, Raise ex)
    | (w1, Ok _) =>
        match for_each city_links (visit_city e) (w1, []) with
        | ((w2, community_links), r) =>
            (fst (driver_quit w2),
             Ok match r with
                | Ok _ => set_order community_links
                | Raise _ => []
                end)
        end
    end.

(* ===================================================================== *)
(** * Vocabulary of the statements *)
(* ===================================================================== *)

(** The pattern [r] is absent from an optional text: there is no text, or
    the pattern occurs nowhere in it. *)
Definition absent (r : Re.regex) (text : option string) : Prop :=
  forall t, text = Some t -> ~ Re.occurs r t.

(** Every [li] item of the feature sections, in page order. *)
Definition all_items (feature_sections : list tag) : list tag :=
  flat_map section_items feature_sections.

(** The item has text left once stripped. *)
Definition nonblank (li : tag) : bool :=
  negb (String.eqb (strip (text_of li)) "").

(** The [section_index] values of a plan's features, in order. *)
Definition section_indexes (feature_sections : list tag) : list nat :=
  map Feature.section_index (snd (bucket_features feature_sections)).

(** How many features received section index [k]. *)
Definition bucket_size (k : nat) (indexes : list nat) : nat :=
  count_occ Nat.eq_dec indexes k.

(** The section index of the feature emitted after [j] others, in closed
    form. *)
Definition index_of (features_per_section j : nat) : nat :=
  if features_per_section =? 0 then Nat.min j 3
  else Nat.min (j / features_per_section) 3.

(** [x] is an image of a child of the community: a plan's primary image,
    a home site's primary image, or an image of a home site's gallery. A
    primary image that is the empty string counts as no image. *)
Definition child_image (data : Community.t) (x : string) : Prop :=
  (exists plan, In plan (Community.homeplans data)
                /\ HomePlan.image_url (HomePlan.dets plan) = Some x /\ x <> "")
  \/ (exists site, In site (Community.homesites data)
                   /\ ((HomeSite.image_url site = Some x /\ x <> "")
                       \/ In x (HomeSite.images site))).

(** The value of a run that raised nothing. *)
Definition value_of {A} (r : result A) : option A :=
  match r with
  | Ok a => Some a
  | Raise _ => None
  end.

(** Every run of [m] takes a state to one related to it by [R]. *)
Definition keeps {S A} (R : S -> S -> Prop) (m : M S A) : Prop :=
  forall s s' r, m s = (s', r) -> R s s'.

(** [m] raises nothing, from any state. *)
Definition never_raises {S A} (m : M S A) : Prop :=
  forall s, exists s' a, m s = (s', Ok a).

(** A run of [m] that raises nothing ends in a state where [Q] holds. *)
Definition ends_in {S A} (Q : S -> Prop) (m : M S A) : Prop :=
  forall s s' a, m s = (s', Ok a) -> Q s'.

(** A relation on the local object, read on the state of a block. *)
Definition on_local {L} (Q : L -> L -> Prop) (s s' : world * L) : Prop :=
  Q (snd s) (snd s').

(** The fields of a home site that come from the community page. *)
Definition site_base (h : HomeSite.t) :=
  (HomeSite.address h, HomeSite.name h, HomeSite.plan h, HomeSite.id h,
   HomeSite.price h, HomeSite.beds h, HomeSite.baths h, HomeSite.sqft h,
   HomeSite.status h, HomeSite.image_url h, HomeSite.url h).

Definition same_site_base (h h' : HomeSite.t) : Prop :=
  site_base h = site_base h'.

(** The fields of a home plan that come from the community page. *)
Definition plan_base (h : HomePlan.t) :=
  (HomePlan.name h, HomePlan.url h, HomePlan.price (HomePlan.dets h),
   HomePlan.beds (HomePlan.dets h), HomePlan.baths (HomePlan.dets h),
   HomePlan.sqft (HomePlan.dets h), HomePlan.status (HomePlan.dets h),
   HomePlan.image_url (HomePlan.dets h)).

Definition same_plan_base (h h' : HomePlan.t) : Prop :=
  plan_base h = plan_base h'.

(** No file is stored under [path]. *)
Definition no_file (path : string) (w : world) : Prop :=
  path_exists path w = false.

(** The [qmi-vertical] cards of a community page, in page order. *)
Definition qmi_cards (soup : tag) : list tag :=
  match find soup "section" [("aria-label", Is "Quick Move Ins")] with
  | Some qmi_section => find_all qmi_section "div" (by_class "qmi-vertical")
  | None => []
  end.

(** The card has the [content] and [mid] blocks a home site is read from. *)
Definition emits (qmi : tag) : bool :=
  match find qmi "div" (by_class "content") with
  | Some content =>
      match find content "div" (by_class "mid") with
      | Some _ => true
      | None => false
      end
  | None => false
  end.

(** The [enumerate] numbers, from [index] on, of the cards that emit. *)
Fixpoint emitting_indexes (index : nat) (qmis : list tag) : list nat :=
  match qmis with
  | [] => []
  | qmi :: rest =>
      (if emits qmi then [index] else [])
      ++ emitting_indexes (S index) rest
  end.

(** The three fields of [data] that are set once, at its creation. *)
Definition constants (data : Community.t) : nat * list string * list string :=
  (Community.community_count (Community.dets data),
   Community.amenities data, Community.collections data).

(** ** What a match consumed and what its groups hold *)

(** The longest run of characters of a class at the head of a string, and
    what follows it. *)
Fixpoint run (p : ascii -> bool) (s : list ascii) : list ascii :=
  match s with
  | c :: s' => if p c then c :: run p s' else []
  | [] => []
  end.

Fixpoint after_run (p : ascii -> bool) (s : list ascii) : list ascii :=
  match s with
  | c :: s' => if p c then after_run p s' else s
  | [] => []
  end.

(** The next character, if any, is outside the class. *)
Definition stops (p : ascii -> bool) (s : list ascii) : Prop :=
  match s with
  | c :: _ => p c = false
  | [] => True
  end.

(** [captures_of r s caps s' caps']: [r] matches at the head of [s] leaving
    [s'], and the groups it closes on the way are added to [caps], the
    last one closed first. *)
Inductive captures_of
  : Re.regex -> list ascii -> Re.captures -> list ascii -> Re.captures -> Prop :=
| C_Eps s caps : captures_of Re.Eps s caps s caps
| C_Chr p c s caps : p c = true -> captures_of (Re.Chr p) (c :: s) caps s caps
| C_Cat r1 r2 s1 s2 s3 c1 c2 c3 :
    captures_of r1 s1 c1 s2 c2 -> captures_of r2 s2 c2 s3 c3 ->
    captures_of (Re.Cat r1 r2) s1 c1 s3 c3
| C_AltL r1 r2 s s' c c' :
    captures_of r1 s c s' c' -> captures_of (Re.Alt r1 r2) s c s' c'
| C_AltR r1 r2 s s' c c' :
    captures_of r2 s c s' c' -> captures_of (Re.Alt r1 r2) s c s' c'
| C_Star p s s' caps :
    Re.matches (Re.Star p) s s' -> captures_of (Re.Star p) s caps s' caps
| C_Grp i r s s' c c' :
    captures_of r s c s' c' ->
    captures_of (Re.Grp i r) s c s' ((i, Re.consumed s s') :: c')
| C_Eol s caps : Re.at_eol s = true -> captures_of Re.Eol s caps s caps.

(** The pattern has no group. *)
Fixpoint groupless (r : Re.regex) : bool :=
  match r with
  | Re.Cat r1 r2 | Re.Alt r1 r2 => groupless r1 && groupless r2
  | Re.Grp _ _ => false
  | _ => true
  end.

(** A string of decimal digits, at least one. *)
Definition digits (l : list ascii) : Prop :=
  l <> [] /\ forallb is_digit l = true.

(** A string of decimal digits and commas, at least one character. *)
Definition digits_and_commas (l : list ascii) : Prop :=
  l <> [] /\ forallb digit_or_comma l = true.

(** The unit words of the bed and bath patterns, and what follows the
    number in the square-footage pattern. *)
Definition bed_words : Re.regex :=
  Re.Alt (Re.Lit "Bedroom") (Re.Alt (Re.Lit "Bed") (Re.Lit "BR")).

Definition bath_words : Re.regex :=
  Re.Alt (Re.Lit "Bathroom") (Re.Alt (Re.Lit "Bath") (Re.Lit "BA")).

Definition sq_ft_words : Re.regex :=
  Re.Seq [Re.Star is_space; Re.Lit "sq"; Re.Star is_space; Re.Lit "ft"].

(** A decimal number: digits, then possibly a point and more digits. *)
Definition decimal (l : list ascii) : Prop :=
  exists whole frac,
    l = whole ++ frac /\ digits whole
    /\ (frac = [] \/ exists f, frac = "."%char :: f /\ digits f).

(** What is said of a count [b] found by the pattern [number] followed
    by optional white space and one of the unit [words]: it stands in
    the text [t] right before them, it is not part of a longer number (no
    digit before it, none after it), and the whole pattern matches at no
    earlier place of the text. *)
Definition counted_before (number words : Re.regex) (t b : string) : Prop :=
  exists pre rest rest',
    chars t = pre ++ chars b ++ rest
    /\ Re.matches (Re.Cat (Re.Star is_space) words) rest rest'
    /\ stops is_digit rest
    /\ (forall a c, pre = a ++ [c] -> is_digit c = false)
    /\ (forall a s rest2, pre = a ++ s -> s <> [] ->
          ~ Re.matches
              (Re.Cat (Re.Grp 1 number) (Re.Cat (Re.Star is_space) words))
              (s ++ chars b ++ rest) rest2).



(** The column is headed [label] and a [span] follows the heading. *)
Definition column_value (label : string) (col : tag) : option string :=
  match find col "h3" [] with
  | Some h3 =>
      if String.eqb (strip (text_of h3)) label
      then match find_next_sibling h3 "span" with
           | Some span => Some (strip (text_of span))
           | None => None
           end
      else None
  | None => None
  end.


(** The column is headed [label], with or without a value. *)
Definition column_headed (label : string) (col : tag) : bool :=
  match find col "h3" [] with
  | Some h3 => String.eqb (strip (text_of h3)) label
  | None => false
  end.

(** ** What a run leaves alone *)

(** The observation [f] of the state is the same after as before. *)
Definition unchanged {S X} (f : S -> X) (s s' : S) : Prop := f s' = f s.

(** An observation of the world that [fetch_page] cannot disturb before
    it writes its JSON record: it ignores the history except for drivers
    set up and quit, the files under [output_dir/html/meritage_...], and
    the number of random draws. *)
Record framed {X} (output_dir : string) (f : world -> X) : Prop := {
  framed_log :
    forall ev w, ev <> SetupDriver -> ev <> DriverQuit -> f (log ev w) = f w;
  framed_insert :
    forall name c w,
      f (with_fs (insert (output_dir +:+ "/html/meritage_" +:+ name) c) w)
      = f w;
  framed_delete :
    forall name w,
      f (with_fs (delete (output_dir +:+ "/html/meritage_" +:+ name)) w) = f w;
  framed_draw :
    forall w, f {| fs := fs w; dirs := dirs w; events := events w;
                   draws := S (draws w) |}
              = f w;
  framed_dirs :
    forall g w, f (with_dirs g w) = f w
}.

Definition is_setup (ev : event) : bool :=
  match ev with SetupDriver => true | _ => false end.

Definition is_quit (ev : event) : bool :=
  match ev with DriverQuit => true | _ => false end.

(** How many drivers have been set up, and how many quit, so far. *)
Definition opened (w : world) : nat := length (List.filter is_setup (events w)).
Definition closed (w : world) : nat := length (List.filter is_quit (events w)).

(** A path of a JSON record under [output_dir]. *)
Definition json_path (output_dir name : string) : string :=
  output_dir +:+ "/json/" +:+ name.

(** ** The lists of a community record *)

(** The nearby places of one group: every plain span, with the group's
    heading as category. *)
Definition nearby_of (group : tag) : list Nearby.t :=
  map (fun link =>
         {| Nearby.name := strip (text_of link);
            Nearby.category :=
              match find group "h5" [] with
              | Some h5 => Some (strip (text_of h5))
              | None => None
              end;
            Nearby.distance := None;
            Nearby.rating := None;
            Nearby.reviews := None |})
      (find_all group "span" (by_class "plain")).

(** The nearby places of a page, group after group. *)
Definition nearby_entries (soup : tag) : list Nearby.t :=
  flat_map nearby_of (find_all soup "div" (by_class "multicol")).

(** An absolute URL, as the scripts test it. *)
Definition absolute (url : string) : Prop := startswith "http" url = true.

(** The images of a home site are absolute, its primary image too unless
    it is missing or empty. *)
Definition site_images_absolute (h : HomeSite.t) : Prop :=
  Forall absolute (HomeSite.images h)
  /\ (forall u, HomeSite.image_url h = Some u -> u <> "" -> absolute u).

Definition plan_image_absolute (h : HomePlan.t) : Prop :=
  forall u, HomePlan.image_url (HomePlan.dets h) = Some u -> u <> "" ->
            absolute u.

(** What every home site and every home plan of a record satisfies. *)
Definition site_ok (h : HomeSite.t) : Prop :=
  HomeSite.status h = "Available" /\ site_images_absolute h.

Definition plan_ok (h : HomePlan.t) : Prop :=
  HomePlan.status (HomePlan.dets h) = "Actively selling"
  /\ plan_image_absolute h.

(** The four lists of [data]. *)
Definition lists_of (data : Community.t) :=
  (Community.nearbyplaces data, Community.homesites data,
   Community.homeplans data, Community.images data).

(** A card block whose heading holds a link that has no [href]. *)
Definition link_without_href (card : option tag) : Prop :=
  exists c h3 a,
    card = Some c /\ find c "h3" [] = Some h3 /\ find h3 "a" [] = Some a
    /\ get a "href" = None.

(** The page has a plan card, or a quick move-in card, whose heading link
    has no [href]. *)
Definition plan_card_without_href (soup : tag) : Prop :=
  exists plan,
    In plan (find_all soup "div"
               (by_class "row columns collapse floorplan-vertical"))
    /\ link_without_href (find plan "div" (by_class "content")).

Definition site_card_without_href (soup : tag) : Prop :=
  exists qmi_section qmi content mid,
    find soup "section" [("aria-label", Is "Quick Move Ins")]
    = Some qmi_section
    /\ In qmi (find_all qmi_section "div" (by_class "qmi-vertical"))
    /\ find qmi "div" (by_class "content") = Some content
    /\ find content "div" (by_class "mid") = Some mid
    /\ link_without_href (Some mid).

(** The page has an overview block that holds no [article]. *)
Definition overview_without_article (soup : tag) : Prop :=
  exists overview_section,
    find soup "div" (by_class "community-detail-overview")
    = Some overview_section
    /\ find overview_section "article" [] = None.

(** ** Links of the listing pages *)

(** The URL an anchor stands for: its [href], origin prepended unless it
    starts with [http]; none without an [href] or with an empty one. *)
Definition link_of (a : tag) : option string :=
  if truthy (get a "href") then absolutize (get a "href") else None.

Definition city_anchors (soup : tag) : list tag :=
  find_all soup "a" (by_class "city-link").

Definition community_anchors (soup : tag) : list tag :=
  flat_map (fun container =>
              find_all container "a" (by_class "button--blue--solid"))
           (find_all soup "div" (by_class "community-horizontal")).

(** [set_order] gives the elements of a list once each, in some order. *)
Definition is_set_order (set_order : list string -> list string) : Prop :=
  forall l, List.NoDup (set_order l)
            /\ forall x, In x (set_order l) <-> In x l.

(* ===================================================================== *)
(** * Sample pages *)
(* ===================================================================== *)

(** Small documents on which the statements below are run. *)
Module Samples.

Definition document (children : list node) : node :=
  Elem "[document]" [] children.

Definition li (s : string) : node := Elem "li" [] [Str s].

(** A feature section of a plan page, with one list. *)
Definition feature_section (items : list node) : node :=
  Elem "div"
       [("class", "small-12 large-6 column text align-middle text-left")]
       [Elem "ul" [] items].

Definition sections_of (page : node) : list tag :=
  feature_sections_of (soup_of page).

(** Ten features in two sections. *)
Definition ten_items : node :=
  document
    [feature_section [li "Granite counters"; li "Smart thermostat";
                      li "Tile floors"; li "LED lighting"];
     feature_section [li "Spray foam"; li "Low-E windows"; li "Tankless heater";
                      li "Covered patio"; li "Garage opener"; li "Sod yard"]].

(** The same ten features with two empty list items among them. *)
Definition twelve_items : node :=
  document
    [feature_section [li "Granite counters"; li "Smart thermostat"; li "  ";
                      li "Tile floors"; li "LED lighting"];
     feature_section [li "Spray foam"; li "Low-E windows"; li "Tankless heater";
                      Elem "li" [] []; li "Covered patio"; li "Garage opener";
                      li "Sod yard"]].

(** Three features. *)
Definition three_items : node :=
  document
    [feature_section [li "Granite counters"; li "Smart thermostat";
                      li "Tile floors"]].

(** A community with no image of its own, one plan whose image is [A]
    and one home site whose image is [B]. *)
Definition plan_A : HomePlan.t :=
  {| HomePlan.name := Some "Aspen"; HomePlan.url := None;
     HomePlan.dets :=
       {| HomePlan.price := None; HomePlan.beds := None;
          HomePlan.baths := None; HomePlan.half_baths := None;
          HomePlan.sqft := None; HomePlan.status := "Actively selling";
          HomePlan.image_url := Some "A" |};
     HomePlan.floorplan_images := []; HomePlan.includedFeatures := [] |}.

Definition site_B : HomeSite.t :=
  {| HomeSite.address := None; HomeSite.name := None; HomeSite.plan := None;
     HomeSite.id := "1"; HomeSite.price := None; HomeSite.beds := None;
     HomeSite.baths := None; HomeSite.sqft := None;
     HomeSite.status := "Available"; HomeSite.image_url := Some "B";
     HomeSite.url := None; HomeSite.latitude := None;
     HomeSite.longitude := None; HomeSite.overview := None;
     HomeSite.images := [] |}.

Definition community_A_B : Community.t :=
  Community.append_homesite site_B
    (Community.append_homeplan plan_A
       (Community.initial "2024-01-01T00:00:00" "https://www.meritagehomes.com/state/tx/austin/oak")).

(** A world with no file and no history, and an environment in which no
    URL loads. *)
Definition empty_world : world :=
  {| fs := ∅; dirs := []; events := []; draws := 0 |}.

(** A world in which the output directories of [out] exist, as
    [fetch_page] has made them by the time it reads the cards. *)
Definition out_world : world :=
  {| fs := ∅; dirs := ["out"; "out/html"; "out/json"]; events := [];
     draws := 0 |}.

Definition offline : env :=
  {| web := fun _ => None; chrome := true;
     clock := fun _ => "2024-01-01T00:00:00"; rand := fun n => n;
     protected := fun _ => false |}.

(** A community page whose first slide carries an absolute image URL, and
    the same slide with a relative one. *)
Definition slide (src : string) : node :=
  Elem "li" [("class", "slick-slide orbit-slide")]
       [Elem "span" [("data-lazy", "true"); ("src", src)] []].

Definition absolute_slide_page : node :=
  document [slide "https://cdn.meritagehomes.com/hero.jpg"].

Definition relative_slide_page : node :=
  document [slide "/images/hero.jpg"].

(** A top-level listing page with one relative and one absolute city
    link. *)
Definition city_page : node :=
  document
    [Elem "a" [("class", "city-link"); ("href", "/state/tx/austin")] [];
     Elem "a" [("class", "city-link");
               ("href", "https://www.meritagehomes.com/state/az/phoenix")] []].

(** A plan's own page: two features, a half-bath column, a stories
    column, and a [tabs-content] block that holds no [tabs-panel]. *)
Definition detail_column (heading value : string) : node :=
  Elem "div" [("class", "small-6 medium-6 large-4 column")]
       [Elem "h3" [] [Str heading]; Elem "span" [] [Str value]].

Definition plan_page_without_panel : node :=
  document
    [feature_section [li "Granite counters"; li "Smart thermostat"];
     detail_column "Half Bathrooms" "1";
     detail_column "Stories" "2";
     Elem "div" [("class", "tabs-content")] []].

(** A home site's own page: a map link, two paragraphs and one slide. *)
Definition site_page : node :=
  document
    [Elem "article"
          [("class", "small-12 medium-10 large-8 column text-center pad-bottom-2")]
          [Elem "a" [("class", "plain");
                     ("href", "https://maps.google.com/?daddr=30.25,-97.75")]
                [Str "Directions"];
           Elem "p" [] [Str "Plan #4021"];
           Elem "p" [] [Str " A bright single-story home. "]];
     Elem "li" [("class", "slick-slide orbit-slide")]
          [Elem "span" [("class", "hidden-image");
                        ("data-lazy", "/images/front.jpg")] []]].

Definition plan_url : string := "https://www.meritagehomes.com/plan/aspen".
Definition site_url : string := "https://www.meritagehomes.com/home/12-main-st".

(** An environment in which the two detail pages load. *)
Definition online : env :=
  {| web := fun url =>
              if String.eqb url plan_url
              then Some {| page_source := "<html>plan</html>";
                           parsed := plan_page_without_panel |}
              else if String.eqb url site_url
              then Some {| page_source := "<html>site</html>";
                           parsed := site_page |}
              else None;
     chrome := true;
     clock := fun _ => "2024-01-01T00:00:00";
     rand := fun n => n;
     protected := fun _ => false |}.

(** The same environment, except that the snapshot of the plan's page,
    once written, cannot be removed. *)
Definition locked : env :=
  {| web := web online;
     chrome := true;
     clock := clock online;
     rand := rand online;
     protected := String.eqb "out/html/meritage_aspen.html" |}.

Definition plan_with_url : HomePlan.t :=
  {| HomePlan.name := Some "Aspen"; HomePlan.url := Some plan_url;
     HomePlan.dets := HomePlan.dets plan_A;
     HomePlan.floorplan_images := []; HomePlan.includedFeatures := [] |}.

Definition site_with_url : HomeSite.t :=
  {| HomeSite.address := Some "12 Main St Austin, TX 78701";
     HomeSite.name := Some "12 Main St Austin, TX";
     HomeSite.plan := Some "Aspen"; HomeSite.id := "1";
     HomeSite.price := None; HomeSite.beds := None;
     HomeSite.baths := None; HomeSite.sqft := None;
     HomeSite.status := "Available"; HomeSite.image_url := Some "B";
     HomeSite.url := Some site_url; HomeSite.latitude := None;
     HomeSite.longitude := None; HomeSite.overview := None;
     HomeSite.images := [] |}.

(** A community page with two quick move-in cards, the first of them
    empty. *)
Definition two_cards_page : node :=
  document
    [Elem "section" [("aria-label", "Quick Move Ins")]
          [Elem "div" [("class", "qmi-vertical")] [];
           Elem "div" [("class", "qmi-vertical")]
                [Elem "div" [("class", "content")]
                      [Elem "div" [("class", "mid")]
                            [Elem "p" [] [Str "12 Main St Austin, TX 78701"]]]]]].

(** A community page with a heading and nothing else, and an environment
    in which it loads. *)
Definition oak_url : string :=
  "https://www.meritagehomes.com/state/tx/austin/oak".

Definition oak_page : node :=
  document
    [Elem "div" [("class", "community-detail-overview")]
          [Elem "article" [] [Elem "h1" [] [Str " Oak Hollow "]]]].

Definition oak_online : env :=
  {| web := fun url =>
              if String.eqb url oak_url
              then Some {| page_source := "<html>oak</html>";
                           parsed := oak_page |}
              else None;
     chrome := true;
     clock := fun _ => "2024-01-01T00:00:00";
     rand := fun n => n;
     protected := fun _ => false |}.

(** A world in which the record of [oak_url] is already on disk. *)
Definition oak_done : world :=
  {| fs := {[ "out/json/meritage_oak.json" := Html "" ]};
     dirs := ["out"; "out/json"; "out/html"]; events := []; draws := 0 |}.

(** A home site's own page whose only slide is a plain image with an
    absolute source, and a card heading whose link is absolute. *)
Definition absolute_gallery_page : node :=
  document
    [Elem "li" [("class", "slick-slide orbit-slide")]
          [Elem "img" [("class", "orbit-image");
                       ("src", "https://cdn.meritagehomes.com/front.jpg")] []]].

Definition absolute_heading : node :=
  Elem "div" [("class", "mid")]
       [Elem "h3" []
             [Elem "a" [("href", "https://www.meritagehomes.com/home/12-main-st")]
                   [Str "Aspen"]]].

(** A plan's own page with a panel image and a stories column that says
    three, after one that says nothing usable. *)
Definition plan_page_with_panel : node :=
  document
    [detail_column "Half Bathrooms" "1";
     detail_column "Stories" "two";
     detail_column "Stories" " 3 ";
     Elem "div" [("class", "tabs-content")]
          [Elem "div" [("class", "tabs-panel is-active")]
                [Elem "img" [("data-csrc", "/plans/aspen-1.png")] []];
           Elem "div" [("class", "tabs-panel")]
                [Elem "img" [("data-csrc", "/plans/aspen-2.png")] []]]].

(** Another URL that ends in the same path segment as [oak_url]. *)
Definition other_oak_url : string :=
  "https://www.meritagehomes.com/state/az/phoenix/oak".

(** A community page with a heading, one group of nearby places, one
    quick move-in card and one plan card, neither card linking to a page
    of its own; and an environment in which it loads. *)
Definition grove_url : string :=
  "https://www.meritagehomes.com/state/tx/austin/grove".

Definition grove_page : node :=
  document
    [Elem "div" [("class", "community-detail-overview")]
          [Elem "article" [] [Elem "h1" [] [Str " Cedar Grove "]]];
     Elem "div" [("class", "multicol")]
          [Elem "h5" [] [Str "Schools"];
           Elem "span" [("class", "plain")] [Str " Cedar Elementary "]];
     Elem "section" [("aria-label", "Quick Move Ins")]
          [Elem "div" [("class", "qmi-vertical")]
                [Elem "div" [("class", "image")]
                      [Elem "img" [("src", "/images/lot-7.jpg")] []];
                 Elem "div" [("class", "content")]
                      [Elem "div" [("class", "mid")]
                            [Elem "p" [] [Str "7 Cedar Ln Austin, TX 78701"]]]]];
     Elem "div" [("class", "row columns collapse floorplan-vertical")]
          [Elem "div" [("class", "image")]
                [Elem "img" [("src", "https://cdn.meritagehomes.com/aspen.jpg")]
                      []];
           Elem "div" [("class", "content")] [Elem "h3" [] [Str "Aspen"]]]].

Definition grove_online : env :=
  {| web := fun url =>
              if String.eqb url grove_url
              then Some {| page_source := "<html>grove</html>";
                           parsed := grove_page |}
              else None;
     chrome := true;
     clock := fun _ => "2024-01-01T00:00:00";
     rand := fun n => n;
     protected := fun _ => false |}.

(** Columns of a detail block: a heading without a value, then the same
    heading with one. *)
Definition bare_column (heading : string) : node :=
  Elem "div" [("class", "small-6 medium-6 large-3 column")]
       [Elem "h3" [] [Str heading]].

Definition valued_column (heading value : string) : node :=
  Elem "div" [("class", "small-6 medium-6 large-3 column")]
       [Elem "h3" [] [Str heading]; Elem "span" [] [Str value]].

(** A community page whose only plan card has a heading link without an
    [href], and one whose overview block has no [article]. *)
Definition linkless_page : node :=
  document
    [Elem "div" [("class", "row columns collapse floorplan-vertical")]
          [Elem "div" [("class", "content")]
                [Elem "h3" [] [Elem "a" [] [Str "Aspen"]]]]].

Definition bare_overview_page : node :=
  document
    [Elem "div" [("class", "community-detail-overview")]
          [Elem "h1" [] [Str "Oak Hollow"]]].

Definition serving (n : node) : env :=
  {| web := fun _ => Some {| page_source := "<html></html>"; parsed := n |};
     chrome := true;
     clock := fun _ => "2024-01-01T00:00:00";
     rand := fun n => n;
     protected := fun _ => false |}.

(** A city page with two community cards, the second repeating a link of
    the first, and an environment in which the listing page and one city
    page load while another city page does not. *)
Definition community_card (hrefs : list string) : node :=
  Elem "div" [("class", "community-horizontal")]
       (map (fun href =>
               Elem "a" [("class", "button--blue--solid"); ("href", href)] [])
            hrefs).

Definition austin_page : node :=
  document
    [community_card ["/state/tx/austin/oak"; "/state/tx/austin/grove"];
     community_card ["https://www.meritagehomes.com/state/tx/austin/oak"]].

Definition austin_url : string :=
  "https://www.meritagehomes.com/state/tx/austin".

Definition phoenix_url : string :=
  "https://www.meritagehomes.com/state/az/phoenix".

(** The same city, written with a slash at the end. *)
Definition austin_url_slash : string :=
  "https://www.meritagehomes.com/state/tx/austin/".

Definition listing_online : env :=
  {| web := fun url =>
              if String.eqb url "https://www.meritagehomes.com/homes"
              then Some {| page_source := "<html>homes</html>";
                           parsed := city_page |}
              else if String.eqb url austin_url
              then Some {| page_source := "<html>austin</html>";
                           parsed := austin_page |}
              else if String.eqb url (austin_url +:+ "/")
              then Some {| page_source := "<html>austin again</html>";
                           parsed := austin_page |}
              else None;
     chrome := true;
     clock := fun _ => "2024-01-01T00:00:00";
     rand := fun n => n;
     protected := fun _ => false |}.

(** One order in which a set may give its elements. *)
Definition reversed_set (l : list string) : list string :=
  rev (nodup String.string_dec l).

(** A plan card that links to the plan's own page, a community page
    made of that card, and an environment in which both pages load while
    the snapshot of the plan's page cannot be removed. *)
Definition aspen_card : node :=
  Elem "div" [("class", "row columns collapse floorplan-vertical")]
       [Elem "div" [("class", "content")]
             [Elem "h3" [] [Elem "a" [("href", "/plan/aspen")] [Str "Aspen"]]]].

Definition linked_page : node :=
  document
    [Elem "div" [("class", "community-detail-overview")]
          [Elem "article" [] [Elem "h1" [] [Str "Cedar Grove"]]];
     aspen_card].

Definition locked_community : env :=
  {| web := fun url =>
              if String.eqb url grove_url
              then Some {| page_source := "<html>grove</html>";
                           parsed := linked_page |}
              else web online url;
     chrome := true;
     clock := clock online;
     rand := rand online;
     protected := String.eqb "out/html/meritage_aspen.html" |}.

End Samples.

(* ===================================================================== *)
(** * Properties *)
(* ===================================================================== *)

(** ** The matcher finds a match exactly when there is one *)

Import Re.

Lemma extends_refl caps : extends caps caps.
Proof. intros i H; exact H. Qed.

Lemma extends_trans c1 c2 c3 : extends c1 c2 -> extends c2 c3 -> extends c1 c3.
Proof. intros H12 H23 i H. apply H23, H12, H. Qed.

Lemma extends_cons i v caps : extends caps ((i, v) :: caps).
Proof.
  intros j H. unfold bound in *. simpl.
  destruct (Nat.eqb j i); [discriminate | exact H].
Qed.

Lemma bound_cons i v caps : bound i ((i, v) :: caps).
Proof. unfold bound. simpl. rewrite Nat.eqb_refl. discriminate. Qed.

Lemma star_bt_sound {A} p s (k : list ascii -> option A) x :
  Re.star_bt p s k = Some x ->
  exists s', Re.matches (Re.Star p) s s' /\ k s' = Some x.
Proof.
  induction s as [|c s IH]; simpl; intros H.
  - exists []. split; [constructor | exact H].
  - destruct (p c) eqn:Hp.
    + destruct (Re.star_bt p s k) as [y|] eqn:Hs.
      * injection H as ->. destruct (IH eq_refl) as (s' & Hm & Hk).
        exists s'. split; [now constructor | exact Hk].
      * exists (c :: s). split; [constructor | exact H].
    + exists (c :: s). split; [constructor | exact H].
Qed.

Lemma star_bt_here {A} p s (k : list ascii -> option A) :
  k s <> None -> Re.star_bt p s k <> None.
Proof.
  destruct s as [|c s]; simpl; intros H; [exact H|].
  destruct (p c); [|exact H].
  destruct (Re.star_bt p s k); [discriminate | exact H].
Qed.

(** Soundness: a success of the matcher comes from a match, and the
    continuation saw every group the pattern always sets. *)
Lemma bt_sound {A} r : forall s caps (k : list ascii -> Re.captures -> option A) x,
  Re.bt r s caps k = Some x ->
  exists s' caps',
    Re.matches r s s' /\ k s' caps' = Some x /\ extends caps caps'
    /\ (forall i, binds r i = true -> bound i caps').
Proof.
  induction r as [|p|r1 IH1 r2 IH2|r1 IH1 r2 IH2|p|j r IH|];
    intros s caps k x H; simpl in H.
  - exists s, caps. repeat split; auto using extends_refl; try constructor.
    intros i Hi; discriminate.
  - destruct s as [|c s]; [discriminate|].
    destruct (p c) eqn:Hp; [|discriminate].
    exists s, caps. repeat split; auto using extends_refl.
    + now constructor.
    + intros i Hi; discriminate.
  - apply IH1 in H as (s1 & c1 & Hm1 & Hk1 & He1 & Hb1).
    apply IH2 in Hk1 as (s2 & c2 & Hm2 & Hk2 & He2 & Hb2).
    exists s2, c2. repeat split; eauto using extends_trans.
    + econstructor; eauto.
    + intros i Hi. simpl in Hi. apply orb_true_iff in Hi as [Hi|Hi].
      * apply He2, Hb1, Hi.
      * apply Hb2, Hi.
  - destruct (Re.bt r1 s caps k) as [y|] eqn:H1.
    + injection H as ->.
      apply IH1 in H1 as (s1 & c1 & Hm1 & Hk1 & He1 & Hb1).
      exists s1, c1. repeat split; auto.
      * now apply Re.M_AltL.
      * intros i Hi. simpl in Hi. apply andb_true_iff in Hi as [Hi _]. auto.
    + apply IH2 in H as (s1 & c1 & Hm1 & Hk1 & He1 & Hb1).
      exists s1, c1. repeat split; auto.
      * now apply Re.M_AltR.
      * intros i Hi. simpl in Hi. apply andb_true_iff in Hi as [_ Hi]. auto.
  - apply star_bt_sound in H as (s' & Hm & Hk).
    exists s', caps. repeat split; auto using extends_refl.
    intros i Hi; discriminate.
  - apply IH in H as (s1 & c1 & Hm1 & Hk1 & He1 & Hb1).
    exists s1, ((j, Re.consumed s s1) :: c1). repeat split; auto.
    + now constructor.
    + eapply extends_trans; [exact He1 | apply extends_cons].
    + intros i Hi. simpl in Hi. apply orb_true_iff in Hi as [Hi|Hi].
      * apply Nat.eqb_eq in Hi as ->. apply bound_cons.
      * apply extends_cons, Hb1, Hi.
  - destruct (Re.at_eol s) eqn:He; [|discriminate].
    exists s, caps. repeat split; auto using extends_refl.
    + now constructor.
    + intros i Hi; discriminate.
Qed.

(** Completeness: where there is a match that the continuation accepts,
    the matcher succeeds. *)
Lemma bt_complete {A} r s s' :
  Re.matches r s s' ->
  forall caps (k : list ascii -> Re.captures -> option A),
    (forall caps', k s' caps' <> None) -> Re.bt r s caps k <> None.
Proof.
  induction 1 as [s|p c s Hp|r1 r2 s1 s2 s3 _ IH1 _ IH2|r1 r2 s s' _ IH
                 |r1 r2 s s' _ IH|p s|p c s s' Hp _ IH|i r s s' _ IH|s He];
    intros caps k Hk; simpl.
  - apply Hk.
  - rewrite Hp. apply Hk.
  - apply IH1. intros caps'. apply IH2, Hk.
  - specialize (IH caps k Hk).
    destruct (Re.bt r1 s caps k); [discriminate | contradiction].
  - destruct (Re.bt r1 s caps k); [discriminate | apply IH, Hk].
  - apply star_bt_here, Hk.
  - rewrite Hp. specialize (IH caps k Hk). simpl in IH.
    destruct (Re.star_bt p s (fun s'0 => k s'0 caps)); [discriminate | contradiction].
  - apply IH. intros caps'. apply Hk.
  - rewrite He. apply Hk.
Qed.

Lemma match_here_none r pos s :
  Re.match_here r pos s = None <-> forall s', ~ Re.matches r s s'.
Proof.
  unfold Re.match_here. split.
  - intros H s' Hm. eapply bt_complete in Hm; [apply Hm, H|].
    intros caps'; discriminate.
  - intros H. destruct (Re.bt _ _ _ _) as [m|] eqn:Hb; [|reflexivity].
    apply bt_sound in Hb as (s' & _ & Hm & _). exfalso. eapply H, Hm.
Qed.

Lemma search_from_none r : forall s pos,
  Re.search_from r pos s = None <->
  forall pre suf rest, s = pre ++ suf -> ~ Re.matches r suf rest.
Proof.
  induction s as [|c s IH]; intros pos; simpl.
  - destruct (Re.match_here r pos []) eqn:Hh.
    + split; [discriminate|]. intros H. exfalso.
      unfold Re.match_here in Hh.
      apply bt_sound in Hh as (s' & _ & Hm & _).
      apply (H [] [] s'); [reflexivity | exact Hm].
    + split; [|reflexivity]. intros _ pre suf rest Heq.
      symmetry in Heq. apply app_eq_nil in Heq as [-> ->].
      apply match_here_none with (s' := rest) in Hh. exact Hh.
  - destruct (Re.match_here r pos (c :: s)) eqn:Hh.
    + split; [discriminate|]. intros H. exfalso.
      unfold Re.match_here in Hh.
      apply bt_sound in Hh as (s' & _ & Hm & _).
      apply (H [] (c :: s) s'); [reflexivity | exact Hm].
    + rewrite IH. split.
      * intros H pre suf rest Heq. destruct pre as [|c' pre].
        -- simpl in Heq. subst suf.
           apply match_here_none with (s' := rest) in Hh. exact Hh.
        -- simpl in Heq. injection Heq as -> ->. now apply (H pre suf rest).
      * intros H pre suf rest Heq. apply (H (c :: pre) suf rest).
        now rewrite Heq.
Qed.

(** [re.search] gives [None] exactly when the pattern occurs nowhere. *)
Lemma search_text_none r t :
  Re.search_text r t = None <-> ~ Re.occurs r t.
Proof.
  unfold Re.search_text, Re.occurs. rewrite search_from_none. split.
  - intros H (pre & suf & rest & Heq & Hm). exact (H pre suf rest Heq Hm).
  - intros H pre suf rest Heq Hm. apply H. now exists pre, suf, rest.
Qed.

(** A match object has every group its pattern always sets. *)
Lemma search_from_bound r i : forall s pos m,
  Re.search_from r pos s = Some m -> binds r i = true ->
  bound i (Re.m_groups m).
Proof.
  assert (Hh : forall s pos m, Re.match_here r pos s = Some m ->
                 binds r i = true -> bound i (Re.m_groups m)).
  { intros s pos m H Hb. unfold Re.match_here in H.
    apply bt_sound in H as (s' & caps' & _ & Hk & _ & Hbound).
    injection Hk as <-. simpl. auto. }
  induction s as [|c s IH]; intros pos m; simpl.
  - destruct (Re.match_here r pos []) eqn:E; [|discriminate].
    intros [= <-]. eauto.
  - destruct (Re.match_here r pos (c :: s)) eqn:E.
    + intros [= <-]. eauto.
    + apply IH.
Qed.

Lemma group_bound r i t m :
  Re.search_text r t = Some m -> binds r (S i) = true ->
  exists g, Re.group m (S i) = Some g.
Proof.
  intros H Hb. apply search_from_bound with (i := S i) in H; [|exact Hb].
  unfold bound in H. unfold Re.group.
  destruct (Re.lookup_group (S i) (Re.m_groups m)) as [g|]; [|contradiction].
  now exists (text g).
Qed.

(** ** The pattern extractors *)

Lemma absent_search r t :
  absent r (Some t) -> Re.search_text r t = None.
Proof. intros H. apply search_text_none. now apply H. Qed.

Lemma extract_price_spec text :
  exists v, extract_price text = Ok v /\ (absent re_price text -> v = None).
Proof.
  unfold extract_price. destruct text as [t|]; simpl.
  - destruct (String.eqb t ""); simpl; [now exists None|].
    destruct (Re.search_text re_price t) as [m|] eqn:Hs.
    + eexists. split; [reflexivity|].
      intros Ha. apply absent_search in Ha. congruence.
    + now exists None.
  - now exists None.
Qed.

Lemma extract_beds_baths_spec text :
  exists beds baths,
    extract_beds_baths text = Ok (beds, baths)
    /\ (absent re_beds text -> beds = None)
    /\ (absent re_baths text -> baths = None).
Proof.
  unfold extract_beds_baths. destruct text as [t|]; simpl.
  - destruct (String.eqb t ""); simpl; [now exists None, None|].
    do 2 eexists. split; [reflexivity|]. split; intros Ha;
      apply absent_search in Ha; now rewrite Ha.
  - now exists None, None.
Qed.

Lemma extract_sqft_spec text :
  exists v, extract_sqft text = Ok v
            /\ (absent re_sqft (option_map lower text) -> v = None).
Proof.
  unfold extract_sqft. destruct text as [t|]; [|now exists None].
  unfold truthy. destruct (String.eqb t ""); [now exists None|].
  cbn [negb deref rbind Re.search option_map].
  destruct (Re.search_text re_sqft (lower t)) as [m|] eqn:Hs.
  - destruct (group_bound re_sqft 0 _ _ Hs eq_refl) as [g Hg].
    rewrite Hg. cbn [deref rbind]. eexists. split; [reflexivity|].
    intros Ha. apply absent_search in Ha. congruence.
  - now exists None.
Qed.

(** C7. For every input text, [None] and the empty string included, each
    of [extract_price], [extract_beds_baths] and [extract_sqft] returns a
    value and raises nothing; when its pattern is absent from the text
    ([extract_sqft] looks in the lower-cased text) the value is [None],
    separately for each member of the pair of [extract_beds_baths]. *)
Theorem extractors_total (text : option string) :
  (exists v, extract_price text = Ok v /\ (absent re_price text -> v = None))
  /\ (exists beds baths,
        extract_beds_baths text = Ok (beds, baths)
        /\ (absent re_beds text -> beds = None)
        /\ (absent re_baths text -> baths = None))
  /\ (exists v, extract_sqft text = Ok v
                /\ (absent re_sqft (option_map lower text) -> v = None)).
Proof.
  split; [apply extract_price_spec|].
  split; [apply extract_beds_baths_spec | apply extract_sqft_spec].
Qed.

Lemma extractors_total_witness :
  absent re_price (Some "Call for pricing")
  /\ extract_price (Some "Call for pricing") = Ok None.
Proof.
  assert (Ha : absent re_price (Some "Call for pricing")).
  { intros t [= <-]. apply search_text_none. vm_compute. reflexivity. }
  split; [exact Ha|].
  destruct (extractors_total (Some "Call for pricing"))
    as ((v & Hrun & Hnone) & _).
  rewrite Hrun. f_equal. apply Hnone, Ha.
Defined.

(** The extractors on text that does hold the patterns. *)
Example extractors_on_samples :
  extract_price (Some "Starting at $450,000 today") = Ok (Some "$450,000")
  /\ extract_beds_baths (Some "3 Bedrooms, 2.5 Baths") = Ok (Some "3", Some "2.5")
  /\ extract_beds_baths (Some "4 BR only") = Ok (Some "4", None)
  /\ extract_sqft (Some "Approx 2,450 Sq Ft") = Ok (Some "2450")
  /\ extract_price None = Ok None
  /\ extract_beds_baths (Some "") = Ok (None, None)
  /\ extract_sqft None = Ok None.
Proof. vm_compute. repeat split. Qed.

(** ** Feature bucketing *)

Lemma count_features_from sections : forall n,
  fold_left (fun total_features section =>
               total_features + length (section_items section)) sections n
  = n + length (all_items sections).
Proof.
  induction sections as [|sec rest IH]; intros n; simpl.
  - lia.
  - rewrite IH. unfold all_items. simpl. rewrite length_app.
    fold (all_items rest). lia.
Qed.

Lemma count_features_length sections :
  count_features sections = length (all_items sections).
Proof. unfold count_features. now rewrite count_features_from. Qed.

Lemma add_sections_flat fps sections : forall b,
  fold_left (add_section fps) sections b
  = fold_left (add_feature fps) (all_items sections) b.
Proof.
  induction sections as [|sec rest IH]; intros b; simpl.
  - reflexivity.
  - rewrite IH. unfold all_items. simpl. rewrite fold_left_app. reflexivity.
Qed.

(** The running section index is a function of the running count. *)
Lemma index_of_step fps fc :
  (if (index_of fps fc + 1) * fps <=? fc + 1
   then Nat.min (index_of fps fc + 1) 3
   else index_of fps fc)
  = index_of fps (fc + 1).
Proof.
  unfold index_of. destruct (fps =? 0) eqn:Hz.
  - apply Nat.eqb_eq in Hz. subst fps. rewrite Nat.mul_0_r. simpl. lia.
  - apply Nat.eqb_neq in Hz.
    pose proof (Nat.div_mod fc fps Hz) as H1.
    pose proof (Nat.mod_upper_bound fc fps Hz) as H2.
    pose proof (Nat.div_mod (fc + 1) fps Hz) as H3.
    pose proof (Nat.mod_upper_bound (fc + 1) fps Hz) as H4.
    set (q := fc / fps) in *. set (r := fc mod fps) in *.
    set (q' := (fc + 1) / fps) in *. set (r' := (fc + 1) mod fps) in *.
    clearbody q r q' r'.
    assert (Hq : q' = q \/ q' = q + 1).
    { destruct (Nat.lt_trichotomy q' q) as [Hlt|[Heq|Hgt]].
      - assert (fps * (q' + 1) <= fps * q) by (apply Nat.mul_le_mono_l; lia).
        lia.
      - now left.
      - destruct (Nat.eq_dec q' (q + 1)) as [|Hne]; [now right|].
        assert (fps * (q + 2) <= fps * q') by (apply Nat.mul_le_mono_l; lia).
        lia. }
    assert (Hr : q' = q + 1 <-> (q + 1) * fps <= fc + 1).
    { split; intros H.
      - subst q'. lia.
      - destruct Hq as [->| ->]; [lia | reflexivity]. }
    destruct (Nat.le_gt_cases 3 q) as [Hq3|Hq3].
    + rewrite (Nat.min_r q 3) by lia. rewrite (Nat.min_r q' 3) by lia.
      destruct (_ <=? _); lia.
    + rewrite (Nat.min_l q 3) by lia.
      destruct (Nat.leb_spec ((q + 1) * fps) (fc + 1)) as [Hle|Hlt].
      * apply Hr in Hle. subst q'. reflexivity.
      * destruct Hq as [->| ->]; [lia|].
        exfalso. apply (Nat.lt_irrefl (fc + 1)).
        eapply Nat.lt_le_trans; [exact Hlt|]. apply Hr. reflexivity.
Qed.

Lemma add_feature_blank fps b li :
  nonblank li = false -> add_feature fps b li = b.
Proof. unfold nonblank, add_feature. now intros ->. Qed.

Lemma add_feature_nonblank fps b li :
  nonblank li = true ->
  current_section b = index_of fps (feature_count b) ->
  included (add_feature fps b li)
  = included b ++ [{| Feature.description := strip (text_of li);
                      Feature.section_index := current_section b |}]
  /\ feature_count (add_feature fps b li) = feature_count b + 1
  /\ current_section (add_feature fps b li)
     = index_of fps (feature_count b + 1).
Proof.
  unfold nonblank, add_feature. intros -> Hb.
  pose proof (index_of_step fps (feature_count b)) as Hstep.
  rewrite <- Hb in Hstep.
  destruct ((current_section b + 1) * fps <=? feature_count b + 1);
    simpl; auto.
Qed.

Lemma add_features_indexes fps items : forall b,
  current_section b = index_of fps (feature_count b) ->
  map Feature.section_index (included (fold_left (add_feature fps) items b))
  = map Feature.section_index (included b)
    ++ map (index_of fps)
           (seq (feature_count b) (length (List.filter nonblank items))).
Proof.
  induction items as [|li items IH]; intros b Hb; simpl.
  - now rewrite app_nil_r.
  - destruct (nonblank li) eqn:Hnb.
    + destruct (add_feature_nonblank fps b li Hnb Hb) as (H1 & H2 & H3).
      rewrite IH by (rewrite H2; exact H3).
      rewrite H1, H2, map_app. simpl.
      rewrite <- app_assoc. simpl. now rewrite Hb, Nat.add_1_r.
    + rewrite add_feature_blank by exact Hnb. now apply IH.
Qed.

(** The indexes a plan page gets, in closed form: the [j]-th emitted
    feature has index [index_of (total // 4) j]. *)
Lemma section_indexes_closed sections :
  section_indexes sections
  = map (index_of (per_section (count_features sections)))
        (seq 0 (length (List.filter nonblank (all_items sections)))).
Proof.
  unfold section_indexes, bucket_features. simpl.
  rewrite add_sections_flat.
  rewrite add_features_indexes; [reflexivity|].
  simpl. unfold index_of. destruct (_ =? 0); [reflexivity|].
  now rewrite Nat.Div0.div_0_l.
Qed.

Lemma index_of_le_3 fps j : index_of fps j <= 3.
Proof. unfold index_of. destruct (fps =? 0); apply Nat.le_min_r. Qed.

Lemma index_of_mono fps j j' : j <= j' -> index_of fps j <= index_of fps j'.
Proof.
  intros H. unfold index_of. destruct (fps =? 0).
  - apply Nat.min_le_compat_r, H.
  - apply Nat.min_le_compat_r, Nat.Div0.div_le_mono, H.
Qed.

(** On the [k]-th run of [fps] consecutive counts the index is [k]; from
    [3 * fps] on it stays 3. *)
Lemma index_of_run fps k j :
  0 < fps -> k * fps <= j < (k + 1) * fps -> index_of fps j = Nat.min k 3.
Proof.
  intros Hpos [Hlo Hhi]. unfold index_of.
  destruct (Nat.eqb_spec fps 0) as [->|_]; [lia|].
  f_equal. symmetry. apply Nat.div_unique with (r := j - k * fps); lia.
Qed.

Lemma index_of_tail fps j :
  0 < fps -> 3 * fps <= j -> index_of fps j = 3.
Proof.
  intros Hpos Hlo. unfold index_of.
  destruct (Nat.eqb_spec fps 0) as [->|_]; [lia|].
  apply Nat.min_r. apply Nat.div_le_lower_bound; lia.
Qed.

Lemma count_occ_map_const (f : nat -> nat) c k l :
  (forall j, In j l -> f j = c) ->
  count_occ Nat.eq_dec (map f l) k = if Nat.eq_dec c k then length l else 0.
Proof.
  induction l as [|x l IH]; intros H; simpl.
  - now destruct (Nat.eq_dec c k).
  - rewrite (H x) by now left. rewrite IH by (intros j Hj; apply H; now right).
    destruct (Nat.eq_dec c k); reflexivity.
Qed.

(** Sizes of the four buckets once every run of the first three is full. *)
Lemma bucket_sizes_closed fps m :
  0 < fps -> 3 * fps <= m ->
  let indexes := map (index_of fps) (seq 0 m) in
  bucket_size 0 indexes = fps /\ bucket_size 1 indexes = fps
  /\ bucket_size 2 indexes = fps /\ bucket_size 3 indexes = m - 3 * fps.
Proof.
  intros Hpos Hm. simpl.
  replace m with (fps + (fps + (fps + (m - 3 * fps)))) at 1 2 3 4 by lia.
  rewrite !seq_app, !map_app. unfold bucket_size. rewrite !count_occ_app.
  simpl (0 + fps).
  assert (R0 : forall j, In j (seq 0 fps) -> index_of fps j = 0).
  { intros j Hj%in_seq. rewrite (index_of_run fps 0); [reflexivity|lia|lia]. }
  assert (R1 : forall j, In j (seq fps fps) -> index_of fps j = 1).
  { intros j Hj%in_seq. rewrite (index_of_run fps 1); [reflexivity|lia|lia]. }
  assert (R2 : forall j, In j (seq (fps + fps) fps) -> index_of fps j = 2).
  { intros j Hj%in_seq. rewrite (index_of_run fps 2); [reflexivity|lia|lia]. }
  assert (R3 : forall j, In j (seq (fps + fps + fps) (m - 3 * fps)) ->
                         index_of fps j = 3).
  { intros j Hj%in_seq. apply index_of_tail; lia. }
  rewrite !(count_occ_map_const _ 0 _ _ R0), !(count_occ_map_const _ 1 _ _ R1),
    !(count_occ_map_const _ 2 _ _ R2), !(count_occ_map_const _ 3 _ _ R3).
  rewrite !length_seq. simpl. repeat split; lia.
Qed.

Lemma bucket_features_fst sections :
  fst (bucket_features sections) = per_section (count_features sections).
Proof. reflexivity. Qed.

Lemma per_section_div total : per_section total = total / 4.
Proof.
  unfold per_section. destruct total as [|n]; [reflexivity|].
  reflexivity.
Qed.

(** C3, as amended. A plan page with exactly ten feature items, none of
    them empty once stripped, gets [features_per_section = 2] and the
    section indexes 0,0,1,1,2,2,3,3,3,3 in page order. *)
Theorem ten_features_bucketing (feature_sections : list tag)
  (Hten : length (all_items feature_sections) = 10)
  (Hfull : forallb nonblank (all_items feature_sections) = true) :
  fst (bucket_features feature_sections) = 2
  /\ section_indexes feature_sections = [0; 0; 1; 1; 2; 2; 3; 3; 3; 3].
Proof.
  split.
  - now rewrite bucket_features_fst, count_features_length, Hten.
  - rewrite section_indexes_closed, count_features_length.
    rewrite forallb_filter_id by exact Hfull. now rewrite Hten.
Qed.

Lemma ten_features_bucketing_witness :
  length (all_items (Samples.sections_of Samples.ten_items)) = 10
  /\ forallb nonblank (all_items (Samples.sections_of Samples.ten_items)) = true
  /\ fst (bucket_features (Samples.sections_of Samples.ten_items)) = 2
  /\ section_indexes (Samples.sections_of Samples.ten_items)
     = [0; 0; 1; 1; 2; 2; 3; 3; 3; 3].
Proof.
  split; [reflexivity|]. split; [reflexivity|].
  apply (ten_features_bucketing (Samples.sections_of Samples.ten_items));
    reflexivity.
Defined.

(** C3 as stated fails: a page with exactly ten non-empty items and two
    empty ones counts twelve, so [features_per_section] is 3 and the
    indexes are 0,0,0,1,1,1,2,2,2,3. *)
Lemma ten_nonblank_among_twelve :
  length (List.filter nonblank
            (all_items (Samples.sections_of Samples.twelve_items))) = 10
  /\ fst (bucket_features (Samples.sections_of Samples.twelve_items)) = 3
  /\ fst (bucket_features (Samples.sections_of Samples.twelve_items)) <> 2
  /\ section_indexes (Samples.sections_of Samples.twelve_items)
     = [0; 0; 0; 1; 1; 1; 2; 2; 2; 3]
  /\ section_indexes (Samples.sections_of Samples.twelve_items)
     <> [0; 0; 1; 1; 2; 2; 3; 3; 3; 3].
Proof. vm_compute. repeat split; discriminate. Qed.

(** C4, as amended. For every plan page the section indexes lie in 0..3
    and never decrease in page order; when the page counts at least four
    items and at least [3 * (total // 4)] of them are non-empty (as when
    all are), each of the first three buckets holds exactly [total // 4]
    features and the last one holds all the others. *)
Theorem section_index_buckets (feature_sections : list tag) :
  let indexes := section_indexes feature_sections in
  let total_features := count_features feature_sections in
  Forall (fun i => i <= 3) indexes
  /\ (forall a b i j, a <= b -> nth_error indexes a = Some i ->
                      nth_error indexes b = Some j -> i <= j)
  /\ (4 <= total_features ->
      3 * (total_features / 4) <= length indexes ->
      bucket_size 0 indexes = total_features / 4
      /\ bucket_size 1 indexes = total_features / 4
      /\ bucket_size 2 indexes = total_features / 4
      /\ bucket_size 3 indexes = length indexes - 3 * (total_features / 4)).
Proof.
  simpl. rewrite section_indexes_closed, per_section_div.
  set (fps := count_features feature_sections / 4).
  set (m := length (List.filter nonblank (all_items feature_sections))).
  split; [|split].
  - apply List.Forall_forall. intros i Hi. apply in_map_iff in Hi as (j & <- & _).
    apply index_of_le_3.
  - intros a b i j Hab Ha Hb.
    rewrite nth_error_map, nth_error_seq in Ha, Hb.
    destruct (a <? m); [|discriminate]. destruct (b <? m); [|discriminate].
    simpl in Ha, Hb. injection Ha as <-. injection Hb as <-.
    apply index_of_mono, Hab.
  - rewrite length_map, length_seq. intros Htotal Hm.
    assert (Hpos : 0 < fps).
    { unfold fps. apply Nat.div_str_pos. lia. }
    apply (bucket_sizes_closed fps m Hpos Hm).
Qed.

Lemma section_index_buckets_witness :
  Forall (fun i => i <= 3) (section_indexes (Samples.sections_of Samples.ten_items))
  /\ bucket_size 0 (section_indexes (Samples.sections_of Samples.ten_items)) = 2
  /\ bucket_size 1 (section_indexes (Samples.sections_of Samples.ten_items)) = 2
  /\ bucket_size 2 (section_indexes (Samples.sections_of Samples.ten_items)) = 2
  /\ bucket_size 3 (section_indexes (Samples.sections_of Samples.ten_items)) = 4.
Proof.
  destruct (section_index_buckets (Samples.sections_of Samples.ten_items))
    as (Hrange & _ & Hsizes).
  split; [exact Hrange|].
  apply Hsizes; vm_compute; lia.
Defined.

(** C4 as stated fails below four items: three features get the indexes
    0,1,2, one in each of the first three buckets, where
    [total // 4] is 0. *)
Lemma three_features_one_per_bucket :
  count_features (Samples.sections_of Samples.three_items) = 3
  /\ section_indexes (Samples.sections_of Samples.three_items) = [0; 1; 2]
  /\ bucket_size 0 (section_indexes (Samples.sections_of Samples.three_items)) = 1
  /\ bucket_size 0 (section_indexes (Samples.sections_of Samples.three_items))
     <> count_features (Samples.sections_of Samples.three_items) / 4.
Proof. vm_compute. repeat split; discriminate. Qed.

(** ** The image fallback *)

Lemma available_images_spec data x :
  In x (available_images data) <-> child_image data x.
Proof.
  unfold available_images, child_image.
  rewrite in_app_iff, !in_flat_map. split.
  - intros [(plan & Hin & Hx)|(site & Hin & Hx)].
    + left. exists plan. split; [exact Hin|].
      destruct (HomePlan.image_url (HomePlan.dets plan)) as [u|]; [|contradiction].
      simpl in Hx. destruct (String.eqb_spec u ""); simpl in Hx; [contradiction|].
      destruct Hx as [->|[]]. now split.
    + right. exists site. split; [exact Hin|].
      apply in_app_iff in Hx as [Hx|Hx]; [left|now right].
      destruct (HomeSite.image_url site) as [u|]; [|contradiction].
      simpl in Hx. destruct (String.eqb_spec u ""); simpl in Hx; [contradiction|].
      destruct Hx as [->|[]]. now split.
  - intros [(plan & Hin & Hx & Hne)|(site & Hin & [(Hx & Hne)|Hx])].
    + left. exists plan. split; [exact Hin|]. rewrite Hx. simpl.
      destruct (String.eqb_spec x ""); [contradiction|]. now left.
    + right. exists site. split; [exact Hin|]. apply in_app_iff. left.
      rewrite Hx. simpl.
      destruct (String.eqb_spec x ""); [contradiction|]. now left.
    + right. exists site. split; [exact Hin|]. apply in_app_iff. now right.
Qed.

Lemma random_choice_in e seq w :
  seq <> [] ->
  exists x, random_choice e seq w
            = ({| fs := fs w; dirs := dirs w; events := events w; draws := S (draws w) |}, Ok x)
            /\ In x seq.
Proof.
  intros Hne. unfold random_choice.
  assert (Hlt : rand e (draws w) mod length seq < length seq).
  { apply Nat.mod_upper_bound. destruct seq; [contradiction|simpl; lia]. }
  destruct (nth_error seq (rand e (draws w) mod length seq)) as [x|] eqn:Hn.
  - exists x. split; [reflexivity|]. eapply nth_error_In, Hn.
  - apply nth_error_None in Hn. lia.
Qed.

Lemma image_fallback_spec e data w :
  Community.images data = [] ->
  exists w' data',
    image_fallback e data w = (w', Ok data')
    /\ ((exists x, child_image data x) ->
        exists x, Community.images data' = [x] /\ child_image data x)
    /\ ((forall x, ~ child_image data x) -> Community.images data' = []).
Proof.
  intros Hempty. unfold image_fallback. rewrite Hempty.
  destruct (available_images data) as [|a rest] eqn:Hav.
  - exists w, data. split; [reflexivity|]. split.
    + intros (x & Hx). apply available_images_spec in Hx.
      rewrite Hav in Hx. contradiction.
    + intros _. exact Hempty.
  - destruct (random_choice_in e (a :: rest) w) as (x & Hr & Hin);
      [discriminate|].
    unfold bind. rewrite Hr. eexists _, _. split; [reflexivity|]. split.
    + intros _. exists x. split; [reflexivity|].
      apply available_images_spec. now rewrite Hav.
    + intros Hnone. exfalso. apply (Hnone a), available_images_spec.
      rewrite Hav. now left.
Qed.

(** C5. When the top-level image list is still empty after assembly, the
    fallback leaves exactly one image, taken from the children's images
    (plans' primary images, home sites' primary and gallery images), if
    there is any, and leaves the list empty if there is none; with one
    plan image [A] and one home-site image [B] the list is [A] alone or
    [B] alone. *)
Theorem image_fallback_one (e : env) (w : world) :
  (forall data, Community.images data = [] ->
     exists w' data',
       image_fallback e data w = (w', Ok data')
       /\ ((exists x, child_image data x) ->
           exists x, Community.images data' = [x] /\ child_image data x)
       /\ ((forall x, ~ child_image data x) -> Community.images data' = []))
  /\ (exists w' data',
        image_fallback e Samples.community_A_B w = (w', Ok data')
        /\ (Community.images data' = ["A"] \/ Community.images data' = ["B"])).
Proof.
  split; [intros data; apply image_fallback_spec|].
  destruct (image_fallback_spec e Samples.community_A_B w eq_refl)
    as (w' & data' & Hrun & Hsome & _).
  exists w', data'. split; [exact Hrun|].
  destruct Hsome as (x & Hx & Hchild).
  { exists "A". left. exists Samples.plan_A. simpl.
    repeat split; try discriminate; auto. }
  rewrite Hx. apply available_images_spec in Hchild.
  simpl in Hchild. destruct Hchild as [<-|[<-|[]]]; auto.
Qed.

Lemma image_fallback_one_witness :
  Community.images Samples.community_A_B = []
  /\ (exists x, child_image Samples.community_A_B x)
  /\ exists w' data',
       image_fallback Samples.offline Samples.community_A_B Samples.empty_world
       = (w', Ok data')
       /\ exists x, Community.images data' = [x]
                    /\ child_image Samples.community_A_B x.
Proof.
  assert (Hchild : exists x, child_image Samples.community_A_B x).
  { exists "A". left. exists Samples.plan_A. simpl.
    repeat split; try discriminate; auto. }
  split; [reflexivity|]. split; [exact Hchild|].
  destruct (image_fallback_one Samples.offline Samples.empty_world)
    as (Hgen & _).
  destruct (Hgen Samples.community_A_B eq_refl) as (w' & data' & Hrun & Hsome & _).
  exists w', data'. split; [exact Hrun|]. apply Hsome, Hchild.
Defined.

(** ** URL normalisation *)

Lemma absolutize_relative s :
  s <> "" -> startswith "http" s = false ->
  absolutize (Some s) = Some (origin +:+ s).
Proof.
  intros Hne Hrel. unfold absolutize, truthy.
  destruct (String.eqb_spec s ""); [contradiction|]. now rewrite Hrel.
Qed.

Lemma absolutize_absolute s :
  startswith "http" s = true -> absolutize (Some s) = Some s.
Proof.
  intros Habs. unfold absolutize. rewrite Habs.
  now rewrite andb_false_r.
Qed.

(** The link loop of [get_city_links] records a new absolute link as it
    is, and a new relative link with the origin in front. *)
Lemma add_city_link_records city_links element href :
  get element "href" = Some href -> href <> "" ->
  let recorded := if startswith "http" href then href else origin +:+ href in
  existsb (String.eqb recorded) city_links = false ->
  add_city_link city_links element = city_links ++ [recorded].
Proof.
  intros Hget Hne. simpl. unfold add_city_link. rewrite Hget.
  unfold truthy. destruct (String.eqb_spec href ""); [contradiction|].
  simpl negb. cbv iota.
  destruct (startswith "http" href) eqn:Hp.
  - rewrite absolutize_absolute by exact Hp. now intros ->.
  - rewrite absolutize_relative by assumption. now intros ->.
Qed.

(** The first-image step never records an absolute source. *)
Lemma first_image_absolute_dropped soup data :
  (forall parent rest span s,
     find_all soup "li" (by_class "slick-slide orbit-slide") = parent :: rest ->
     find parent "span" [("data-lazy", Present)] = Some span ->
     or_else (get span "src") (get span "data-csrc") = Some s ->
     startswith "http" s = true) ->
  extract_first_image soup data = data.
Proof.
  intros H. unfold extract_first_image.
  destruct (find_all soup "li" _) as [|parent rest] eqn:Hs; [reflexivity|].
  destruct (find parent "span" _) as [span|] eqn:Hf; [|reflexivity].
  destruct (or_else _ _) as [s|] eqn:Ho; [|reflexivity].
  rewrite (H parent rest span s eq_refl Hf Ho). simpl.
  now destruct (negb _).
Qed.

(** C6, at the failing input: the same absolute URL that the city-link
    loop passes through is dropped by the first-image step of
    [fetch_page], which records only the relative one (with the origin in
    front); the gallery's plain-image branch drops an absolute source in
    the same way. *)
Theorem absolute_first_image_is_dropped :
  Community.images
    (extract_first_image (soup_of Samples.absolute_slide_page)
       (Community.initial "" "")) = []
  /\ Community.images
       (extract_first_image (soup_of Samples.relative_slide_page)
          (Community.initial "" ""))
     = ["https://www.meritagehomes.com/images/hero.jpg"]
  /\ city_links_of (soup_of Samples.city_page)
     = ["https://www.meritagehomes.com/state/tx/austin";
        "https://www.meritagehomes.com/state/az/phoenix"]
  /\ HomeSite.images
       (snd (fst (for_each
                    (find_all (soup_of Samples.absolute_gallery_page) "li"
                              (by_class "slick-slide orbit-slide"))
                    gallery_slide
                    (Samples.empty_world, Samples.site_B)))) = [].
Proof. vm_compute. repeat split. Qed.

(** The link of a card heading is prefixed without a test: an absolute
    [href] comes out with the origin written twice. *)
Example heading_url_prefixes_always :
  heading_url (Some (soup_of Samples.absolute_heading))
  = Ok (Some "https://www.meritagehomes.comhttps://www.meritagehomes.com/home/12-main-st").
Proof. vm_compute. reflexivity. Qed.

(** ** Reasoning about runs *)

Lemma bind_ok {S A B} (m : M S A) (k : A -> M S B) s s' b :
  bind m k s = (s', Ok b) ->
  exists s1 a, m s = (s1, Ok a) /\ k a s1 = (s', Ok b).
Proof.
  unfold bind. destruct (m s) as [s1 [a|ex]]; intros H.
  - now exists s1, a.
  - discriminate.
Qed.

Lemma bind_raise {S A B} (m : M S A) (k : A -> M S B) s s' ex :
  bind m k s = (s', Raise ex) ->
  m s = (s', Raise ex)
  \/ exists s1 a, m s = (s1, Ok a) /\ k a s1 = (s', Raise ex).
Proof.
  unfold bind. destruct (m s) as [s1 [a|ex1]]; intros H.
  - right. now exists s1, a.
  - left. now injection H as -> ->.
Qed.

Section Keeps.
Context {S : Type} (R : S -> S -> Prop).
Hypothesis R_refl : forall s, R s s.
Hypothesis R_trans : forall s1 s2 s3, R s1 s2 -> R s2 s3 -> R s1 s3.

Lemma keeps_ret {A} (a : A) : keeps R (ret a).
Proof. intros s s' r [= <- _]. apply R_refl. Qed.

Lemma keeps_lift {A} (x : result A) : keeps R (lift x).
Proof. intros s s' r [= <- _]. apply R_refl. Qed.

Lemma keeps_bind {A B} (m : M S A) (k : A -> M S B) :
  keeps R m -> (forall a, keeps R (k a)) -> keeps R (bind m k).
Proof.
  intros Hm Hk s s' r. unfold bind.
  destruct (m s) as [s1 [a|ex]] eqn:E; intros H.
  - eapply R_trans; [eapply Hm, E | eapply Hk, H].
  - injection H as <- _. eapply Hm, E.
Qed.

Lemma keeps_for_each {X} (l : list X) (body : X -> M S unit) :
  (forall x, keeps R (body x)) -> keeps R (for_each l body).
Proof.
  intros Hb. induction l as [|x l IH]; simpl.
  - apply keeps_ret.
  - apply keeps_bind; [apply Hb | intros _; exact IH].
Qed.

Lemma keeps_try_except {A} (body : M S A) (handler : exn -> M S A) :
  keeps R body -> (forall ex, keeps R (handler ex)) ->
  keeps R (try_except body handler).
Proof.
  intros Hb Hh s s' r. unfold try_except.
  destruct (body s) as [s1 [a|ex]] eqn:E; intros H.
  - injection H as <- _. eapply Hb, E.
  - eapply R_trans; [eapply Hb, E | eapply Hh, H].
Qed.

Lemma keeps_try_except_ValueError {A} (body handler : M S A) :
  keeps R body -> keeps R handler ->
  keeps R (try_except_ValueError body handler).
Proof.
  intros Hb Hh s s' r. unfold try_except_ValueError.
  destruct (body s) as [s1 [a|ex]] eqn:E.
  - intros [= <- _]. eapply Hb, E.
  - destruct ex; try (intros [= <- _]; eapply Hb, E).
    intros H. eapply R_trans; [eapply Hb, E | eapply Hh, H].
Qed.
End Keeps.

Section Local.
Context {L : Type} (Q : L -> L -> Prop).
Hypothesis Q_refl : forall l, Q l l.

Lemma keeps_outside {A} (m : M world A) :
  keeps (on_local Q) (outside (L := L) m).
Proof.
  intros [w l] s' r. unfold outside. simpl.
  destruct (m w) as [w' x]. intros [= <- _]. apply Q_refl.
Qed.

Lemma keeps_update (f : L -> L) :
  (forall l, Q l (f l)) -> keeps (on_local Q) (update f).
Proof. intros Hf [w l] s' r [= <- _]. apply Hf. Qed.
End Local.

Lemma never_raises_ret {S A} (a : A) : never_raises (ret (S := S) a).
Proof. intros s. now exists s, a. Qed.

Lemma never_raises_bind {S A B} (m : M S A) (k : A -> M S B) :
  never_raises m -> (forall a, never_raises (k a)) -> never_raises (bind m k).
Proof.
  intros Hm Hk s. destruct (Hm s) as (s1 & a & E).
  destruct (Hk a s1) as (s2 & b & E2).
  exists s2, b. unfold bind. now rewrite E.
Qed.

Lemma never_raises_for_each {S X} (l : list X) (body : X -> M S unit) :
  (forall x, never_raises (body x)) -> never_raises (for_each l body).
Proof.
  intros Hb. induction l as [|x l IH]; simpl.
  - apply never_raises_ret.
  - apply never_raises_bind; [apply Hb | intros _; exact IH].
Qed.

Lemma never_raises_outside {L A} (m : M world A) :
  never_raises m -> never_raises (outside (L := L) m).
Proof.
  intros Hm [w l]. destruct (Hm w) as (w' & a & E).
  exists (w', l), a. unfold outside. simpl. now rewrite E.
Qed.

Lemma never_raises_update {L} (f : L -> L) : never_raises (update f).
Proof. intros s. now eexists _, _. Qed.

Lemma ends_in_bind {S A B} (Q : S -> Prop) (m : M S A) (k : A -> M S B) :
  (forall a, ends_in Q (k a)) -> ends_in Q (bind m k).
Proof.
  intros Hk s s' b H. apply bind_ok in H as (s1 & a & _ & H).
  eapply Hk, H.
Qed.

(** ** Removing the snapshot *)

(** [if os.path.exists(f): os.remove(f)] fails in one case only: the file
    is there and cannot be removed; the world is then as it was. In every
    other case the file is gone afterwards. *)
Lemma remove_if_exists_cases e path w :
  (protected e path = true /\ path_exists path w = true
   /\ remove_if_exists e path w = (w, Raise OSError))
  \/ ((protected e path = false \/ path_exists path w = false)
      /\ exists w', remove_if_exists e path w = (w', Ok tt)
                    /\ no_file path w').
Proof.
  unfold remove_if_exists, bind, os_path_exists, os_remove, no_file.
  destruct (path_exists path w) eqn:E.
  - rewrite E. destruct (protected e path) eqn:Hp.
    + left. repeat split.
    + right. split; [now left|]. eexists. split; [reflexivity|].
      unfold path_exists, log, with_fs. simpl. now rewrite lookup_delete_eq.
  - right. split; [now right|]. exists w. split; [reflexivity | exact E].
Qed.

Lemma remove_if_exists_ok e path w w' :
  remove_if_exists e path w = (w', Ok tt) -> no_file path w'.
Proof.
  destruct (remove_if_exists_cases e path w)
    as [(_ & _ & E)|(_ & w1 & E & Hno)]; rewrite E.
  - discriminate.
  - now intros [= <-].
Qed.

Lemma remove_if_exists_raise e path w w' ex :
  remove_if_exists e path w = (w', Raise ex) ->
  w' = w /\ ex = OSError /\ protected e path = true
  /\ path_exists path w = true.
Proof.
  destruct (remove_if_exists_cases e path w)
    as [(Hp & Hex & E)|(_ & w1 & E & _)]; rewrite E.
  - now intros [= <- <-].
  - discriminate.
Qed.

Lemma ends_in_remove {L} e path :
  ends_in (fun s : world * L => no_file path (fst s))
          (outside (remove_if_exists e path)).
Proof.
  intros [w l] s' a. unfold outside. simpl.
  destruct (remove_if_exists e path w) as [w' [[]|ex]] eqn:E;
    [|discriminate].
  intros [= <-]. simpl. eapply remove_if_exists_ok, E.
Qed.

Lemma homesite_detail_cleans e output_dir url :
  ends_in (fun s => no_file (homesite_html_file output_dir url) (fst s))
          (homesite_detail e output_dir url).
Proof.
  unfold homesite_detail.
  repeat (apply ends_in_bind; intros).
  apply ends_in_remove.
Qed.

Lemma homeplan_detail_cleans e output_dir url :
  ends_in (fun s => no_file (homeplan_html_file output_dir url) (fst s))
          (homeplan_detail e output_dir url).
Proof.
  unfold homeplan_detail.
  repeat (apply ends_in_bind; intros).
  apply ends_in_remove.
Qed.

(** A guarded block whose body, when it succeeds, has removed the file.
    If the block returns, no file is left under [path] and the object is
    as the body left it. The block raises in one case only: the file is
    there and the [os.remove] of the handler is refused. *)
Lemma guarded_block {L} e (body : M (world * L) unit) path obj w w' r :
  ends_in (fun s => no_file path (fst s)) body ->
  on_object obj
    (try_except body (fun _ => outside (remove_if_exists e path))) w
  = (w', r) ->
  match r with
  | Ok obj' =>
      no_file path w'
      /\ (forall s1 ex, body (w, obj) = (s1, Raise ex) ->
            obj' = snd s1 /\ w' = fst s1
            \/ obj' = snd s1 /\ protected e path = false)
      /\ (forall s1 ex, body (w, obj) = (s1, Raise ex) -> obj' = snd s1)
      /\ (forall s1, body (w, obj) = (s1, Ok tt) -> obj' = snd s1)
  | Raise ex =>
      ex = OSError /\ protected e path = true /\ path_exists path w' = true
      /\ exists s1 ex1, body (w, obj) = (s1, Raise ex1) /\ w' = fst s1
  end.
Proof.
  intros Hend. unfold on_object, try_except.
  destruct (body (w, obj)) as [[w1 obj1] [[]|ex]] eqn:E.
  - intros [= <- <-]. split; [apply (Hend _ _ _ E)|].
    split; [intros s1 ex [=]|]. split; [intros s1 ex [=]|].
    now intros s1 [= <-].
  - unfold outside. simpl.
    destruct (remove_if_exists e path w1) as [w2 [[]|ex2]] eqn:E2.
    + intros [= <- <-]. split; [eapply remove_if_exists_ok, E2|].
      split; [|split; [now intros s1 ex' [= <- _] | intros s1 [=]]].
      intros s1 ex' [= <- _].
      destruct (remove_if_exists_cases e path w1)
        as [(_ & _ & E3)|([Hp|Hex] & w3 & E3 & _)].
      * rewrite E3 in E2. discriminate.
      * right. now split.
      * left. split; [reflexivity|]. simpl.
        unfold remove_if_exists, bind, os_path_exists in E2.
        rewrite Hex in E2. now injection E2 as <-.
    + intros [= <- <-].
      apply remove_if_exists_raise in E2 as (-> & -> & Hp & Hex).
      repeat split; auto. now exists (w1, obj1), ex.
Qed.

Lemma guarded_block_finishes {L} e (body : M (world * L) unit) path obj w :
  protected e path = false ->
  exists w' obj',
    on_object obj
      (try_except body (fun _ => outside (remove_if_exists e path))) w
    = (w', Ok obj').
Proof.
  intros Hp. unfold on_object, try_except.
  destruct (body (w, obj)) as [[w1 obj1] [[]|ex]] eqn:E.
  - now exists w1, obj1.
  - unfold outside. simpl.
    destruct (remove_if_exists_cases e path w1)
      as [(Hp' & _)|(_ & w2 & E2 & _)]; [congruence|].
    rewrite E2. now exists w2, obj1.
Qed.

(** ** What the enrichment blocks keep and what they cannot raise *)

Lemma truthy_some s : s <> "" -> truthy (Some s) = true.
Proof. intros H. unfold truthy. now destruct (String.eqb_spec s ""). Qed.

Lemma never_raises_homesite_coordinates content_section :
  never_raises (homesite_coordinates content_section).
Proof.
  unfold homesite_coordinates.
  repeat match goal with
         | |- never_raises (match ?x with _ => _ end) => destruct x
         end;
    try apply never_raises_ret; apply never_raises_update.
Qed.

Lemma never_raises_homesite_overview content_section :
  never_raises (homesite_overview content_section).
Proof.
  unfold homesite_overview. destruct (first_overview _);
    [apply never_raises_update | apply never_raises_ret].
Qed.

Lemma never_raises_gallery_slide slide : never_raises (gallery_slide slide).
Proof.
  unfold gallery_slide.
  repeat match goal with
         | |- never_raises (match ?x with _ => _ end) => destruct x
         | |- never_raises (if ?x then _ else _) => destruct x
         end;
    try apply never_raises_ret; apply never_raises_update.
Qed.

Lemma never_raises_sleep n : never_raises (sleep n).
Proof. intros w. now eexists _, _. Qed.

Lemma outside_local {L A} (m : M world A) (s s' : world * L) r :
  outside m s = (s', r) -> snd s' = snd s.
Proof.
  destruct s as [w l]. unfold outside. simpl.
  destruct (m w) as [w' x]. now intros [= <- _].
Qed.

Lemma never_raises_not {S A} (m : M S A) s s' ex :
  never_raises m -> m s = (s', Raise ex) -> False.
Proof. intros Hn E. destruct (Hn s) as (s1 & a & E1). congruence. Qed.

(** A home site's block raises either before anything was stored in the
    record (the page does not load, the snapshot cannot be written) or in
    its last step, when the snapshot is there and cannot be removed. *)
Lemma homesite_detail_raises e output_dir url s s1 ex :
  homesite_detail e output_dir url s = (s1, Raise ex) ->
  snd s1 = snd s
  \/ (ex = OSError
      /\ protected e (homesite_html_file output_dir url) = true
      /\ path_exists (homesite_html_file output_dir url) (fst s1) = true).
Proof.
  unfold homesite_detail. cbv zeta. intros H.
  apply bind_raise in H as [H|(s2 & p & Hget & H)];
    [left; eapply outside_local, H|].
  apply outside_local in Hget.
  apply bind_raise in H as [H|(s3 & [] & Hsleep & H)].
  { exfalso. eapply never_raises_not; [|exact H].
    apply never_raises_outside, never_raises_sleep. }
  apply outside_local in Hsleep.
  apply bind_raise in H as [H|(s4 & [] & Hwrite & H)];
    [left; apply outside_local in H; congruence|].
  apply bind_raise in H as [H|(s5 & [] & _ & H)].
  { exfalso. eapply never_raises_not; [|exact H].
    destruct (find _ _ _); [|apply never_raises_ret].
    apply never_raises_bind;
      [apply never_raises_homesite_coordinates | intros _].
    apply never_raises_homesite_overview. }
  apply bind_raise in H as [H|(s6 & [] & _ & H)].
  { exfalso. eapply never_raises_not; [|exact H].
    apply never_raises_for_each, never_raises_gallery_slide. }
  right. destruct s6 as [w6 l6]. unfold outside in H. simpl in H.
  destruct (remove_if_exists e _ w6) as [w7 [[]|ex7]] eqn:E;
    [discriminate|].
  injection H as <- <-.
  apply remove_if_exists_raise in E as (-> & -> & Hp & Hex). now simpl.
Qed.

Lemma same_site_base_refl h : same_site_base h h.
Proof. reflexivity. Qed.

Lemma same_site_base_trans h1 h2 h3 :
  same_site_base h1 h2 -> same_site_base h2 h3 -> same_site_base h1 h3.
Proof. unfold same_site_base. congruence. Qed.

Lemma same_plan_base_refl h : same_plan_base h h.
Proof. reflexivity. Qed.

Lemma same_plan_base_trans h1 h2 h3 :
  same_plan_base h1 h2 -> same_plan_base h2 h3 -> same_plan_base h1 h3.
Proof. unfold same_plan_base. congruence. Qed.

(** One step of a block that keeps [Q] on the local object. *)
Ltac keeps_step Q_refl Q_trans :=
  first
    [ apply keeps_outside; exact Q_refl
    | apply keeps_update; intros ?; reflexivity
    | apply keeps_ret; intros ?; apply Q_refl
    | apply keeps_lift; intros ?; apply Q_refl
    | apply keeps_bind;
      [ intros ? ? ? ? ?; eapply Q_trans; eassumption | | intros ? ]
    | apply keeps_for_each;
      [ intros ?; apply Q_refl
      | intros ? ? ? ? ?; eapply Q_trans; eassumption | intros ? ]
    | apply keeps_try_except_ValueError;
      [ intros ? ? ? ? ?; eapply Q_trans; eassumption | | ]
    | match goal with
      | |- keeps _ (match ?x with _ => _ end) => destruct x
      | |- keeps _ (if ?x then _ else _) => destruct x
      end ].

Lemma homesite_detail_keeps e output_dir url :
  keeps (on_local same_site_base) (homesite_detail e output_dir url).
Proof.
  unfold homesite_detail, homesite_coordinates, homesite_overview.
  repeat keeps_step same_site_base_refl same_site_base_trans.
  all: unfold gallery_slide;
    repeat keeps_step same_site_base_refl same_site_base_trans.
Qed.

Lemma stories_loop_keeps plan_soup cols :
  keeps (on_local same_plan_base) (stories_loop plan_soup cols).
Proof.
  induction cols as [|col rest IH]; simpl.
  - apply keeps_ret. intros ?; apply same_plan_base_refl.
  - repeat first
      [ exact IH
      | progress unfold floorplan_entry
      | keeps_step same_plan_base_refl same_plan_base_trans ].
Qed.

Lemma homeplan_detail_keeps e output_dir url :
  keeps (on_local same_plan_base) (homeplan_detail e output_dir url).
Proof.
  unfold homeplan_detail.
  repeat first
    [ apply stories_loop_keeps
    | keeps_step same_plan_base_refl same_plan_base_trans ].
Qed.

(** ** The enrichment blocks *)

Lemma enrich_homesite_spec e output_dir homesite w w' r :
  enrich_homesite e output_dir homesite w = (w', r) ->
  match r with
  | Ok homesite' =>
      same_site_base homesite homesite'
      /\ (forall url, HomeSite.url homesite = Some url -> url <> "" ->
            no_file (homesite_html_file output_dir url) w'
            /\ (forall s1 ex,
                  homesite_detail e output_dir url (w, homesite)
                  = (s1, Raise ex) ->
                  homesite' = homesite))
  | Raise ex =>
      ex = OSError
      /\ exists url,
           HomeSite.url homesite = Some url /\ url <> ""
           /\ protected e (homesite_html_file output_dir url) = true
           /\ path_exists (homesite_html_file output_dir url) w' = true
  end.
Proof.
  unfold enrich_homesite.
  destruct (HomeSite.url homesite) as [url|] eqn:Hurl.
  - unfold truthy. destruct (String.eqb_spec url "") as [->|Hne]; simpl.
    + intros [= <- <-]. split; [reflexivity|]. intros url [= <-].
      contradiction.
    + intros Hrun.
      pose proof (guarded_block e (homesite_detail e output_dir url)
                    (homesite_html_file output_dir url) homesite w w' r
                    (homesite_detail_cleans e output_dir url) Hrun) as Hg.
      destruct r as [h'|ex].
      * destruct Hg as (Hno & Hcase & Hraise & Hok). split.
        -- destruct (homesite_detail e output_dir url (w, homesite))
             as [s1 [[]|ex]] eqn:E.
           ++ rewrite (Hok s1 eq_refl).
              apply (homesite_detail_keeps e output_dir url _ _ _ E).
           ++ rewrite (Hraise s1 ex eq_refl).
              apply (homesite_detail_keeps e output_dir url _ _ _ E).
        -- intros url' [= <-] _. split; [exact Hno|].
           intros s1 ex E. rewrite (Hraise s1 ex E).
           destruct (homesite_detail_raises _ _ _ _ _ _ E)
             as [Hsame|(_ & Hp & Hex)]; [exact Hsame|].
           exfalso. destruct (Hcase s1 ex E) as [[_ Hw]|[_ Hp']].
           ++ subst w'. unfold no_file in Hno. congruence.
           ++ congruence.
      * destruct Hg as (-> & Hp & Hex & _). split; [reflexivity|].
        now exists url.
  - intros [= <- <-]. split; [reflexivity|]. intros url [=].
Qed.

Lemma enrich_homeplan_spec e output_dir homeplan w w' r :
  enrich_homeplan e output_dir homeplan w = (w', r) ->
  match r with
  | Ok homeplan' =>
      same_plan_base homeplan homeplan'
      /\ (forall url, HomePlan.url homeplan = Some url -> url <> "" ->
            no_file (homeplan_html_file output_dir url) w'
            /\ (forall s1 ex,
                  homeplan_detail e output_dir url (w, homeplan)
                  = (s1, Raise ex) ->
                  homeplan' = snd s1))
  | Raise ex =>
      ex = OSError
      /\ exists url,
           HomePlan.url homeplan = Some url /\ url <> ""
           /\ protected e (homeplan_html_file output_dir url) = true
           /\ path_exists (homeplan_html_file output_dir url) w' = true
  end.
Proof.
  unfold enrich_homeplan.
  destruct (HomePlan.url homeplan) as [url|] eqn:Hurl.
  - unfold truthy. destruct (String.eqb_spec url "") as [->|Hne]; simpl.
    + intros [= <- <-]. split; [reflexivity|]. intros url [= <-].
      contradiction.
    + intros Hrun.
      pose proof (guarded_block e (homeplan_detail e output_dir url)
                    (homeplan_html_file output_dir url) homeplan w w' r
                    (homeplan_detail_cleans e output_dir url) Hrun) as Hg.
      destruct r as [h'|ex].
      * destruct Hg as (Hno & _ & Hraise & Hok). split.
        -- destruct (homeplan_detail e output_dir url (w, homeplan))
             as [s1 [[]|ex]] eqn:E.
           ++ rewrite (Hok s1 eq_refl).
              apply (homeplan_detail_keeps e output_dir url _ _ _ E).
           ++ rewrite (Hraise s1 ex eq_refl).
              apply (homeplan_detail_keeps e output_dir url _ _ _ E).
        -- intros url' [= <-] _. split; [exact Hno|].
           intros s1 ex E. apply (Hraise s1 ex E).
      * destruct Hg as (-> & Hp & Hex & _). split; [reflexivity|].
        now exists url.
  - intros [= <- <-]. split; [reflexivity|]. intros url [=].
Qed.

Lemma enrich_homesite_base e output_dir homesite w w' homesite' :
  enrich_homesite e output_dir homesite w = (w', Ok homesite') ->
  same_site_base homesite homesite'.
Proof. intros H. now apply enrich_homesite_spec in H as [H _]. Qed.

Lemma enrich_homeplan_base e output_dir homeplan w w' homeplan' :
  enrich_homeplan e output_dir homeplan w = (w', Ok homeplan') ->
  same_plan_base homeplan homeplan'.
Proof. intros H. now apply enrich_homeplan_spec in H as [H _]. Qed.

(** The blocks finish whenever the snapshot may be removed. *)
Lemma enrich_homesite_finishes e output_dir homesite w :
  (forall url, HomeSite.url homesite = Some url ->
               protected e (homesite_html_file output_dir url) = false) ->
  exists w' homesite',
    enrich_homesite e output_dir homesite w = (w', Ok homesite').
Proof.
  intros Hp. destruct (enrich_homesite e output_dir homesite w)
    as [w' [h'|ex]] eqn:Hrun; [now exists w', h'|].
  apply enrich_homesite_spec in Hrun as (_ & url & Hurl & _ & Hp' & _).
  rewrite (Hp url Hurl) in Hp'. discriminate.
Qed.

Lemma enrich_homeplan_finishes e output_dir homeplan w :
  (forall url, HomePlan.url homeplan = Some url ->
               protected e (homeplan_html_file output_dir url) = false) ->
  exists w' homeplan',
    enrich_homeplan e output_dir homeplan w = (w', Ok homeplan').
Proof.
  intros Hp. destruct (enrich_homeplan e output_dir homeplan w)
    as [w' [h'|ex]] eqn:Hrun; [now exists w', h'|].
  apply enrich_homeplan_spec in Hrun as (_ & url & Hurl & _ & Hp' & _).
  rewrite (Hp url Hurl) in Hp'. discriminate.
Qed.

(** C8. Whatever the page load and the extraction did, when a home
    site's or a home plan's enrichment block has finished no file is
    stored under the name of that child's temporary snapshot; and the
    block does finish whenever the snapshot may be removed. *)
Theorem snapshot_removed (e : env) (output_dir : string) (w : world) :
  (forall homesite url w' homesite',
     HomeSite.url homesite = Some url -> url <> "" ->
     enrich_homesite e output_dir homesite w = (w', Ok homesite') ->
     path_exists (homesite_html_file output_dir url) w' = false)
  /\ (forall homesite url,
        HomeSite.url homesite = Some url -> url <> "" ->
        protected e (homesite_html_file output_dir url) = false ->
        exists w' homesite',
          enrich_homesite e output_dir homesite w = (w', Ok homesite')
          /\ path_exists (homesite_html_file output_dir url) w' = false)
  /\ (forall homeplan url w' homeplan',
        HomePlan.url homeplan = Some url -> url <> "" ->
        enrich_homeplan e output_dir homeplan w = (w', Ok homeplan') ->
        path_exists (homeplan_html_file output_dir url) w' = false)
  /\ (forall homeplan url,
        HomePlan.url homeplan = Some url -> url <> "" ->
        protected e (homeplan_html_file output_dir url) = false ->
        exists w' homeplan',
          enrich_homeplan e output_dir homeplan w = (w', Ok homeplan')
          /\ path_exists (homeplan_html_file output_dir url) w' = false).
Proof.
  assert (Hsite : forall homesite url w' homesite',
             HomeSite.url homesite = Some url -> url <> "" ->
             enrich_homesite e output_dir homesite w = (w', Ok homesite') ->
             path_exists (homesite_html_file output_dir url) w' = false).
  { intros homesite url w' h' Hurl Hne Hrun.
    apply enrich_homesite_spec in Hrun as (_ & Hclean).
    apply (Hclean url Hurl Hne). }
  assert (Hplan : forall homeplan url w' homeplan',
             HomePlan.url homeplan = Some url -> url <> "" ->
             enrich_homeplan e output_dir homeplan w = (w', Ok homeplan') ->
             path_exists (homeplan_html_file output_dir url) w' = false).
  { intros homeplan url w' h' Hurl Hne Hrun.
    apply enrich_homeplan_spec in Hrun as (_ & Hclean).
    apply (Hclean url Hurl Hne). }
  split; [exact Hsite|]. split; [|split; [exact Hplan|]].
  - intros homesite url Hurl Hne Hp.
    destruct (enrich_homesite_finishes e output_dir homesite w)
      as (w' & h' & Hrun).
    { intros url' Hurl'. congruence. }
    exists w', h'. split; [exact Hrun|]. eapply Hsite; eauto.
  - intros homeplan url Hurl Hne Hp.
    destruct (enrich_homeplan_finishes e output_dir homeplan w)
      as (w' & h' & Hrun).
    { intros url' Hurl'. congruence. }
    exists w', h'. split; [exact Hrun|]. eapply Hplan; eauto.
Qed.

(** The statement at work: a home site whose page loads and is read in
    full, and a home plan whose page makes the extraction raise. *)
Lemma snapshot_removed_witness :
  (exists w' homesite',
     enrich_homesite Samples.online "out" Samples.site_with_url
                     Samples.out_world = (w', Ok homesite')
     /\ path_exists (homesite_html_file "out" Samples.site_url) w' = false)
  /\ (exists w' homeplan',
        enrich_homeplan Samples.online "out" Samples.plan_with_url
                        Samples.out_world = (w', Ok homeplan')
        /\ path_exists (homeplan_html_file "out" Samples.plan_url) w' = false).
Proof.
  destruct (snapshot_removed Samples.online "out" Samples.out_world)
    as (_ & Hsite & _ & Hplan).
  split.
  - apply (Hsite Samples.site_with_url Samples.site_url);
      [reflexivity | discriminate | reflexivity].
  - apply (Hplan Samples.plan_with_url Samples.plan_url);
      [reflexivity | discriminate | reflexivity].
Defined.

(** The two samples do take the two paths: the home site's block succeeds
    after writing and removing its snapshot, the home plan's body raises
    AttributeError after its snapshot was written. Without the [html]
    directory the snapshot cannot be written and nothing is read. *)
Example sample_paths :
  snd (homesite_detail Samples.online "out" Samples.site_url
         (Samples.out_world, Samples.site_with_url)) = Ok tt
  /\ events (fst (enrich_homesite Samples.online "out" Samples.site_with_url
                    Samples.out_world))
     = [RemoveFile "out/html/meritage_homesite_12-main-st.html";
        WriteFile "out/html/meritage_homesite_12-main-st.html";
        Sleep 3; DriverGet Samples.site_url]
  /\ snd (homeplan_detail Samples.online "out" Samples.plan_url
            (Samples.out_world, Samples.plan_with_url))
     = Raise AttributeError
  /\ events (fst (enrich_homeplan Samples.online "out" Samples.plan_with_url
                    Samples.out_world))
     = [RemoveFile "out/html/meritage_aspen.html";
        WriteFile "out/html/meritage_aspen.html";
        Sleep 3; DriverGet Samples.plan_url]
  /\ snd (homesite_detail Samples.online "out" Samples.site_url
            (Samples.empty_world, Samples.site_with_url))
     = Raise FileNotFoundError.
Proof. vm_compute. repeat split. Qed.

(** ** Failure containment *)



Lemma homeplan_image_url plan homeplan0 homeplan :
  homeplan_image plan homeplan0 = Ok homeplan ->
  HomePlan.url homeplan = HomePlan.url homeplan0.
Proof.
  unfold homeplan_image.
  destruct (find plan "div" _) as [img_container|]; [|now intros [= <-]].
  destruct (find img_container "script" _) as [lazy_script|].
  - destruct (Re.search _ _) as [[m|]|ex]; simpl;
      try discriminate; now intros [= <-].
  - destruct (find img_container "img" _); now intros [= <-].
Qed.



(** It fails in its last part as well. The handler removes the snapshot
    with an unguarded [os.remove]: when the snapshot is there and cannot
    be removed, the OSError leaves the block, no record is appended for
    the card, and [fetch_page] gives no record for the community. *)
Example handler_remove_failure_escapes :
  snd (homeplan_detail Samples.locked "out" Samples.plan_url
         (Samples.out_world, Samples.plan_with_url))
  = Raise AttributeError
  /\ snd (enrich_homeplan Samples.locked "out" Samples.plan_with_url
            Samples.out_world) = Raise OSError
  /\ snd (process_plans Samples.locked "out"
            [soup_of Samples.aspen_card; soup_of Samples.aspen_card]
            (Community.initial "" "") Samples.out_world) = Raise OSError
  /\ fetch_page Samples.locked_community Samples.grove_url "out"
                Samples.empty_world
     = (fst (fetch_page Samples.locked_community Samples.grove_url "out"
               Samples.empty_world), None)
  /\ path_exists "out/html/meritage_aspen.html"
       (fst (fetch_page Samples.locked_community Samples.grove_url "out"
               Samples.empty_world)) = true.
Proof. vm_compute. repeat split. Qed.



(** ** Resuming: outputs that exist are not fetched again *)

Lemma fetch_page_existing e url output_dir w :
  path_exists (json_file_of output_dir url) w = true ->
  fetch_page e url output_dir w = (w, None).
Proof. intros H. unfold fetch_page. now rewrite H. Qed.

Lemma repeat_shift {A} (x : A) n l : repeat x n ++ x :: l = x :: repeat x n ++ l.
Proof. induction n as [|n IH]; simpl; [reflexivity | now rewrite IH]. Qed.

Lemma process_urls_existing e output_dir urls : forall w,
  (forall url, In url urls ->
               path_exists (json_file_of output_dir url) w = true) ->
  process_urls e urls output_dir w
  = {| fs := fs w; dirs := dirs w;
       events := repeat (Sleep 2) (length urls) ++ events w;
       draws := draws w |}.
Proof.
  induction urls as [|url rest IH]; intros w H; simpl.
  - now destruct w.
  - rewrite fetch_page_existing by (apply H; now left). simpl.
    rewrite IH by (intros u Hu; apply (H u); now right).
    simpl. now rewrite repeat_shift.
Qed.

(** C2. When the JSON output of a URL exists, [fetch_page] returns [None]
    at once and leaves the world as it was: no driver is set up, no page
    is fetched, no file is written. Over a frontier whose outputs all
    exist, the batch loop therefore only sleeps between URLs. *)
Theorem fetch_page_skips_existing (e : env) (output_dir : string)
        (urls : list string) (w : world)
  (Hdone : forall url, In url urls ->
                       path_exists (json_file_of output_dir url) w = true) :
  (forall url, In url urls -> fetch_page e url output_dir w = (w, None))
  /\ fs (process_urls e urls output_dir w) = fs w
  /\ events (process_urls e urls output_dir w)
     = repeat (Sleep 2) (length urls) ++ events w.
Proof.
  split.
  - intros url Hin. apply fetch_page_existing, Hdone, Hin.
  - now rewrite process_urls_existing by exact Hdone.
Qed.

Lemma fetch_page_skips_existing_witness :
  path_exists (json_file_of "out" Samples.oak_url) Samples.oak_done = true
  /\ fetch_page Samples.oak_online Samples.oak_url "out" Samples.oak_done
     = (Samples.oak_done, None)
  /\ events (process_urls Samples.oak_online [Samples.oak_url] "out"
               Samples.oak_done) = [Sleep 2].
Proof.
  assert (Hdone : forall url, In url [Samples.oak_url] ->
            path_exists (json_file_of "out" url) Samples.oak_done = true).
  { intros url [<-|[]]. vm_compute. reflexivity. }
  destruct (fetch_page_skips_existing Samples.oak_online "out"
              [Samples.oak_url] Samples.oak_done Hdone) as (Hskip & _ & Hev).
  split; [apply Hdone; now left|].
  split; [apply Hskip; now left | exact Hev].
Defined.

(** Without the file the same call does fetch. *)
Example fetch_page_fetches_when_missing :
  events (fst (fetch_page Samples.oak_online Samples.oak_url "out"
                 Samples.empty_world))
  = [DriverQuit; WriteFile "out/json/meritage_oak.json";
     WriteFile "out/html/meritage_oak.html"; Makedirs "out/json";
     Makedirs "out/html"; Sleep 5; DriverGet Samples.oak_url; SetupDriver].
Proof. vm_compute. reflexivity. Qed.

(** ** Home-site ids *)

Lemma homesite_record_id index mid homesite :
  homesite_record index mid = Ok homesite ->
  HomeSite.id homesite = str (index + 1).
Proof.
  unfold homesite_record. destruct (heading_url (Some mid)) as [url|ex]; simpl.
  - now intros [= <-].
  - discriminate.
Qed.

Lemma homesite_image_id qmi homesite :
  HomeSite.id (homesite_image qmi homesite) = HomeSite.id homesite.
Proof.
  unfold homesite_image. destruct (find qmi "div" _); [|reflexivity].
  now destruct (find _ "img" _).
Qed.

Lemma same_site_base_id h h' :
  same_site_base h h' -> HomeSite.id h' = HomeSite.id h.
Proof. unfold same_site_base, site_base. now intros [= _ _ _ -> _ _ _ _ _ _ _]. Qed.

Lemma process_qmi_ids e output_dir index qmi data w w' data' :
  process_qmi e output_dir index qmi data w = (w', Ok data') ->
  map HomeSite.id (Community.homesites data')
  = map HomeSite.id (Community.homesites data)
    ++ map (fun i => str (i + 1)) (if emits qmi then [index] else []).
Proof.
  unfold process_qmi, emits.
  destruct (find qmi "div" (by_class "content")) as [content|];
    [|intros [= _ <-]; simpl; now rewrite app_nil_r].
  destruct (find content "div" (by_class "mid")) as [mid|];
    [|intros [= _ <-]; simpl; now rewrite app_nil_r].
  intros H. apply bind_ok in H as (w1 & h0 & Hrec & H).
  unfold lift in Hrec. injection Hrec as <- Hrec.
  apply bind_ok in H as (w2 & h1 & Hen & H).
  injection H as _ <-.
  pose proof (enrich_homesite_base _ _ _ _ _ _ Hen) as Hbase.
  simpl. rewrite map_app. simpl.
  rewrite (same_site_base_id _ _ Hbase), homesite_image_id.
  now rewrite (homesite_record_id _ _ _ Hrec).
Qed.

Lemma process_qmis_ids e output_dir qmis : forall index data w w' data',
  process_qmis e output_dir index qmis data w = (w', Ok data') ->
  map HomeSite.id (Community.homesites data')
  = map HomeSite.id (Community.homesites data)
    ++ map (fun i => str (i + 1)) (emitting_indexes index qmis).
Proof.
  induction qmis as [|qmi rest IH]; intros index data w w' data' H; simpl in *.
  - injection H as _ <-. now rewrite app_nil_r.
  - apply bind_ok in H as (w1 & d1 & H1 & H).
    apply IH in H. apply process_qmi_ids in H1.
    rewrite H, H1, map_app, app_assoc. reflexivity.
Qed.

Lemma emitting_indexes_all qmis : forall index,
  forallb emits qmis = true ->
  emitting_indexes index qmis = seq index (length qmis).
Proof.
  induction qmis as [|qmi rest IH]; intros index H; simpl in *.
  - reflexivity.
  - apply andb_true_iff in H as [-> H]. simpl. now rewrite IH.
Qed.

Lemma emitting_indexes_increasing qmis : forall index,
  Forall (fun i => index <= i) (emitting_indexes index qmis)
  /\ StronglySorted lt (emitting_indexes index qmis).
Proof.
  induction qmis as [|qmi rest IH]; intros index; simpl.
  - split; constructor.
  - destruct (IH (S index)) as [Hge Hs].
    assert (Hge' : Forall (fun i => index <= i) (emitting_indexes (S index) rest)).
    { eapply List.Forall_impl; [|exact Hge]. simpl. intros; lia. }
    destruct (emits qmi); simpl.
    + split; [constructor; [lia | exact Hge']|].
      constructor; [exact Hs|].
      eapply List.Forall_impl; [|exact Hge]. simpl. intros; lia.
    + split; [exact Hge' | exact Hs].
Qed.

(** C9 as stated fails: the [enumerate] number counts every card, also one
    without a [content] block, so the only home site emitted from this
    page has id 2. *)
Lemma skipped_card_leaves_gap :
  option_map (fun data => map HomeSite.id (Community.homesites data))
    (value_of
       (snd (extract_homesites Samples.offline "out"
               (soup_of Samples.two_cards_page)
               (Community.initial "" "") Samples.empty_world)))
  = Some ["2"]
  /\ map emits (qmi_cards (soup_of Samples.two_cards_page)) = [false; true].
Proof. vm_compute. split; reflexivity. Qed.

(** C9, as amended. The id of a home site is the 1-based position of its
    card among all [qmi-vertical] cards of the Quick Move Ins section,
    so ids increase in the order the home sites appear; they are 1, 2, ...
    without gaps when every card has the [content] and [mid] blocks. *)
Theorem homesite_ids_follow_cards (e : env) (output_dir : string)
        (soup : tag) (data data' : Community.t) (w w' : world)
  (Hfresh : Community.homesites data = [])
  (Hrun : extract_homesites e output_dir soup data w = (w', Ok data')) :
  map HomeSite.id (Community.homesites data')
  = map (fun index => str (index + 1)) (emitting_indexes 0 (qmi_cards soup))
  /\ StronglySorted lt (emitting_indexes 0 (qmi_cards soup))
  /\ (forallb emits (qmi_cards soup) = true ->
      map HomeSite.id (Community.homesites data')
      = map str (seq 1 (length (qmi_cards soup)))).
Proof.
  assert (Hids : map HomeSite.id (Community.homesites data')
                 = map (fun index => str (index + 1))
                       (emitting_indexes 0 (qmi_cards soup))).
  { unfold extract_homesites, qmi_cards in *.
    destruct (find soup "section" _) as [qmi_section|].
    - apply process_qmis_ids in Hrun. now rewrite Hrun, Hfresh.
    - injection Hrun as _ <-. now rewrite Hfresh. }
  split; [exact Hids|]. split; [apply emitting_indexes_increasing|].
  intros Hall. rewrite Hids, emitting_indexes_all by exact Hall.
  rewrite <- seq_shift, map_map. apply map_ext. intros i.
  now rewrite Nat.add_1_r.
Qed.

Lemma homesite_ids_follow_cards_witness :
  exists w' data',
    extract_homesites Samples.offline "out" (soup_of Samples.two_cards_page)
                      (Community.initial "" "") Samples.empty_world
    = (w', Ok data')
    /\ map HomeSite.id (Community.homesites data')
       = map (fun index => str (index + 1))
             (emitting_indexes 0 (qmi_cards (soup_of Samples.two_cards_page))).
Proof.
  assert (Hrun : exists w' data',
            extract_homesites Samples.offline "out"
              (soup_of Samples.two_cards_page) (Community.initial "" "")
              Samples.empty_world = (w', Ok data'))
    by (eexists _, _; vm_compute; reflexivity).
  destruct Hrun as (w' & data' & Hrun). exists w', data'.
  split; [exact Hrun|].
  apply (homesite_ids_follow_cards Samples.offline "out"
           (soup_of Samples.two_cards_page) (Community.initial "" "") data'
           Samples.empty_world w' eq_refl Hrun).
Defined.

(** ** The fields that are set once *)

Lemma extract_name_constants soup data data' :
  extract_name soup data = Ok data' -> constants data' = constants data.
Proof.
  unfold extract_name. destruct (find soup "div" _); [|now intros [= <-]].
  destruct (find _ "article" _); simpl; [|discriminate].
  destruct (find _ "h1" _); now intros [= <-].
Qed.

Lemma extract_price_from_constants soup data data' :
  extract_price_from soup data = Ok data' -> constants data' = constants data.
Proof.
  unfold extract_price_from. simpl.
  destruct (Re.search_text _ _); now intros [= <-].
Qed.

Lemma extract_address_constants soup data :
  constants (extract_address soup data) = constants data.
Proof.
  unfold extract_address.
  repeat match goal with
         | |- context [match ?x with _ => _ end] => destruct x
         end; reflexivity.
Qed.

Lemma extract_description_constants soup data :
  constants (extract_description soup data) = constants data.
Proof. unfold extract_description. now destruct (find _ _ _). Qed.

Lemma extract_first_image_constants soup data :
  constants (extract_first_image soup data) = constants data.
Proof.
  unfold extract_first_image.
  repeat match goal with
         | |- context [match ?x with _ => _ end] => destruct x
         | |- context [if ?x then _ else _] => destruct x
         end; reflexivity.
Qed.

Lemma extract_coordinates_constants soup data :
  constants (extract_coordinates soup data) = constants data.
Proof. unfold extract_coordinates. now destruct (find _ _ _). Qed.

Lemma extract_sqft_range_constants soup data data' :
  extract_sqft_range soup data = Ok data' -> constants data' = constants data.
Proof.
  unfold extract_sqft_range. simpl.
  destruct (Re.search_text _ _); now intros [= <-].
Qed.

Lemma extract_ranges_constants soup data :
  constants (extract_ranges soup data) = constants data.
Proof.
  unfold extract_ranges. cbv zeta.
  repeat match goal with
         | |- context [match ?x with _ => _ end] => destruct x
         end; reflexivity.
Qed.

Lemma nearby_of_group_constants group data :
  constants (nearby_of_group group data) = constants data.
Proof.
  unfold nearby_of_group. cbv zeta.
  generalize (find_all group "span" (by_class "plain")). intros links.
  revert data. induction links as [|link links IH]; intros data; simpl.
  - reflexivity.
  - now rewrite IH.
Qed.

Lemma extract_nearbyplaces_constants soup data :
  constants (extract_nearbyplaces soup data) = constants data.
Proof.
  unfold extract_nearbyplaces.
  generalize (find_all soup "div" (by_class "multicol")). intros groups.
  revert data. induction groups as [|group groups IH]; intros data; simpl.
  - reflexivity.
  - now rewrite IH, nearby_of_group_constants.
Qed.

Lemma process_qmi_constants e output_dir index qmi data w w' data' :
  process_qmi e output_dir index qmi data w = (w', Ok data') ->
  constants data' = constants data.
Proof.
  unfold process_qmi.
  destruct (find qmi "div" _); [|now intros [= _ <-]].
  destruct (find _ "div" _); [|now intros [= _ <-]].
  intros H. apply bind_ok in H as (w1 & h0 & _ & H).
  apply bind_ok in H as (w2 & h1 & _ & H). now injection H as _ <-.
Qed.

Lemma extract_homesites_constants e output_dir soup data w w' data' :
  extract_homesites e output_dir soup data w = (w', Ok data') ->
  constants data' = constants data.
Proof.
  unfold extract_homesites.
  destruct (find soup "section" _) as [qmi_section|]; [|now intros [= _ <-]].
  generalize (find_all qmi_section "div" (by_class "qmi-vertical")) 0.
  intros qmis. revert data w.
  induction qmis as [|qmi rest IH]; intros data w index H; simpl in H.
  - now injection H as _ <-.
  - apply bind_ok in H as (w1 & d1 & H1 & H).
    apply IH in H. apply process_qmi_constants in H1. congruence.
Qed.

Lemma process_plan_constants e output_dir plan data w w' data' :
  process_plan e output_dir plan data w = (w', Ok data') ->
  constants data' = constants data.
Proof.
  unfold process_plan. intros H.
  apply bind_ok in H as (w1 & h0 & _ & H).
  apply bind_ok in H as (w2 & h1 & _ & H).
  apply bind_ok in H as (w3 & h2 & _ & H). now injection H as _ <-.
Qed.

Lemma extract_homeplans_constants e output_dir soup data w w' data' :
  extract_homeplans e output_dir soup data w = (w', Ok data') ->
  constants data' = constants data.
Proof.
  unfold extract_homeplans.
  generalize (find_all soup "div"
                (by_class "row columns collapse floorplan-vertical")).
  intros plans. revert data w.
  induction plans as [|plan rest IH]; intros data w H; simpl in H.
  - now injection H as _ <-.
  - apply bind_ok in H as (w1 & d1 & H1 & H).
    apply IH in H. apply process_plan_constants in H1. congruence.
Qed.

Lemma image_fallback_constants e data w w' data' :
  image_fallback e data w = (w', Ok data') ->
  constants data' = constants data.
Proof.
  unfold image_fallback. destruct (Community.images data);
    [|now intros [= _ <-]].
  destruct (available_images data); [now intros [= _ <-]|].
  intros H. apply bind_ok in H as (w1 & x & _ & H). now injection H as _ <-.
Qed.

(** What [assemble] returns was created by the dict literal, keeps the
    three constants, and is the record written to the JSON file. *)
Lemma assemble_constants e url output_dir w w' data :
  assemble e url output_dir w = (w', Ok data) ->
  constants data = (1, [], [])
  /\ fs w' !! json_file_of output_dir url = Some (Json data).
Proof.
  unfold assemble. intros H.
  apply bind_ok in H as (w1 & p & _ & H).
  apply bind_ok in H as (w2 & [] & _ & H).
  apply bind_ok in H as (w3 & [] & _ & H).
  apply bind_ok in H as (w4 & [] & _ & H).
  apply bind_ok in H as (w5 & [] & _ & H).
  cbv zeta in H.
  apply bind_ok in H as (w6 & now & _ & H).
  apply bind_ok in H as (w7 & d1 & H1 & H).
  apply bind_ok in H as (w8 & d2 & H2 & H).
  apply bind_ok in H as (w9 & d3 & H3 & H).
  apply bind_ok in H as (w10 & d4 & H4 & H).
  apply bind_ok in H as (w11 & d5 & H5 & H).
  apply bind_ok in H as (w12 & d6 & H6 & H).
  apply bind_ok in H as (w13 & [] & H7 & H).
  injection H as <- <-.
  unfold lift in H1, H2, H3. injection H1 as _ H1. injection H2 as _ H2.
  injection H3 as _ H3.
  apply extract_name_constants in H1.
  apply extract_price_from_constants in H2.
  apply extract_sqft_range_constants in H3.
  apply extract_homesites_constants in H4.
  apply extract_homeplans_constants in H5.
  apply image_fallback_constants in H6.
  rewrite extract_nearbyplaces_constants, extract_ranges_constants in H4.
  rewrite extract_coordinates_constants, extract_first_image_constants,
    extract_description_constants, extract_address_constants in H3.
  split.
  - now rewrite H6, H5, H4, H3, H2, H1.
  - unfold write_file in H7. destruct (dir_exists _ w12); [|discriminate].
    injection H7 as <-. simpl. apply lookup_insert_eq.
Qed.

(** C10. Every record [fetch_page] returns, which is also the record it
    wrote to the JSON file, has [community_count] 1 and empty
    [amenities] and [collections]. *)
Theorem community_constants (e : env) (url output_dir : string)
        (w w' : world) (data : Community.t)
  (Hrun : fetch_page e url output_dir w = (w', Some data)) :
  Community.community_count (Community.dets data) = 1
  /\ Community.amenities data = []
  /\ Community.collections data = []
  /\ fs w' !! json_file_of output_dir url = Some (Json data).
Proof.
  unfold fetch_page in Hrun.
  destruct (path_exists _ w); [discriminate|].
  destruct (setup_driver e w) as [w1 [[]|ex]]; [|discriminate].
  destruct (assemble e url output_dir w1) as [w2 [d|ex]] eqn:Ha;
    [|discriminate].
  injection Hrun as <- <-.
  apply assemble_constants in Ha as [Hc Hfile].
  unfold constants in Hc. injection Hc as H1 H2 H3.
  repeat split; assumption.
Qed.

Lemma community_constants_witness :
  exists w' data,
    fetch_page Samples.oak_online Samples.oak_url "out" Samples.empty_world
    = (w', Some data)
    /\ Community.name data = Some "Oak Hollow"
    /\ Community.community_count (Community.dets data) = 1
    /\ Community.amenities data = []
    /\ Community.collections data = [].
Proof.
  assert (Hrun : exists w' data,
            fetch_page Samples.oak_online Samples.oak_url "out"
                       Samples.empty_world = (w', Some data)
            /\ Community.name data = Some "Oak Hollow")
    by (eexists _, _; vm_compute; split; reflexivity).
  destruct Hrun as (w' & data & Hrun & Hname). exists w', data.
  split; [exact Hrun|]. split; [exact Hname|].
  destruct (community_constants Samples.oak_online Samples.oak_url "out"
              Samples.empty_world w' data Hrun) as (H1 & H2 & H3 & _).
  repeat split; assumption.
Defined.

(* ===================================================================== *)
(** * Further properties of the scripts *)
(* ===================================================================== *)

(** ** What a match consumed and what its groups hold *)

Lemma chars_text l : chars (text l) = l.
Proof. apply list_ascii_of_string_of_list_ascii. Qed.

Lemma text_chars s : text (chars s) = s.
Proof. apply string_of_list_ascii_of_string. Qed.

Lemma consumed_app m s' : Re.consumed (m ++ s') s' = m.
Proof.
  unfold Re.consumed. rewrite length_app.
  replace (length m + length s' - length s') with (length m) by lia.
  rewrite firstn_app, Nat.sub_diag, firstn_all. simpl. apply app_nil_r.
Qed.

Lemma matches_split r s s' : Re.matches r s s' -> exists m, s = m ++ s'.
Proof.
  induction 1 as [s|p c s Hp|r1 r2 s1 s2 s3 _ [m1 ->] _ [m2 ->]
                 |r1 r2 s s' _ IH|r1 r2 s s' _ IH|p s
                 |p c s s' Hp _ [m ->]|i r s s' _ IH|s He].
  - now exists [].
  - now exists [c].
  - exists (m1 ++ m2). now rewrite app_assoc.
  - exact IH.
  - exact IH.
  - now exists [].
  - now exists (c :: m).
  - exact IH.
  - now exists [].
Qed.

Lemma matches_chr p s s' :
  Re.matches (Re.Chr p) s s' -> exists c, s = c :: s' /\ p c = true.
Proof. inversion 1; subst. now eexists. Qed.

Lemma matches_star p s s' :
  Re.matches (Re.Star p) s s' ->
  exists m, s = m ++ s' /\ forallb p m = true.
Proof.
  intros H. remember (Re.Star p) as r eqn:Hr.
  induction H as [| | | | |q s|q c s s' Hq _ IH| |]; try discriminate.
  - now exists [].
  - injection Hr as ->. destruct (IH eq_refl) as (m & -> & Hm).
    exists (c :: m). split; [reflexivity|]. simpl. now rewrite Hq.
Qed.

Lemma matches_plus p s s' :
  Re.matches (Re.Plus p) s s' ->
  exists m, s = m ++ s' /\ m <> [] /\ forallb p m = true.
Proof.
  unfold Re.Plus. inversion 1 as [| |r1 r2 s1 s2 s3 H1 H2| | | | | |]; subst.
  apply matches_chr in H1 as (c & -> & Hc).
  apply matches_star in H2 as (m & -> & Hm).
  exists (c :: m). repeat split; [discriminate|]. simpl. now rewrite Hc.
Qed.

Lemma matches_lit l : forall s s',
  Re.matches (Re.Lit_chars l) s s' -> s = l ++ s'.
Proof.
  induction l as [|c l IH]; intros s s' H.
  - now inversion H.
  - destruct l as [|c' l].
    + apply matches_chr in H as (x & -> & Hx).
      apply Ascii.eqb_eq in Hx as ->. reflexivity.
    + change (Re.Lit_chars (c :: c' :: l))
        with (Re.Cat (Re.Ch c) (Re.Lit_chars (c' :: l))) in H.
      inversion H as [| |r1 r2 s1 s2 s3 H1 H2| | | | | |]; subst.
      apply matches_chr in H1 as (x & -> & Hx).
      apply Ascii.eqb_eq in Hx as ->. apply IH in H2 as ->. reflexivity.
Qed.

Lemma captures_matches r s c s' c' :
  captures_of r s c s' c' -> Re.matches r s s'.
Proof. induction 1; eauto using Re.matches. Qed.

Lemma captures_groupless r s c s' c' :
  groupless r = true -> captures_of r s c s' c' -> c' = c.
Proof.
  intros Hg H. induction H; simpl in Hg; try reflexivity;
    try (apply andb_true_iff in Hg as [Hg1 Hg2]); try discriminate.
  - rewrite IHcaptures_of2, IHcaptures_of1; auto.
  - auto.
  - auto.
Qed.

Lemma star_bt_captures {A} p s (k : list ascii -> option A) x :
  Re.star_bt p s k = Some x ->
  exists s', Re.matches (Re.Star p) s s' /\ k s' = Some x.
Proof. apply star_bt_sound. Qed.

(** A success of the matcher comes with the groups its match closed. *)
Lemma bt_captures {A} r :
  forall s caps (k : list ascii -> Re.captures -> option A) x,
    Re.bt r s caps k = Some x ->
    exists s' caps', captures_of r s caps s' caps' /\ k s' caps' = Some x.
Proof.
  induction r as [|p|r1 IH1 r2 IH2|r1 IH1 r2 IH2|p|j r IH|];
    intros s caps k x H; simpl in H.
  - exists s, caps. split; [constructor | exact H].
  - destruct s as [|c s]; [discriminate|].
    destruct (p c) eqn:Hp; [|discriminate].
    exists s, caps. split; [now constructor | exact H].
  - apply IH1 in H as (s1 & c1 & Hm1 & Hk1).
    apply IH2 in Hk1 as (s2 & c2 & Hm2 & Hk2).
    exists s2, c2. split; [econstructor; eauto | exact Hk2].
  - destruct (Re.bt r1 s caps k) as [y|] eqn:H1.
    + injection H as ->. apply IH1 in H1 as (s1 & c1 & Hm1 & Hk1).
      exists s1, c1. split; [now apply C_AltL | exact Hk1].
    + apply IH2 in H as (s1 & c1 & Hm1 & Hk1).
      exists s1, c1. split; [now apply C_AltR | exact Hk1].
  - apply star_bt_sound in H as (s' & Hm & Hk).
    exists s', caps. split; [now constructor | exact Hk].
  - apply IH in H as (s1 & c1 & Hm1 & Hk1).
    exists s1, ((j, Re.consumed s s1) :: c1). split; [now constructor | exact Hk1].
  - destruct (Re.at_eol s) eqn:He; [|discriminate].
    exists s, caps. split; [now constructor | exact H].
Qed.

Lemma match_here_some r pos s m :
  Re.match_here r pos s = Some m ->
  exists s' caps,
    captures_of r s [] s' caps
    /\ m = {| Re.m_start := pos; Re.m_text := Re.consumed s s';
              Re.m_rest := s'; Re.m_groups := caps |}.
Proof.
  unfold Re.match_here. intros H.
  apply bt_captures in H as (s' & caps & Hc & Hk).
  exists s', caps. split; [exact Hc | now injection Hk as <-].
Qed.

(** What [re.search] returns is a match at some position of the text, and
    no earlier position has one. *)
Lemma search_from_some r : forall s pos m,
  Re.search_from r pos s = Some m ->
  exists pre suf,
    s = pre ++ suf /\ Re.match_here r (pos + length pre) suf = Some m
    /\ (forall pre1 suf1 rest, pre1 ++ suf1 = pre -> suf1 <> [] ->
                               ~ Re.matches r (suf1 ++ suf) rest).
Proof.
  induction s as [|c s IH]; intros pos m; simpl.
  - destruct (Re.match_here r pos []) eqn:E; [|discriminate].
    intros [= <-]. exists [], []. rewrite Nat.add_0_r. repeat split; auto.
    intros pre1 suf1 rest Heq Hne. apply app_eq_nil in Heq as [_ ->].
    contradiction.
  - destruct (Re.match_here r pos (c :: s)) eqn:E.
    + intros [= <-]. exists [], (c :: s). rewrite Nat.add_0_r.
      repeat split; auto.
      intros pre1 suf1 rest Heq Hne. apply app_eq_nil in Heq as [_ ->].
      contradiction.
    + intros H. apply IH in H as (pre & suf & -> & Hm & Hleft).
      exists (c :: pre), suf. simpl.
      replace (pos + S (length pre)) with (S pos + length pre) by lia.
      repeat split; auto.
      intros pre1 suf1 rest Heq Hne.
      destruct pre1 as [|c1 pre1].
      * simpl in Heq. subst suf1. simpl.
        apply (proj1 (match_here_none r pos (c :: pre ++ suf)) E).
      * simpl in Heq. injection Heq as -> Heq.
        now apply (Hleft pre1 suf1 rest).
Qed.

Lemma search_text_some r t m :
  Re.search_text r t = Some m ->
  exists pre suf s' caps,
    chars t = pre ++ suf
    /\ captures_of r suf [] s' caps
    /\ Re.m_text m = Re.consumed suf s'
    /\ Re.m_groups m = caps
    /\ (forall pre1 suf1 rest, pre1 ++ suf1 = pre -> suf1 <> [] ->
                               ~ Re.matches r (suf1 ++ suf) rest).
Proof.
  unfold Re.search_text. intros H.
  apply search_from_some in H as (pre & suf & Heq & Hm & Hleft).
  apply match_here_some in Hm as (s' & caps & Hc & ->).
  exists pre, suf, s', caps. repeat split; auto.
Qed.

(** Greedy repetition before a continuation that cannot fail takes the
    whole run. *)
Lemma star_bt_greedy {A} p (k : list ascii -> option A) :
  (forall s, k s <> None) -> forall s, Re.star_bt p s k = k (after_run p s).
Proof.
  intros Hk. induction s as [|c s IH]; simpl; [reflexivity|].
  destruct (p c); [|reflexivity].
  rewrite IH. destruct (k (after_run p s)) eqn:E; [reflexivity|].
  now apply Hk in E.
Qed.

Lemma run_after_run p s : s = run p s ++ after_run p s.
Proof.
  induction s as [|c s IH]; simpl; [reflexivity|].
  destruct (p c); simpl; [now rewrite <- IH | reflexivity].
Qed.

Lemma run_all p s : forallb p (run p s) = true.
Proof.
  induction s as [|c s IH]; simpl; [reflexivity|].
  destruct (p c) eqn:E; simpl; [now rewrite E | reflexivity].
Qed.

Lemma after_run_stops p s : stops p (after_run p s).
Proof.
  induction s as [|c s IH]; simpl; [exact I|].
  destruct (p c) eqn:E; [exact IH | exact E].
Qed.

(** ** What the pattern extractors return *)

Lemma match_here_price pos s m :
  Re.match_here re_price pos s = Some m ->
  exists c s2,
    s = "$"%char :: c :: s2 /\ digit_or_comma c = true
    /\ Re.m_text m = "$"%char :: c :: run digit_or_comma s2
    /\ Re.m_rest m = after_run digit_or_comma s2.
Proof.
  unfold Re.match_here, re_price, Re.Plus, Re.Ch. cbn [Re.bt].
  destruct s as [|a s]; [discriminate|].
  destruct (Ascii.eqb_spec "$"%char a) as [<-|]; [|discriminate].
  destruct s as [|c s2]; [discriminate|].
  destruct (digit_or_comma c) eqn:Hc; [|discriminate].
  rewrite star_bt_greedy by discriminate. intros [= <-].
  exists c, s2. simpl. repeat split; auto.
  rewrite (run_after_run digit_or_comma s2) at 1.
  change ("$"%char :: c :: run digit_or_comma s2 ++ after_run digit_or_comma s2)
    with (("$"%char :: c :: run digit_or_comma s2) ++ after_run digit_or_comma s2).
  apply consumed_app.
Qed.

Lemma price_starts d rest :
  digits_and_commas d ->
  exists rest', Re.matches re_price ("$"%char :: d ++ rest) rest'.
Proof.
  intros [Hne Hall]. destruct d as [|c d]; [contradiction|].
  simpl in Hall. apply andb_true_iff in Hall as [Hc _].
  exists (d ++ rest). unfold re_price, Re.Plus, Re.Ch.
  eapply Re.M_Cat; [constructor; apply Ascii.eqb_refl|].
  eapply Re.M_Cat; [constructor; exact Hc | constructor].
Qed.

(** X1. A price returned by [extract_price] is a dollar sign followed by
    the whole run of digits and commas after it, taken where such a piece
    first occurs in the text. *)
Theorem extract_price_value (txt : option string) (v : string)
  (Hv : extract_price txt = Ok (Some v)) :
  exists t pre d rest,
    txt = Some t
    /\ chars t = pre ++ chars v ++ rest
    /\ chars v = "$"%char :: d
    /\ digits_and_commas d
    /\ stops digit_or_comma rest
    /\ (forall a b, pre = a ++ "$"%char :: b ->
                    stops digit_or_comma (b ++ chars v ++ rest)).
Proof.
  unfold extract_price in Hv. destruct txt as [t|]; [|discriminate].
  unfold truthy in Hv. destruct (String.eqb t ""); [discriminate|].
  cbn [negb Re.search rbind] in Hv.
  destruct (Re.search_text re_price t) as [m|] eqn:Hs; [|discriminate].
  assert (Hv' : v = text (Re.m_text m)) by (simpl in Hv; congruence).
  subst v. clear Hv.
  unfold Re.search_text in Hs.
  apply search_from_some in Hs as (pre & suf & Heq & Hm & Hleft).
  apply match_here_price in Hm as (c & s2 & -> & Hc & Htext & _).
  exists t, pre, (c :: run digit_or_comma s2), (after_run digit_or_comma s2).
  rewrite chars_text, Htext.
  assert (Hd : digits_and_commas (c :: run digit_or_comma s2)).
  { split; [discriminate|]. simpl. now rewrite Hc, run_all. }
  split; [reflexivity|].
  split; [rewrite Heq; simpl; now rewrite <- run_after_run|].
  split; [reflexivity|]. split; [exact Hd|].
  split; [apply after_run_stops|].
  - intros a b ->.
    set (tail := b ++ ("$"%char :: c :: run digit_or_comma s2)
                   ++ after_run digit_or_comma s2).
    destruct tail as [|x tail'] eqn:Ht; [exact I|]. simpl.
    destruct (digit_or_comma x) eqn:Hx; [|reflexivity]. exfalso.
    destruct (price_starts [x] tail') as (rest' & Hmatch).
    { split; [discriminate|]. simpl. now rewrite Hx. }
    apply (Hleft a ("$"%char :: b) rest'); [reflexivity | discriminate |].
    simpl in Hmatch. simpl.
    replace (b ++ "$"%char :: c :: s2) with (x :: tail'); [exact Hmatch|].
    rewrite <- Ht. unfold tail. simpl.
    now rewrite <- run_after_run.
Qed.

Lemma extract_price_value_witness :
  exists t pre d rest,
    Some "Homes from $450,000 today" = Some t
    /\ chars t = pre ++ chars "$450,000" ++ rest
    /\ chars "$450,000" = "$"%char :: d
    /\ digits_and_commas d
    /\ stops digit_or_comma rest.
Proof.
  destruct (extract_price_value (Some "Homes from $450,000 today") "$450,000")
    as (t & pre & d & rest & H1 & H2 & H3 & H4 & H5 & _).
  { vm_compute. reflexivity. }
  exists t, pre, d, rest. repeat (split; [assumption|]). exact H5.
Defined.

Lemma filter_commas_digits g :
  forallb digit_or_comma g = true ->
  forallb is_digit
    (List.filter (fun x => negb (Ascii.eqb x ","%char)) g) = true.
Proof.
  induction g as [|c g IH]; simpl; [reflexivity|].
  intros H. apply andb_true_iff in H as [Hc Hg].
  destruct (Ascii.eqb c ","%char) eqn:E; simpl; [now apply IH|].
  unfold digit_or_comma in Hc. rewrite E, orb_false_r in Hc.
  now rewrite Hc, IH.
Qed.

Lemma group_one_of_head r tail suf s' caps :
  groupless r = true -> groupless tail = true ->
  captures_of (Re.Cat (Re.Grp 1 r) tail) suf [] s' caps ->
  exists s2,
    Re.matches r suf s2 /\ Re.matches tail s2 s'
    /\ caps = [(1, Re.consumed suf s2)].
Proof.
  intros Hr Htail H.
  inversion H as [| |r1 r2 s1 s2 s3 c1 c2 c3 H1 H2| | | | |]; subst.
  inversion H1 as [| | | | | |i r0 s0 s0' c0 c0' H0|]; subst.
  apply (captures_groupless _ _ _ _ _ Htail) in H2 as Hc. subst caps.
  apply (captures_groupless _ _ _ _ _ Hr) in H0 as Hc. subst c0'.
  exists s2. repeat split; eauto using captures_matches.
Qed.

Lemma is_space_not_digit_or_comma c :
  is_space c = true -> digit_or_comma c = false.
Proof.
  destruct c as [b0 b1 b2 b3 b4 b5 b6 b7].
  destruct b0, b1, b2, b3, b4, b5, b6, b7; vm_compute; congruence.
Qed.

Lemma is_space_not_digit c : is_space c = true -> is_digit c = false.
Proof.
  intros H. apply is_space_not_digit_or_comma in H.
  unfold digit_or_comma in H. now apply orb_false_iff in H as [H _].
Qed.

(** White space, then a character outside the class: the class stops
    there. *)
Lemma stops_after_spaces p spaces c tail :
  forallb is_space spaces = true ->
  (forall x, is_space x = true -> p x = false) ->
  p c = false ->
  stops p (spaces ++ c :: tail).
Proof.
  intros Hsp Hp Hc. destruct spaces as [|x spaces]; simpl; [exact Hc|].
  simpl in Hsp. apply andb_true_iff in Hsp as [Hx _]. now apply Hp.
Qed.

Lemma matches_plus_intro p m s :
  m <> [] -> forallb p m = true -> Re.matches (Re.Plus p) (m ++ s) s.
Proof.
  intros Hne Hall. destruct m as [|c m]; [contradiction|].
  simpl in Hall. apply andb_true_iff in Hall as [Hc Hm].
  unfold Re.Plus. simpl. eapply Re.M_Cat; [now constructor|].
  clear Hc Hne. induction m as [|x m IH]; simpl; [constructor|].
  simpl in Hm. apply andb_true_iff in Hm as [Hx Hm].
  constructor; [exact Hx | now apply IH].
Qed.

Lemma sq_ft_words_start rest rest' :
  Re.matches sq_ft_words rest rest' ->
  exists spaces tail,
    rest = spaces ++ "s"%char :: tail /\ forallb is_space spaces = true.
Proof.
  unfold sq_ft_words. simpl.
  inversion 1 as [| |r1 r2 s1 s2 s3 H1 H2| | | | | |]; subst.
  apply matches_star in H1 as (spaces & -> & Hsp).
  inversion H2 as [| |r1 r2 s1 s3' s4 H3 H4| | | | | |]; subst.
  apply (matches_lit (chars "sq")) in H3 as ->.
  now exists spaces, ("q"%char :: s3').
Qed.

(** X2. A square footage returned by [extract_sqft] is made of digits
    only (none at all if the number was only commas). It is a whole run
    of digits and commas of the lower-cased text, one that is followed
    by optional white space, [sq], optional white space and [ft], with
    the commas deleted; and it is the first such run: the pattern matches
    at no earlier place of the text. *)
Theorem extract_sqft_value (txt : option string) (v : string)
  (Hv : extract_sqft txt = Ok (Some v)) :
  exists t pre g rest rest',
    txt = Some t
    /\ chars (lower t) = pre ++ g ++ rest
    /\ digits_and_commas g
    /\ Re.matches sq_ft_words rest rest'
    /\ stops digit_or_comma rest
    /\ (forall a c, pre = a ++ [c] -> digit_or_comma c = false)
    /\ (forall a b rest2, pre = a ++ b -> b <> [] ->
                          ~ Re.matches re_sqft (b ++ g ++ rest) rest2)
    /\ v = remove_char "," (text g)
    /\ forallb is_digit (chars v) = true.
Proof.
  unfold extract_sqft in Hv. destruct txt as [t|]; [|discriminate].
  unfold truthy in Hv. destruct (String.eqb t ""); [discriminate|].
  cbn [negb deref rbind Re.search] in Hv.
  destruct (Re.search_text re_sqft (lower t)) as [m|] eqn:Hs; [|discriminate].
  apply search_text_some in Hs
    as (pre & suf & s' & caps & Heq & Hc & _ & Hg & Hleft).
  apply (group_one_of_head (Re.Plus digit_or_comma) sq_ft_words) in Hc
    as (s2 & Hnum & Htail & ->); [|reflexivity|reflexivity].
  apply matches_plus in Hnum as (g & -> & Hne & Hall).
  rewrite consumed_app in Hg.
  unfold Re.group in Hv. rewrite Hg in Hv. simpl in Hv. injection Hv as <-.
  exists t, pre, g, s2, s'.
  split; [reflexivity|]. split; [exact Heq|]. split; [now split|].
  split; [exact Htail|]. split; [|split; [|split; [|split]]].
  - destruct (sq_ft_words_start _ _ Htail) as (spaces & tail & -> & Hsp).
    apply stops_after_spaces;
      [exact Hsp | apply is_space_not_digit_or_comma | reflexivity].
  - intros a c -> . destruct (digit_or_comma c) eqn:Hdc; [exfalso|reflexivity].
    apply (Hleft a [c] s' eq_refl); [discriminate|].
    change re_sqft
      with (Re.Cat (Re.Grp 1 (Re.Plus digit_or_comma)) sq_ft_words).
    eapply Re.M_Cat; [|exact Htail]. constructor.
    apply (matches_plus_intro digit_or_comma (c :: g) s2); [discriminate|].
    simpl. now rewrite Hdc.
  - intros a b rest2 -> Hb. now apply (Hleft a b rest2).
  - reflexivity.
  - unfold remove_char. rewrite !chars_text. now apply filter_commas_digits.
Qed.

Lemma extract_sqft_value_witness :
  exists t pre g rest rest',
    Some "Lot 12: approx. 2,450 Sq Ft" = Some t
    /\ chars (lower t) = pre ++ g ++ rest
    /\ digits_and_commas g
    /\ Re.matches sq_ft_words rest rest'
    /\ stops digit_or_comma rest
    /\ (forall a c, pre = a ++ [c] -> digit_or_comma c = false)
    /\ (forall a b rest2, pre = a ++ b -> b <> [] ->
                          ~ Re.matches re_sqft (b ++ g ++ rest) rest2)
    /\ "2450" = remove_char "," (text g)
    /\ forallb is_digit (chars "2450") = true.
Proof.
  apply (extract_sqft_value (Some "Lot 12: approx. 2,450 Sq Ft") "2450").
  vm_compute. reflexivity.
Defined.

(** Only commas before [sq ft]: the value is the empty string. *)
Example extract_sqft_only_commas :
  extract_sqft (Some "lot ,, sq ft") = Ok (Some "").
Proof. vm_compute. reflexivity. Qed.

Lemma matches_decimal s s' :
  Re.matches
    (Re.Cat (Re.Plus is_digit)
            (Re.Opt (Re.Cat (Re.Ch ".") (Re.Plus is_digit)))) s s' ->
  exists m, s = m ++ s' /\ decimal m.
Proof.
  inversion 1 as [| |r1 r2 s1 s2 s3 H1 H2| | | | | |]; subst.
  apply matches_plus in H1 as (whole & -> & Hne & Hall).
  unfold Re.Opt in H2.
  inversion H2 as [| | |r1 r2 s0 s0' H3|r1 r2 s0 s0' H3| | | |]; subst.
  - inversion H3 as [| |r1' r2' t1 t2 t3 H4 H5| | | | | |]; subst.
    apply matches_chr in H4 as (c & -> & Hc).
    apply Ascii.eqb_eq in Hc as <-.
    apply matches_plus in H5 as (f & -> & Hfne & Hfall).
    exists (whole ++ "."%char :: f). split.
    + now rewrite <- app_assoc.
    + exists whole, ("."%char :: f). repeat split; auto.
      right. exists f. repeat split; auto.
  - inversion H3; subst. exists whole. split; [reflexivity|].
    exists whole, []. rewrite app_nil_r. repeat split; auto.
Qed.

Lemma unit_word_start (words : Re.regex) (first : ascii)
      rest rest' :
  (forall s s', Re.matches words s s' -> exists tail, s = first :: tail) ->
  Re.matches (Re.Cat (Re.Star is_space) words) rest rest' ->
  exists spaces tail,
    rest = spaces ++ first :: tail /\ forallb is_space spaces = true.
Proof.
  intros Hwords.
  inversion 1 as [| |r1 r2 s1 s2 s3 H1 H2| | | | | |]; subst.
  apply matches_star in H1 as (spaces & -> & Hsp).
  apply Hwords in H2 as (tail & ->). now exists spaces, tail.
Qed.

Lemma bed_words_start s s' :
  Re.matches bed_words s s' -> exists tail, s = "B"%char :: tail.
Proof.
  unfold bed_words.
  inversion 1 as [| | |r1 r2 s0 s0' H1|r1 r2 s0 s0' H1| | | |]; subst.
  - apply (matches_lit (chars "Bedroom")) in H1 as ->. now eexists.
  - inversion H1 as [| | |r1 r2 s0 s0' H2|r1 r2 s0 s0' H2| | | |]; subst.
    + apply (matches_lit (chars "Bed")) in H2 as ->. now eexists.
    + apply (matches_lit (chars "BR")) in H2 as ->. now eexists.
Qed.

Lemma bath_words_start s s' :
  Re.matches bath_words s s' -> exists tail, s = "B"%char :: tail.
Proof.
  unfold bath_words.
  inversion 1 as [| | |r1 r2 s0 s0' H1|r1 r2 s0 s0' H1| | | |]; subst.
  - apply (matches_lit (chars "Bathroom")) in H1 as ->. now eexists.
  - inversion H1 as [| | |r1 r2 s0 s0' H2|r1 r2 s0 s0' H2| | | |]; subst.
    + apply (matches_lit (chars "Bath")) in H2 as ->. now eexists.
    + apply (matches_lit (chars "BA")) in H2 as ->. now eexists.
Qed.

(** A digit put before a decimal number gives a decimal number. *)
Lemma matches_decimal_cons c s s' :
  is_digit c = true ->
  Re.matches
    (Re.Cat (Re.Plus is_digit)
            (Re.Opt (Re.Cat (Re.Ch ".") (Re.Plus is_digit)))) s s' ->
  Re.matches
    (Re.Cat (Re.Plus is_digit)
            (Re.Opt (Re.Cat (Re.Ch ".") (Re.Plus is_digit)))) (c :: s) s'.
Proof.
  intros Hc.
  inversion 1 as [| |r1 r2 s1 s2 s3 H1 H2| | | | | |]; subst.
  eapply Re.M_Cat; [|exact H2].
  apply matches_plus in H1 as (whole & -> & Hne & Hall).
  apply (matches_plus_intro is_digit (c :: whole) s2); [discriminate|].
  simpl. now rewrite Hc.
Qed.

(** X3. The bed count returned by [extract_beds_baths] is a run of
    digits, the bath count a decimal number (digits, optionally a point
    and digits). Each stands in the text right before optional white
    space and its unit word, [Bedroom], [Bed] or [BR] for the beds and
    [Bathroom], [Bath] or [BA] for the baths, written exactly so; it has
    no digit before it and none after it; and it is the first such
    number: the pattern matches at no earlier place of the text. *)
Theorem extract_beds_baths_value (txt : option string)
        (beds baths : option string)
  (Hv : extract_beds_baths txt = Ok (beds, baths)) :
  (forall b, beds = Some b ->
     digits (chars b)
     /\ exists t, txt = Some t
                  /\ counted_before (Re.Plus is_digit) bed_words t b)
  /\ (forall b, baths = Some b ->
        decimal (chars b)
        /\ exists t,
             txt = Some t
             /\ counted_before
                  (Re.Cat (Re.Plus is_digit)
                          (Re.Opt (Re.Cat (Re.Ch ".") (Re.Plus is_digit))))
                  bath_words t b).
Proof.
  unfold extract_beds_baths in Hv.
  destruct txt as [t|]; [|now injection Hv as <- <-].
  unfold truthy in Hv.
  destruct (String.eqb t ""); [now injection Hv as <- <-|].
  cbn [negb Re.search rbind] in Hv. injection Hv as <- <-. split.
  - intros b Hb.
    destruct (Re.search_text re_beds t) as [m|] eqn:Hs; [|discriminate].
    apply search_text_some in Hs
      as (pre & suf & s' & caps & Heq & Hc & _ & Hg & Hleft).
    apply (group_one_of_head (Re.Plus is_digit)
             (Re.Cat (Re.Star is_space) bed_words)) in Hc
      as (s2 & Hnum & Htail & ->); [|reflexivity|reflexivity].
    apply matches_plus in Hnum as (g & -> & Hne & Hall).
    rewrite consumed_app in Hg.
    unfold Re.group in Hb. rewrite Hg in Hb. simpl in Hb. injection Hb as <-.
    rewrite chars_text. split; [now split|].
    exists t. split; [reflexivity|]. exists pre, s2, s'.
    rewrite chars_text.
    split; [exact Heq|]. split; [exact Htail|]. split; [|split].
    + destruct (unit_word_start _ _ _ _ bed_words_start Htail)
        as (spaces & tail & -> & Hsp).
      apply stops_after_spaces;
        [exact Hsp | apply is_space_not_digit | reflexivity].
    + intros a c ->. destruct (is_digit c) eqn:Hdc; [exfalso|reflexivity].
      apply (Hleft a [c] s' eq_refl); [discriminate|].
      change re_beds
        with (Re.Cat (Re.Grp 1 (Re.Plus is_digit))
                     (Re.Cat (Re.Star is_space) bed_words)).
      eapply Re.M_Cat; [|exact Htail]. constructor.
      apply (matches_plus_intro is_digit (c :: g) s2); [discriminate|].
      simpl. now rewrite Hdc.
    + intros a s rest2 -> Hs. now apply (Hleft a s rest2).
  - intros b Hb.
    destruct (Re.search_text re_baths t) as [m|] eqn:Hs; [|discriminate].
    apply search_text_some in Hs
      as (pre & suf & s' & caps & Heq & Hc & _ & Hg & Hleft).
    pose proof Hc as Hc'.
    apply (group_one_of_head
             (Re.Cat (Re.Plus is_digit)
                     (Re.Opt (Re.Cat (Re.Ch ".") (Re.Plus is_digit))))
             (Re.Cat (Re.Star is_space) bath_words)) in Hc
      as (s2 & Hnum & Htail & ->); [|reflexivity|reflexivity].
    pose proof Hnum as Hnum'.
    apply matches_decimal in Hnum as (g & -> & Hdec).
    rewrite consumed_app in Hg.
    unfold Re.group in Hb. rewrite Hg in Hb. simpl in Hb. injection Hb as <-.
    rewrite chars_text. split; [exact Hdec|].
    exists t. split; [reflexivity|]. exists pre, s2, s'.
    rewrite chars_text.
    split; [exact Heq|]. split; [exact Htail|]. split; [|split].
    + destruct (unit_word_start _ _ _ _ bath_words_start Htail)
        as (spaces & tail & -> & Hsp).
      apply stops_after_spaces;
        [exact Hsp | apply is_space_not_digit | reflexivity].
    + intros a c ->. destruct (is_digit c) eqn:Hdc; [exfalso|reflexivity].
      apply (Hleft a [c] s' eq_refl); [discriminate|].
      change re_baths
        with (Re.Cat (Re.Grp 1
                        (Re.Cat (Re.Plus is_digit)
                           (Re.Opt (Re.Cat (Re.Ch ".") (Re.Plus is_digit)))))
                     (Re.Cat (Re.Star is_space) bath_words)).
      eapply Re.M_Cat; [|exact Htail]. constructor.
      now apply matches_decimal_cons.
    + intros a s rest2 -> Hs. now apply (Hleft a s rest2).
Qed.

Lemma extract_beds_baths_value_witness :
  digits (chars "3") /\ decimal (chars "2.5")
  /\ counted_before (Re.Plus is_digit) bed_words "Plan 12: 3 BR, 2.5 BA" "3".
Proof.
  destruct (extract_beds_baths_value (Some "Plan 12: 3 BR, 2.5 BA")
              (Some "3") (Some "2.5")) as (Hbeds & Hbaths).
  { vm_compute. reflexivity. }
  destruct (Hbeds "3" eq_refl) as (Hd & t & Ht & Hcount).
  injection Ht as <-.
  split; [exact Hd|]. split; [apply (Hbaths "2.5" eq_refl) | exact Hcount].
Defined.

(** The unit words are matched as written: lower-case words are not
    units, and [BR] and [BA] are. *)
Example extract_beds_baths_on_samples :
  extract_beds_baths (Some "3 bedrooms, 2 baths") = Ok (None, None)
  /\ extract_beds_baths (Some "4 BR, 2 BA") = Ok (Some "4", Some "2")
  /\ extract_beds_baths (Some "12 Bed 2.5 Bath") = Ok (Some "12", Some "2.5").
Proof. vm_compute. repeat split. Qed.

(** ** Features: descriptions *)

Lemma add_feature_description fps b li :
  map Feature.description (included (add_feature fps b li))
  = map Feature.description (included b)
    ++ (if nonblank li then [strip (text_of li)] else []).
Proof.
  unfold add_feature, nonblank.
  destruct (negb (String.eqb (strip (text_of li)) "")).
  - destruct (_ <=? _); simpl; now rewrite map_app.
  - now rewrite app_nil_r.
Qed.

Lemma add_features_descriptions fps items : forall b,
  map Feature.description (included (fold_left (add_feature fps) items b))
  = map Feature.description (included b)
    ++ map (fun li => strip (text_of li)) (List.filter nonblank items).
Proof.
  induction items as [|li items IH]; intros b; simpl.
  - now rewrite app_nil_r.
  - rewrite IH, add_feature_description, <- app_assoc.
    now destruct (nonblank li).
Qed.

(** X4. The descriptions of a plan's features are the stripped texts of
    the feature items that are not empty, in page order; so no feature
    has an empty description, and there are as many features as non-empty
    items. *)
Theorem feature_descriptions (feature_sections : list tag) :
  let features := snd (bucket_features feature_sections) in
  map Feature.description features
  = map (fun li => strip (text_of li))
        (List.filter nonblank (all_items feature_sections))
  /\ Forall (fun f => Feature.description f <> "") features
  /\ length features
     = length (List.filter nonblank (all_items feature_sections)).
Proof.
  cbv zeta.
  assert (Hd : map Feature.description (snd (bucket_features feature_sections))
               = map (fun li => strip (text_of li))
                     (List.filter nonblank (all_items feature_sections))).
  { unfold bucket_features. simpl.
    now rewrite add_sections_flat, add_features_descriptions. }
  split; [exact Hd|]. split.
  - apply List.Forall_forall. intros f Hf.
    apply (in_map Feature.description) in Hf. rewrite Hd in Hf.
    apply in_map_iff in Hf as (li & <- & Hli).
    apply filter_In in Hli as [_ Hnb]. unfold nonblank in Hnb.
    destruct (String.eqb_spec (strip (text_of li)) ""); [discriminate|assumption].
  - rewrite <- (length_map Feature.description), Hd. apply length_map.
Qed.

(** ** Stories and floor plans *)







(** X6. A column headed [Stories] whose value is not an integer is passed
    over: the ValueError of [int] is caught, nothing is stored, and the
    loop goes on with the columns after it. *)
Theorem stories_not_a_number (plan_soup col : tag) (rest : list tag)
        (value : string) (s : world * HomePlan.t)
  (Hcol : column_value "Stories" col = Some value)
  (Hint : py_int value = Raise ValueError) :
  stories_loop plan_soup (col :: rest) s = stories_loop plan_soup rest s.
Proof.
  unfold column_value in Hcol. simpl.
  destruct (find col "h3" []) as [h3|]; [|discriminate].
  destruct (String.eqb (strip (text_of h3)) "Stories"); [|discriminate].
  destruct (find_next_sibling h3 "span") as [span|]; [|discriminate].
  injection Hcol as ->.
  unfold bind at 1, try_except_ValueError, bind at 1, lift.
  rewrite Hint. reflexivity.
Qed.

Lemma stories_not_a_number_witness :
  stories_loop (soup_of Samples.plan_page_with_panel)
    (soup_of (Samples.detail_column "Stories" "two") :: [])
    (Samples.empty_world, Samples.plan_with_url)
  = ((Samples.empty_world, Samples.plan_with_url), Ok tt).
Proof.
  rewrite (stories_not_a_number _ _ _ "two"); reflexivity.
Defined.

(** ** What [fetch_page] leaves alone *)

Lemma bind_cases {S A B} (m : M S A) (k : A -> M S B) s s' r :
  bind m k s = (s', r) ->
  (exists ex, r = Raise ex /\ m s = (s', Raise ex))
  \/ (exists s1 a, m s = (s1, Ok a) /\ k a s1 = (s', r)).
Proof.
  unfold bind. destruct (m s) as [s1 [a|ex]]; intros H.
  - right. now exists s1, a.
  - left. injection H as -> <-. now exists ex.
Qed.

Lemma unchanged_refl {S X} (f : S -> X) s : unchanged f s s.
Proof. reflexivity. Qed.

Lemma unchanged_trans {S X} (f : S -> X) s1 s2 s3 :
  unchanged f s1 s2 -> unchanged f s2 s3 -> unchanged f s1 s3.
Proof. unfold unchanged. congruence. Qed.

Lemma keeps_outside_world {L A X} (f : world -> X) (m : M world A) :
  keeps (unchanged f) m ->
  keeps (unchanged (fun s : world * L => f (fst s))) (outside m).
Proof.
  intros Hm [w l] s' r. unfold outside. simpl.
  destruct (m w) as [w' x] eqn:E. intros [= <- _]. simpl.
  apply (Hm _ _ _ E).
Qed.

Lemma keeps_update_world {L X} (f : world -> X) (g : L -> L) :
  keeps (unchanged (fun s : world * L => f (fst s))) (update g).
Proof. intros [w l] s' r [= <- _]. reflexivity. Qed.

Lemma keeps_on_object {L X} (f : world -> X) (obj : L)
      (m : M (world * L) unit) :
  keeps (unchanged (fun s : world * L => f (fst s))) m ->
  keeps (unchanged f) (on_object obj m).
Proof.
  intros Hm w w' r. unfold on_object.
  destruct (m (w, obj)) as [[w1 obj1] [[]|ex]] eqn:E;
    intros [= <- _]; apply (Hm _ _ _ E).
Qed.

Section Frame.
Context {X : Type} (output_dir : string) (f : world -> X).
Hypothesis Hf : framed output_dir f.

Lemma frame_log ev :
  ev <> SetupDriver -> ev <> DriverQuit ->
  forall w, f (log ev w) = f w.
Proof. intros H1 H2 w. now apply (framed_log _ _ Hf). Qed.

Lemma frame_driver_get e url : keeps (unchanged f) (driver_get e url).
Proof.
  intros w w' r. unfold driver_get.
  destruct (web e url); intros [= <- _]; now apply frame_log.
Qed.

Lemma frame_sleep n : keeps (unchanged f) (sleep n).
Proof. intros w w' r [= <- _]. now apply frame_log. Qed.

Lemma frame_makedirs path : keeps (unchanged f) (makedirs path).
Proof.
  intros w w' r [= <- _]. unfold unchanged.
  rewrite frame_log by discriminate. apply (framed_dirs _ _ Hf).
Qed.

Lemma frame_now e : keeps (unchanged f) (now_isoformat e).
Proof. intros w w' r [= <- _]. reflexivity. Qed.

Lemma frame_write name c :
  keeps (unchanged f)
        (write_file (output_dir +:+ "/html/meritage_" +:+ name) c).
Proof.
  intros w w' r. unfold write_file.
  destruct (dir_exists _ w); intros [= <- _]; [|reflexivity].
  unfold unchanged.
  rewrite frame_log by discriminate. apply (framed_insert _ _ Hf).
Qed.

Lemma frame_remove_if_exists e name :
  keeps (unchanged f)
        (remove_if_exists e (output_dir +:+ "/html/meritage_" +:+ name)).
Proof.
  intros w w' r. unfold remove_if_exists, bind, os_path_exists, os_remove.
  destruct (path_exists _ w) eqn:E.
  - rewrite E. destruct (protected e _); intros [= <- _]; [reflexivity|].
    unfold unchanged.
    rewrite frame_log by discriminate. apply (framed_delete _ _ Hf).
  - intros [= <- _]. reflexivity.
Qed.

Lemma frame_random_choice e seq : keeps (unchanged f) (random_choice e seq).
Proof.
  intros w w' r. unfold random_choice.
  destruct (nth_error _ _); intros [= <- _];
    [apply (framed_draw _ _ Hf) | reflexivity].
Qed.

(** One step of a run that leaves [f] alone. *)
Ltac frame_step :=
  first
    [ apply keeps_outside_world
    | apply keeps_update_world
    | apply frame_driver_get
    | apply frame_sleep
    | apply frame_makedirs
    | apply frame_now
    | apply frame_random_choice
    | apply frame_write
    | apply frame_remove_if_exists
    | apply keeps_ret; intros ?; apply unchanged_refl
    | apply keeps_lift; intros ?; apply unchanged_refl
    | apply keeps_bind; [ intros ? ? ?; apply unchanged_trans | | intros ? ]
    | apply keeps_for_each;
      [ intros ?; apply unchanged_refl
      | intros ? ? ?; apply unchanged_trans | intros ? ]
    | apply keeps_try_except_ValueError;
      [ intros ? ? ?; apply unchanged_trans | | ]
    | match goal with
      | |- keeps _ (match ?x with _ => _ end) => destruct x
      | |- keeps _ (if ?x then _ else _) => destruct x
      end ].

Lemma frame_homesite_detail e url :
  keeps (unchanged (fun s : world * HomeSite.t => f (fst s)))
        (homesite_detail e output_dir url).
Proof.
  unfold homesite_detail, homesite_coordinates, homesite_overview.
  change (homesite_html_file output_dir url)
    with (output_dir +:+ "/html/meritage_"
          +:+ ("homesite_" +:+ last_item (split_char "/" url) +:+ ".html")).
  repeat frame_step.
  all: unfold gallery_slide; repeat frame_step.
Qed.

Lemma frame_stories_loop plan_soup cols :
  keeps (unchanged (fun s : world * HomePlan.t => f (fst s)))
        (stories_loop plan_soup cols).
Proof.
  induction cols as [|col rest IH]; simpl.
  - apply keeps_ret. intros ?; apply unchanged_refl.
  - repeat first
      [ exact IH | progress unfold floorplan_entry | frame_step ].
Qed.

Lemma frame_homeplan_detail e url :
  keeps (unchanged (fun s : world * HomePlan.t => f (fst s)))
        (homeplan_detail e output_dir url).
Proof.
  unfold homeplan_detail.
  change (homeplan_html_file output_dir url)
    with (output_dir +:+ "/html/meritage_"
          +:+ (last_item (split_char "/" url) +:+ ".html")).
  repeat first [ apply frame_stories_loop | frame_step ].
Qed.

Lemma frame_enrich_homesite e homesite :
  keeps (unchanged f) (enrich_homesite e output_dir homesite).
Proof.
  unfold enrich_homesite.
  destruct (HomeSite.url homesite) as [url|];
    [|apply keeps_ret; intros ?; apply unchanged_refl].
  destruct (truthy (Some url));
    [|apply keeps_ret; intros ?; apply unchanged_refl].
  apply keeps_on_object, keeps_try_except.
  - intros ? ? ?; apply unchanged_trans.
  - apply frame_homesite_detail.
  - intros _.
    change (homesite_html_file output_dir url)
      with (output_dir +:+ "/html/meritage_"
            +:+ ("homesite_" +:+ last_item (split_char "/" url) +:+ ".html")).
    apply keeps_outside_world, frame_remove_if_exists.
Qed.

Lemma frame_enrich_homeplan e homeplan :
  keeps (unchanged f) (enrich_homeplan e output_dir homeplan).
Proof.
  unfold enrich_homeplan.
  destruct (HomePlan.url homeplan) as [url|];
    [|apply keeps_ret; intros ?; apply unchanged_refl].
  destruct (truthy (Some url));
    [|apply keeps_ret; intros ?; apply unchanged_refl].
  apply keeps_on_object, keeps_try_except.
  - intros ? ? ?; apply unchanged_trans.
  - apply frame_homeplan_detail.
  - intros _.
    change (homeplan_html_file output_dir url)
      with (output_dir +:+ "/html/meritage_"
            +:+ (last_item (split_char "/" url) +:+ ".html")).
    apply keeps_outside_world, frame_remove_if_exists.
Qed.

Lemma frame_process_qmis e qmis : forall index data,
  keeps (unchanged f) (process_qmis e output_dir index qmis data).
Proof.
  induction qmis as [|qmi rest IH]; intros index data; simpl.
  - apply keeps_ret. intros ?; apply unchanged_refl.
  - apply keeps_bind; [intros ? ? ?; apply unchanged_trans | | intros ?; apply IH].
    unfold process_qmi.
    repeat first [ apply frame_enrich_homesite | frame_step ].
Qed.

Lemma frame_extract_homesites e soup data :
  keeps (unchanged f) (extract_homesites e output_dir soup data).
Proof.
  unfold extract_homesites. destruct (find soup "section" _).
  - apply frame_process_qmis.
  - apply keeps_ret. intros ?; apply unchanged_refl.
Qed.

Lemma frame_extract_homeplans e soup data :
  keeps (unchanged f) (extract_homeplans e output_dir soup data).
Proof.
  unfold extract_homeplans.
  generalize (find_all soup "div"
                (by_class "row columns collapse floorplan-vertical")).
  intros plans. revert data.
  induction plans as [|plan rest IH]; intros data; simpl.
  - apply keeps_ret. intros ?; apply unchanged_refl.
  - apply keeps_bind; [intros ? ? ?; apply unchanged_trans | | intros ?; apply IH].
    unfold process_plan.
    repeat first [ apply frame_enrich_homeplan | frame_step ].
Qed.

Lemma frame_image_fallback e data :
  keeps (unchanged f) (image_fallback e data).
Proof. unfold image_fallback. repeat frame_step. Qed.

(** [assemble] leaves [f] alone up to its last step, the write of the
    JSON record, which it reaches only when nothing has raised. *)
Lemma frame_assemble e url w w' r :
  assemble e url output_dir w = (w', r) ->
  match r with
  | Raise _ => f w' = f w
  | Ok data =>
      exists w1,
        f w1 = f w
        /\ w' = log (WriteFile (json_file_of output_dir url))
                    (with_fs (insert (json_file_of output_dir url) (Json data))
                             w1)
  end.
Proof.
  unfold assemble. intros H.
  apply bind_cases in H as [(ex & -> & H)|(w1 & p & H1 & H)];
    [now apply frame_driver_get in H|apply frame_driver_get in H1].
  apply bind_cases in H as [(ex & -> & H)|(w2 & [] & H2 & H)];
    [apply frame_sleep in H; unfold unchanged in *; congruence
    |apply frame_sleep in H2].
  apply bind_cases in H as [(ex & -> & H)|(w3 & [] & H3 & H)];
    [apply frame_makedirs in H; unfold unchanged in *; congruence
    |apply frame_makedirs in H3].
  apply bind_cases in H as [(ex & -> & H)|(w4 & [] & H4 & H)];
    [apply frame_makedirs in H; unfold unchanged in *; congruence
    |apply frame_makedirs in H4].
  change (html_file_of output_dir url)
    with (output_dir +:+ "/html/meritage_"
          +:+ (last_item (split_char "/" url) +:+ ".html")) in H.
  apply bind_cases in H as [(ex & -> & H)|(w5 & [] & H5 & H)];
    [apply frame_write in H; unfold unchanged in *; congruence
    |apply frame_write in H5].
  cbv zeta in H.
  apply bind_cases in H as [(ex & -> & H)|(w6 & now & H6 & H)];
    [apply frame_now in H; unfold unchanged in *; congruence
    |apply frame_now in H6].
  assert (Hlift : forall A (x : result A), keeps (unchanged f) (lift x))
    by (intros; apply keeps_lift; intros ?; apply unchanged_refl).
  apply bind_cases in H as [(ex & -> & H)|(w7 & d1 & H7 & H)];
    [apply Hlift in H; unfold unchanged in *; congruence|apply Hlift in H7].
  apply bind_cases in H as [(ex & -> & H)|(w8 & d2 & H8 & H)];
    [apply Hlift in H; unfold unchanged in *; congruence|apply Hlift in H8].
  apply bind_cases in H as [(ex & -> & H)|(w9 & d3 & H9 & H)];
    [apply Hlift in H; unfold unchanged in *; congruence|apply Hlift in H9].
  apply bind_cases in H as [(ex & -> & H)|(w10 & d4 & H10 & H)];
    [apply frame_extract_homesites in H; unfold unchanged in *; congruence
    |apply frame_extract_homesites in H10].
  apply bind_cases in H as [(ex & -> & H)|(w11 & d5 & H11 & H)];
    [apply frame_extract_homeplans in H; unfold unchanged in *; congruence
    |apply frame_extract_homeplans in H11].
  apply bind_cases in H as [(ex & -> & H)|(w12 & d6 & H12 & H)];
    [apply frame_image_fallback in H; unfold unchanged in *; congruence
    |apply frame_image_fallback in H12].
  apply bind_cases in H as [(ex & -> & H)|(w13 & [] & H13 & H)].
  - unfold write_file in H. destruct (dir_exists _ w12); [discriminate|].
    injection H as <- _. unfold unchanged in *. congruence.
  - injection H as <- <-. unfold write_file in H13.
    destruct (dir_exists _ w12); [|discriminate]. injection H13 as <-.
    exists w12. split; [unfold unchanged in *; congruence | reflexivity].
Qed.
End Frame.

(** ** JSON records, sessions, and the batch *)

Lemma append_inj_l dir a b : dir +:+ a = dir +:+ b -> a = b.
Proof.
  induction dir as [|c dir IH]; simpl; [auto|].
  intros [= H]. auto.
Qed.

Lemma json_not_html output_dir name name' :
  json_path output_dir name <> output_dir +:+ "/html/meritage_" +:+ name'.
Proof.
  unfold json_path. intros H. apply append_inj_l in H. simpl in H.
  discriminate.
Qed.

Lemma json_file_is_json_path output_dir url :
  json_file_of output_dir url
  = json_path output_dir
      ("meritage_" +:+ last_item (split_char "/" url) +:+ ".json").
Proof. reflexivity. Qed.

Lemma framed_lookup output_dir p :
  (forall name, p <> output_dir +:+ "/html/meritage_" +:+ name) ->
  framed output_dir (fun w => fs w !! p).
Proof.
  intros Hp. split.
  - reflexivity.
  - intros name c w. simpl. apply lookup_insert_ne. auto.
  - intros name w. simpl. apply lookup_delete_ne. auto.
  - reflexivity.
  - reflexivity.
Qed.

Lemma framed_sessions output_dir :
  framed output_dir (fun w => (opened w, closed w)).
Proof.
  split; try reflexivity.
  intros ev w H1 H2. unfold opened, closed. simpl.
  destruct ev; try contradiction; reflexivity.
Qed.

(** What [fetch_page] does to the files under [output_dir/json]. *)
Lemma fetch_page_json e url output_dir w w' r name :
  fetch_page e url output_dir w = (w', r) ->
  (r = None \/ json_path output_dir name <> json_file_of output_dir url) ->
  fs w' !! json_path output_dir name = fs w !! json_path output_dir name.
Proof.
  unfold fetch_page. intros H Hcase.
  destruct (path_exists _ w); [now injection H as <- _|].
  unfold setup_driver in H. destruct (chrome e); [|now injection H as <- _].
  destruct (assemble e url output_dir (log SetupDriver w)) as [w2 ra] eqn:Ha.
  injection H as <- <-. simpl.
  pose proof (frame_assemble output_dir (fun w => fs w !! json_path output_dir name)
                (framed_lookup _ _ (json_not_html output_dir name))
                e url _ _ _ Ha) as Hfr.
  destruct ra as [data|ex]; [|exact Hfr].
  destruct Hcase as [Hnone|Hne]; [discriminate|].
  destruct Hfr as (w1 & Hw1 & ->). simpl in *.
  rewrite lookup_insert_ne by auto. exact Hw1.
Qed.

(** X7. [fetch_page] touches no file under [output_dir/json] except the
    record of its own URL, and that one only when it returns a record: a
    call that returns [None], because the page or anything in it failed,
    leaves every JSON file as it was. *)
Theorem fetch_page_json_records (e : env) (url output_dir : string)
        (w w' : world) (r : option Community.t)
  (Hrun : fetch_page e url output_dir w = (w', r)) :
  (r = None ->
   forall name, fs w' !! json_path output_dir name
                = fs w !! json_path output_dir name)
  /\ (forall name,
        json_path output_dir name <> json_file_of output_dir url ->
        fs w' !! json_path output_dir name = fs w !! json_path output_dir name).
Proof.
  split.
  - intros Hnone name. eapply fetch_page_json; [exact Hrun | now left].
  - intros name Hne. eapply fetch_page_json; [exact Hrun | now right].
Qed.

Lemma fetch_page_json_records_witness :
  fetch_page Samples.offline Samples.oak_url "out" Samples.oak_done
  = (Samples.oak_done, None)
  /\ fs (fst (fetch_page Samples.offline Samples.other_oak_url "data"
                Samples.empty_world))
       !! json_path "data" "meritage_oak.json" = None.
Proof.
  split; [vm_compute; reflexivity|].
  destruct (fetch_page Samples.offline Samples.other_oak_url "data"
              Samples.empty_world) as [w' r] eqn:Hrun.
  destruct (fetch_page_json_records _ _ _ _ _ _ Hrun) as [Hnone _].
  simpl. rewrite Hnone; [reflexivity|].
  assert (Hr : snd (fetch_page Samples.offline Samples.other_oak_url "data"
                      Samples.empty_world) = None) by (vm_compute; reflexivity).
  now rewrite Hrun in Hr.
Defined.

Lemma fetch_page_sessions e url output_dir w :
  let w' := fst (fetch_page e url output_dir w) in
  (events w' = events w)
  \/ (opened w' = S (opened w) /\ closed w' = S (closed w)
      /\ exists rest, events w' = DriverQuit :: rest).
Proof.
  unfold fetch_page. simpl.
  destruct (path_exists _ w); [now left|].
  unfold setup_driver. destruct (chrome e); [|now left].
  destruct (assemble e url output_dir (log SetupDriver w)) as [w2 ra] eqn:Ha.
  right. simpl.
  assert (Hs : (opened w2, closed w2)
               = (opened (log SetupDriver w), closed (log SetupDriver w))).
  { pose proof (frame_assemble output_dir (fun w => (opened w, closed w))
                  (framed_sessions output_dir) e url _ _ _ Ha) as Hfr.
    destruct ra as [data|ex]; [|exact Hfr].
    destruct Hfr as (w1 & Hw1 & ->). rewrite <- Hw1. reflexivity. }
  injection Hs as Ho Hc. unfold opened, closed in *. simpl in *.
  rewrite Ho, Hc. repeat split. now eexists.
Qed.

(** X8. A call of [fetch_page] either leaves the history as it was (the
    record exists, or no driver could be set up) or sets up exactly one
    driver and quits exactly one, the quit being the last thing it does,
    whether the page was assembled or something raised. Over a batch the
    drivers set up and the drivers quit stay in balance. *)
Theorem sessions_are_released (e : env) (output_dir : string) :
  (forall url w,
     let w' := fst (fetch_page e url output_dir w) in
     events w' = events w
     \/ (opened w' = S (opened w) /\ closed w' = S (closed w)
         /\ exists rest, events w' = DriverQuit :: rest))
  /\ (forall urls w,
        opened (process_urls e urls output_dir w) + closed w
        = opened w + closed (process_urls e urls output_dir w)).
Proof.
  split; [intros url w; apply fetch_page_sessions|].
  induction urls as [|url rest IH]; intros w; simpl; [lia|].
  rewrite <- (Nat.add_cancel_r _ _ (closed (fst (fetch_page e url output_dir w)))).
  pose proof (IH (log (Sleep 2) (fst (fetch_page e url output_dir w)))) as H.
  unfold opened, closed in *. simpl in *.
  destruct (fetch_page_sessions e url output_dir w) as [Hev|(Ho & Hc & _)];
    unfold opened, closed in *; simpl in *.
  - rewrite Hev in *. lia.
  - lia.
Qed.

(** A record that exists is not touched by the batch. *)
Lemma process_urls_keeps_records e output_dir name c urls : forall w,
  fs w !! json_path output_dir name = Some c ->
  fs (process_urls e urls output_dir w) !! json_path output_dir name = Some c.
Proof.
  induction urls as [|url rest IH]; intros w Hc; simpl; [exact Hc|].
  apply IH. simpl.
  destruct (fetch_page e url output_dir w) as [w' r] eqn:Hrun. simpl.
  destruct (string_dec (json_path output_dir name) (json_file_of output_dir url))
    as [Heq|Hne].
  - unfold fetch_page in Hrun. unfold path_exists in Hrun.
    rewrite <- Heq, Hc in Hrun. now injection Hrun as <- _.
  - rewrite (fetch_page_json _ _ _ _ _ _ name Hrun); auto.
Qed.

(** X9. A JSON record that exists before a batch is still there, with
    the same content, after it: records are written once and never
    rewritten or removed, whatever the frontier holds. *)
Theorem records_are_written_once (e : env) (output_dir name : string)
        (c : content) (urls : list string) (w : world)
  (Hc : fs w !! json_path output_dir name = Some c) :
  fs (process_urls e urls output_dir w) !! json_path output_dir name = Some c.
Proof. now apply process_urls_keeps_records. Qed.

Lemma records_are_written_once_witness :
  fs (process_urls Samples.oak_online
        [Samples.oak_url; Samples.other_oak_url] "out" Samples.oak_done)
    !! json_path "out" "meritage_oak.json" = Some (Html "").
Proof.
  apply (records_are_written_once Samples.oak_online "out" "meritage_oak.json").
  vm_compute. reflexivity.
Defined.

(** X10. The output is keyed by the last path segment alone: once a URL
    has been fetched and its record written, any URL ending in the same
    segment is skipped, in any environment, and the world is left as it
    is. *)
Theorem same_last_segment_is_skipped (e e' : env)
        (url url' output_dir : string) (w w' : world) (data : Community.t)
  (Hseg : last_item (split_char "/" url') = last_item (split_char "/" url))
  (Hrun : fetch_page e url output_dir w = (w', Some data)) :
  fetch_page e' url' output_dir w' = (w', None).
Proof.
  apply fetch_page_existing.
  assert (Hfile : fs w' !! json_file_of output_dir url = Some (Json data)).
  { unfold fetch_page in Hrun.
    destruct (path_exists _ w); [discriminate|].
    destruct (setup_driver e w) as [w1 [[]|ex]]; [|discriminate].
    destruct (assemble e url output_dir w1) as [w2 [d|ex]] eqn:Ha;
      [|discriminate].
    injection Hrun as <- <-.
    apply assemble_constants in Ha as [_ Hfile]. exact Hfile. }
  unfold path_exists, json_file_of in *. rewrite Hseg. now rewrite Hfile.
Qed.

Lemma same_last_segment_is_skipped_witness :
  exists w' data,
    fetch_page Samples.oak_online Samples.oak_url "out" Samples.empty_world
    = (w', Some data)
    /\ fetch_page Samples.oak_online Samples.other_oak_url "out" w' = (w', None).
Proof.
  assert (Hrun : exists w' data,
            fetch_page Samples.oak_online Samples.oak_url "out"
                       Samples.empty_world = (w', Some data))
    by (eexists _, _; vm_compute; reflexivity).
  destruct Hrun as (w' & data & Hrun). exists w', data.
  split; [exact Hrun|].
  apply (same_last_segment_is_skipped Samples.oak_online Samples.oak_online
           Samples.oak_url Samples.other_oak_url "out" Samples.empty_world
           w' data); [vm_compute; reflexivity | exact Hrun].
Defined.

(** ** The lists of a community record *)

Lemma nearby_of_group_closed group data :
  Community.nearbyplaces (nearby_of_group group data)
  = Community.nearbyplaces data ++ nearby_of group.
Proof.
  unfold nearby_of_group, nearby_of. cbv zeta.
  generalize (find_all group "span" (by_class "plain")). intros links.
  revert data. induction links as [|link links IH]; intros data; simpl.
  - now rewrite app_nil_r.
  - rewrite IH. simpl. now rewrite <- app_assoc.
Qed.

Lemma extract_nearbyplaces_closed soup data :
  Community.nearbyplaces (extract_nearbyplaces soup data)
  = Community.nearbyplaces data ++ nearby_entries soup.
Proof.
  unfold extract_nearbyplaces, nearby_entries.
  generalize (find_all soup "div" (by_class "multicol")). intros groups.
  revert data. induction groups as [|group groups IH]; intros data; simpl.
  - now rewrite app_nil_r.
  - rewrite IH, nearby_of_group_closed. now rewrite <- app_assoc.
Qed.

(** X11. The nearby places of a page are listed group after group and,
    inside a group, span after span; each carries the heading of its own
    group as category (none if the group has no heading) and has no
    distance, rating or reviews. *)
Theorem nearbyplaces_by_group (soup : tag) (data : Community.t) :
  Community.nearbyplaces (extract_nearbyplaces soup data)
  = Community.nearbyplaces data
    ++ flat_map nearby_of (find_all soup "div" (by_class "multicol"))
  /\ (forall group place,
        In place (nearby_of group) ->
        Nearby.category place
        = option_map (fun h5 => strip (text_of h5)) (find group "h5" [])
        /\ Nearby.distance place = None
        /\ Nearby.rating place = None
        /\ Nearby.reviews place = None)
  /\ (forall group,
        length (nearby_of group)
        = length (find_all group "span" (by_class "plain"))).
Proof.
  split; [apply extract_nearbyplaces_closed|]. split.
  - intros group place Hin. unfold nearby_of in Hin.
    apply in_map_iff in Hin as (link & <- & _). simpl.
    now destruct (find group "h5" []).
  - intros group. unfold nearby_of. apply length_map.
Qed.

Lemma extract_name_lists soup data data' :
  extract_name soup data = Ok data' -> lists_of data' = lists_of data.
Proof.
  unfold extract_name. destruct (find soup "div" _); [|now intros [= <-]].
  destruct (find _ "article" _); simpl; [|discriminate].
  destruct (find _ "h1" _); now intros [= <-].
Qed.

Lemma extract_price_from_lists soup data data' :
  extract_price_from soup data = Ok data' -> lists_of data' = lists_of data.
Proof.
  unfold extract_price_from. simpl.
  destruct (Re.search_text _ _); now intros [= <-].
Qed.

Lemma extract_address_lists soup data :
  lists_of (extract_address soup data) = lists_of data.
Proof.
  unfold extract_address.
  repeat match goal with
         | |- context [match ?x with _ => _ end] => destruct x
         end; reflexivity.
Qed.

Lemma extract_description_lists soup data :
  lists_of (extract_description soup data) = lists_of data.
Proof. unfold extract_description. now destruct (find _ _ _). Qed.

Lemma extract_coordinates_lists soup data :
  lists_of (extract_coordinates soup data) = lists_of data.
Proof. unfold extract_coordinates. now destruct (find _ _ _). Qed.

Lemma extract_sqft_range_lists soup data data' :
  extract_sqft_range soup data = Ok data' -> lists_of data' = lists_of data.
Proof.
  unfold extract_sqft_range. simpl.
  destruct (Re.search_text _ _); now intros [= <-].
Qed.

Lemma extract_ranges_lists soup data :
  lists_of (extract_ranges soup data) = lists_of data.
Proof.
  unfold extract_ranges. cbv zeta.
  repeat match goal with
         | |- context [match ?x with _ => _ end] => destruct x
         end; reflexivity.
Qed.

(** The first-image step adds at most one image, an absolute one. *)
Lemma extract_first_image_lists soup data :
  Community.nearbyplaces (extract_first_image soup data)
  = Community.nearbyplaces data
  /\ Community.homesites (extract_first_image soup data)
     = Community.homesites data
  /\ Community.homeplans (extract_first_image soup data)
     = Community.homeplans data
  /\ (Community.images (extract_first_image soup data) = Community.images data
      \/ exists s, Community.images (extract_first_image soup data)
                   = Community.images data ++ [origin +:+ s]).
Proof.
  unfold extract_first_image.
  repeat match goal with
         | |- context [match ?x with _ => _ end] => destruct x
         | |- context [if ?x then _ else _] => destruct x
         end; simpl; repeat split; eauto.
Qed.

Lemma nearby_of_group_others group data :
  Community.homesites (nearby_of_group group data) = Community.homesites data
  /\ Community.homeplans (nearby_of_group group data) = Community.homeplans data
  /\ Community.images (nearby_of_group group data) = Community.images data.
Proof.
  unfold nearby_of_group. cbv zeta.
  generalize (find_all group "span" (by_class "plain")). intros links.
  revert data. induction links as [|link links IH]; intros data; simpl.
  - auto.
  - destruct (IH (Community.append_nearby
                    {| Nearby.name := strip (text_of link);
                       Nearby.category :=
                         match find group "h5" [] with
                         | Some h5 => Some (strip (text_of h5))
                         | None => None
                         end;
                       Nearby.distance := None; Nearby.rating := None;
                       Nearby.reviews := None |} data)) as (H1 & H2 & H3).
    now rewrite H1, H2, H3.
Qed.

Lemma extract_nearbyplaces_others soup data :
  Community.homesites (extract_nearbyplaces soup data) = Community.homesites data
  /\ Community.homeplans (extract_nearbyplaces soup data)
     = Community.homeplans data
  /\ Community.images (extract_nearbyplaces soup data) = Community.images data.
Proof.
  unfold extract_nearbyplaces.
  generalize (find_all soup "div" (by_class "multicol")). intros groups.
  revert data. induction groups as [|group groups IH]; intros data; simpl.
  - auto.
  - destruct (IH (nearby_of_group group data)) as (H1 & H2 & H3).
    destruct (nearby_of_group_others group data) as (G1 & G2 & G3).
    rewrite H1, H2, H3, G1, G2, G3. auto.
Qed.

(** ** Children of a record: statuses and image URLs *)

Lemma origin_absolute s : absolute (origin +:+ s).
Proof. reflexivity. Qed.

Lemma absolutize_absolute_or_empty src u :
  absolutize src = Some u -> u <> "" -> absolute u.
Proof.
  unfold absolutize, truthy. destruct src as [s|]; [|discriminate].
  destruct (String.eqb_spec s "") as [->|Hne]; simpl.
  - intros [= <-]. contradiction.
  - destruct (startswith "http" s) eqn:Hp; simpl; intros [= <-] _.
    + exact Hp.
    + apply origin_absolute.
Qed.

Lemma absolutize_truthy src :
  truthy src = true -> exists u, absolutize src = Some u /\ absolute u.
Proof.
  unfold absolutize. destruct src as [s|]; [|discriminate]. intros Ht.
  rewrite Ht. simpl. destruct (startswith "http" s) eqn:Hp; simpl.
  - now exists s.
  - exists (origin +:+ s). split; [reflexivity | apply origin_absolute].
Qed.

Lemma homesite_record_ok index mid homesite :
  homesite_record index mid = Ok homesite ->
  HomeSite.status homesite = "Available"
  /\ HomeSite.images homesite = []
  /\ HomeSite.image_url homesite = None.
Proof.
  unfold homesite_record. destruct (heading_url (Some mid)) as [url|ex]; simpl.
  - now intros [= <-].
  - discriminate.
Qed.

Lemma homesite_image_ok qmi homesite :
  HomeSite.status homesite = "Available" ->
  HomeSite.images homesite = [] ->
  HomeSite.image_url homesite = None ->
  site_ok (homesite_image qmi homesite).
Proof.
  intros Hs Hi Hu. unfold homesite_image.
  destruct (find qmi "div" _) as [img_container|].
  - destruct (find img_container "img" _) as [img|].
    + split; [exact Hs|]. split; simpl.
      * rewrite Hi. constructor.
      * intros u Hu' Hne. eapply absolutize_absolute_or_empty; eauto.
    + split; [exact Hs|]. split; [rewrite Hi; constructor|].
      intros u. rewrite Hu. discriminate.
  - split; [exact Hs|]. split; [rewrite Hi; constructor|].
    intros u. rewrite Hu. discriminate.
Qed.

(** The gallery only ever takes absolute image URLs. *)
Definition images_stay_absolute (h h' : HomeSite.t) : Prop :=
  Forall absolute (HomeSite.images h) -> Forall absolute (HomeSite.images h').

Lemma images_stay_absolute_refl h : images_stay_absolute h h.
Proof. intros H; exact H. Qed.

Lemma images_stay_absolute_trans h1 h2 h3 :
  images_stay_absolute h1 h2 -> images_stay_absolute h2 h3 ->
  images_stay_absolute h1 h3.
Proof. unfold images_stay_absolute. auto. Qed.

Lemma append_image_absolute src h :
  absolute src -> images_stay_absolute h (HomeSite.append_image src h).
Proof.
  intros Hsrc Hh. simpl. apply Forall_app. split; [exact Hh|].
  constructor; [exact Hsrc | constructor].
Qed.

Lemma gallery_slide_absolute slide :
  keeps (on_local images_stay_absolute) (gallery_slide slide).
Proof.
  unfold gallery_slide. cbv zeta.
  destruct (truthy _) eqn:Ht.
  - destruct (absolutize_truthy _ Ht) as (u & -> & Hu).
    apply keeps_update. intros h. now apply append_image_absolute.
  - destruct (find slide "img" _) as [img|];
      [|apply keeps_ret; intros ?; apply images_stay_absolute_refl].
    destruct (or_else _ _) as [s|];
      [|apply keeps_ret; intros ?; apply images_stay_absolute_refl].
    destruct (_ && _);
      [|apply keeps_ret; intros ?; apply images_stay_absolute_refl].
    apply keeps_update. intros h.
    apply append_image_absolute, origin_absolute.
Qed.

Lemma homesite_detail_absolute e output_dir url :
  keeps (on_local images_stay_absolute) (homesite_detail e output_dir url).
Proof.
  unfold homesite_detail, homesite_coordinates, homesite_overview.
  repeat first
    [ apply gallery_slide_absolute
    | apply keeps_outside; exact images_stay_absolute_refl
    | apply keeps_update; intros ? ?; assumption
    | apply keeps_ret; intros ?; apply images_stay_absolute_refl
    | apply keeps_bind;
      [ intros ? ? ? ? ?; eapply images_stay_absolute_trans; eassumption
      | | intros ? ]
    | apply keeps_for_each;
      [ intros ?; apply images_stay_absolute_refl
      | intros ? ? ? ? ?; eapply images_stay_absolute_trans; eassumption
      | intros ? ]
    | match goal with
      | |- keeps _ (match ?x with _ => _ end) => destruct x
      end ].
Qed.

Lemma enrich_homesite_ok e output_dir homesite w w' homesite' :
  enrich_homesite e output_dir homesite w = (w', Ok homesite') ->
  site_ok homesite -> site_ok homesite'.
Proof.
  intros Hrun (Hstatus & Himgs & Hurl).
  pose proof (enrich_homesite_base _ _ _ _ _ _ Hrun) as Hbase.
  unfold same_site_base, site_base in Hbase.
  injection Hbase as _ _ _ _ _ _ _ _ Hst Hiu _.
  assert (Hkeep : images_stay_absolute homesite homesite').
  { unfold enrich_homesite in Hrun.
    destruct (HomeSite.url homesite) as [url|];
      [|injection Hrun as _ <-; apply images_stay_absolute_refl].
    destruct (truthy (Some url));
      [|injection Hrun as _ <-; apply images_stay_absolute_refl].
    unfold on_object, try_except in Hrun.
    destruct (homesite_detail e output_dir url (w, homesite))
      as [[w2 h2] [[]|ex]] eqn:E.
    - injection Hrun as _ <-.
      apply (homesite_detail_absolute e output_dir url _ _ _ E).
    - unfold outside in Hrun. simpl in Hrun.
      destruct (remove_if_exists _ _ w2) as [w3 [[]|ex3]];
        injection Hrun as _ <- || discriminate.
      apply (homesite_detail_absolute e output_dir url _ _ _ E). }
  split; [congruence|]. split; [now apply Hkeep|].
  intros u Hu Hne. apply Hurl; congruence.
Qed.

Lemma process_qmi_lists e output_dir index qmi data w w' data' :
  process_qmi e output_dir index qmi data w = (w', Ok data') ->
  Community.nearbyplaces data' = Community.nearbyplaces data
  /\ Community.homeplans data' = Community.homeplans data
  /\ Community.images data' = Community.images data
  /\ (Community.homesites data' = Community.homesites data
      \/ exists h, Community.homesites data' = Community.homesites data ++ [h]
                   /\ site_ok h).
Proof.
  unfold process_qmi.
  destruct (find qmi "div" _) as [content|];
    [|intros [= _ <-]; repeat split; auto].
  destruct (find content "div" _) as [mid|];
    [|intros [= _ <-]; repeat split; auto].
  intros H. apply bind_ok in H as (w1 & h0 & Hrec & H).
  unfold lift in Hrec. injection Hrec as <- Hrec.
  apply bind_ok in H as (w2 & h1 & Hen & H). injection H as _ <-.
  simpl. repeat split; auto. right. exists h1. split; [reflexivity|].
  apply (enrich_homesite_ok _ _ _ _ _ _ Hen).
  apply homesite_record_ok in Hrec as (H1 & H2 & H3).
  now apply homesite_image_ok.
Qed.

Lemma extract_homesites_lists e output_dir soup data w w' data' :
  extract_homesites e output_dir soup data w = (w', Ok data') ->
  Community.nearbyplaces data' = Community.nearbyplaces data
  /\ Community.homeplans data' = Community.homeplans data
  /\ Community.images data' = Community.images data
  /\ (Forall site_ok (Community.homesites data) ->
      Forall site_ok (Community.homesites data')).
Proof.
  unfold extract_homesites.
  destruct (find soup "section" _) as [qmi_section|];
    [|intros [= _ <-]; repeat split; auto].
  generalize (find_all qmi_section "div" (by_class "qmi-vertical")) 0.
  intros qmis. revert data w.
  induction qmis as [|qmi rest IH]; intros data w index H; simpl in H.
  - injection H as _ <-. repeat split; auto.
  - apply bind_ok in H as (w1 & d1 & H1 & H).
    apply IH in H as (A1 & A2 & A3 & A4).
    apply process_qmi_lists in H1 as (B1 & B2 & B3 & B4).
    repeat split; try congruence.
    intros Hall. apply A4. destruct B4 as [->|(h & -> & Hh)]; [exact Hall|].
    apply Forall_app. split; [exact Hall|]. constructor; [exact Hh|constructor].
Qed.

Lemma homeplan_record_ok plan homeplan :
  homeplan_record plan = Ok homeplan ->
  HomePlan.status (HomePlan.dets homeplan) = "Actively selling"
  /\ HomePlan.image_url (HomePlan.dets homeplan) = None.
Proof.
  unfold homeplan_record. cbv zeta.
  destruct (heading_url _) as [url|ex]; simpl.
  - now intros [= <-].
  - discriminate.
Qed.

Lemma homeplan_image_ok plan homeplan homeplan' :
  homeplan_image plan homeplan = Ok homeplan' ->
  HomePlan.status (HomePlan.dets homeplan) = "Actively selling" ->
  HomePlan.image_url (HomePlan.dets homeplan) = None ->
  plan_ok homeplan'.
Proof.
  intros H Hs Hu.
  assert (Hsame : plan_ok homeplan).
  { split; [exact Hs|]. intros u. rewrite Hu. discriminate. }
  unfold homeplan_image in H.
  destruct (find plan "div" _) as [img_container|]; [|now injection H as <-].
  destruct (find img_container "script" _) as [lazy_script|].
  - destruct (Re.search _ _) as [[m|]|ex]; simpl in H;
      try discriminate; [|now injection H as <-].
    injection H as <-. split; [exact Hs|].
    intros u Hu' Hne. simpl in Hu'.
    eapply absolutize_absolute_or_empty; eauto.
  - destruct (find img_container "img" _) as [img|]; [|now injection H as <-].
    injection H as <-. split; [exact Hs|].
    intros u Hu' Hne. simpl in Hu'.
    eapply absolutize_absolute_or_empty; eauto.
Qed.

Lemma plan_ok_same_base h h' : same_plan_base h h' -> plan_ok h -> plan_ok h'.
Proof.
  unfold same_plan_base, plan_base. intros [= _ _ _ _ _ _ Hs Hu] [H1 H2].
  split; [congruence|]. intros u Hu' Hne. apply H2; congruence.
Qed.

Lemma process_plan_lists e output_dir plan data w w' data' :
  process_plan e output_dir plan data w = (w', Ok data') ->
  Community.nearbyplaces data' = Community.nearbyplaces data
  /\ Community.homesites data' = Community.homesites data
  /\ Community.images data' = Community.images data
  /\ exists h, Community.homeplans data' = Community.homeplans data ++ [h]
               /\ plan_ok h.
Proof.
  unfold process_plan. intros H.
  apply bind_ok in H as (w1 & h0 & Hrec & H).
  apply bind_ok in H as (w2 & h1 & Himg & H).
  apply bind_ok in H as (w3 & h2 & Hen & H). injection H as _ <-.
  unfold lift in Hrec, Himg. injection Hrec as _ Hrec. injection Himg as _ Himg.
  simpl. repeat split; auto. exists h2. split; [reflexivity|].
  pose proof (enrich_homeplan_base _ _ _ _ _ _ Hen) as Hbase.
  apply (plan_ok_same_base _ _ Hbase).
  apply homeplan_record_ok in Hrec as [Hs Hu].
  eapply homeplan_image_ok; eauto.
Qed.

Lemma extract_homeplans_lists e output_dir soup data w w' data' :
  extract_homeplans e output_dir soup data w = (w', Ok data') ->
  Community.nearbyplaces data' = Community.nearbyplaces data
  /\ Community.homesites data' = Community.homesites data
  /\ Community.images data' = Community.images data
  /\ (Forall plan_ok (Community.homeplans data) ->
      Forall plan_ok (Community.homeplans data')).
Proof.
  unfold extract_homeplans.
  generalize (find_all soup "div"
                (by_class "row columns collapse floorplan-vertical")).
  intros plans. revert data w.
  induction plans as [|plan rest IH]; intros data w H; simpl in H.
  - injection H as _ <-. repeat split; auto.
  - apply bind_ok in H as (w1 & d1 & H1 & H).
    apply IH in H as (A1 & A2 & A3 & A4).
    apply process_plan_lists in H1 as (B1 & B2 & B3 & h & B4 & Hh).
    repeat split; try congruence.
    intros Hall. apply A4. rewrite B4.
    apply Forall_app. split; [exact Hall|]. constructor; [exact Hh|constructor].
Qed.

Lemma child_image_absolute data x :
  Forall site_ok (Community.homesites data) ->
  Forall plan_ok (Community.homeplans data) ->
  child_image data x -> absolute x.
Proof.
  intros Hsites Hplans [(plan & Hin & Hu & Hne)|(site & Hin & Hcase)].
  - rewrite List.Forall_forall in Hplans.
    destruct (Hplans plan Hin) as [_ Habs]. now apply Habs.
  - rewrite List.Forall_forall in Hsites.
    destruct (Hsites site Hin) as [_ [Hall Habs]].
    destruct Hcase as [(Hu & Hne)|Hx]; [now apply Habs|].
    rewrite List.Forall_forall in Hall. now apply Hall.
Qed.

Lemma image_fallback_lists e data w w' data' :
  image_fallback e data w = (w', Ok data') ->
  Community.nearbyplaces data' = Community.nearbyplaces data
  /\ Community.homesites data' = Community.homesites data
  /\ Community.homeplans data' = Community.homeplans data
  /\ (Community.images data' = Community.images data
      \/ (Community.images data = []
          /\ exists x, Community.images data' = [x] /\ child_image data x)).
Proof.
  unfold image_fallback.
  destruct (Community.images data) eqn:Himg;
    [|intros [= _ <-]; repeat split; auto].
  destruct (available_images data) as [|a rest] eqn:Hav;
    [intros [= _ <-]; repeat split; auto|].
  intros H. apply bind_ok in H as (w1 & x & Hx & H). injection H as _ <-.
  simpl. repeat split; auto. right. split; [reflexivity|].
  exists x. split; [reflexivity|].
  apply available_images_spec. rewrite Hav.
  destruct (random_choice_in e (a :: rest) w) as (y & Hy & Hin);
    [discriminate|].
  rewrite Hx in Hy. now injection Hy as _ ->.
Qed.

(** What [assemble] leaves in the four lists of the record. *)
Lemma assemble_lists e url output_dir w w' data :
  assemble e url output_dir w = (w', Ok data) ->
  exists p,
    web e url = Some p
    /\ Community.nearbyplaces data = nearby_entries (soup_of (parsed p))
    /\ Forall site_ok (Community.homesites data)
    /\ Forall plan_ok (Community.homeplans data)
    /\ length (Community.images data) <= 1
    /\ Forall absolute (Community.images data).
Proof.
  unfold assemble. intros H.
  apply bind_ok in H as (w1 & p & Hget & H).
  apply bind_ok in H as (w2 & [] & _ & H).
  apply bind_ok in H as (w3 & [] & _ & H).
  apply bind_ok in H as (w4 & [] & _ & H).
  apply bind_ok in H as (w5 & [] & _ & H).
  cbv zeta in H.
  apply bind_ok in H as (w6 & now & _ & H).
  apply bind_ok in H as (w7 & d1 & H1 & H).
  apply bind_ok in H as (w8 & d2 & H2 & H).
  apply bind_ok in H as (w9 & d3 & H3 & H).
  apply bind_ok in H as (w10 & d4 & H4 & H).
  apply bind_ok in H as (w11 & d5 & H5 & H).
  apply bind_ok in H as (w12 & d6 & H6 & H).
  apply bind_ok in H as (w13 & [] & _ & H).
  injection H as _ <-.
  unfold lift in H1, H2, H3. injection H1 as _ H1. injection H2 as _ H2.
  injection H3 as _ H3.
  apply extract_name_lists in H1. apply extract_price_from_lists in H2.
  apply extract_sqft_range_lists in H3.
  rewrite extract_coordinates_lists in H3.
  set (soup := soup_of (parsed p)) in *.
  set (da := extract_description soup (extract_address soup d2)) in *.
  assert (Hda : lists_of da = ([], [], [], [])).
  { unfold da. rewrite extract_description_lists, extract_address_lists.
    now rewrite H2, H1. }
  destruct (extract_first_image_lists soup da) as (F1 & F2 & F3 & F4).
  unfold lists_of in Hda, H3. injection Hda as N0 S0 P0 I0.
  injection H3 as N3 S3 P3 I3.
  rewrite F1, N0 in N3. rewrite F2, S0 in S3. rewrite F3, P0 in P3.
  set (dr := extract_ranges soup d3) in *.
  pose proof (extract_ranges_lists soup d3) as Hdr. fold dr in Hdr.
  unfold lists_of in Hdr. injection Hdr as Nr Sr Pr Ir.
  pose proof (extract_nearbyplaces_closed soup dr) as Hn.
  destruct (extract_nearbyplaces_others soup dr) as (O1 & O2 & O3).
  apply extract_homesites_lists in H4 as (A1 & A2 & A3 & A4).
  apply extract_homeplans_lists in H5 as (B1 & B2 & B3 & B4).
  apply image_fallback_lists in H6 as (C1 & C2 & C3 & C4).
  assert (Hsites : Forall site_ok (Community.homesites d5)).
  { rewrite B2. apply A4. rewrite O1, Sr, S3. constructor. }
  assert (Hplans : Forall plan_ok (Community.homeplans d5)).
  { apply B4. rewrite A2, O2, Pr, P3. constructor. }
  assert (Himgs : Community.images d5 = Community.images (extract_first_image soup da))
    by congruence.
  assert (Hfirst : length (Community.images d5) <= 1
                   /\ Forall absolute (Community.images d5)).
  { rewrite Himgs. destruct F4 as [->|(s & ->)]; rewrite I0; simpl.
    - split; [lia | constructor].
    - split; [lia|]. constructor; [apply origin_absolute | constructor]. }
  unfold driver_get in Hget. destruct (web e url) as [p'|] eqn:Hweb;
    [|discriminate]. injection Hget as _ ->.
  exists p. split; [reflexivity|].
  split; [rewrite C1, B1, A1, Hn, Nr, N3; reflexivity|].
  split; [now rewrite C2|]. split; [now rewrite C3|].
  destruct C4 as [->|(Hempty & x & -> & Hx)]; [exact Hfirst|].
  split; [simpl; lia|]. constructor; [|constructor].
  eapply child_image_absolute; eauto.
Qed.

Lemma fetch_page_assembles e url output_dir w w' data :
  fetch_page e url output_dir w = (w', Some data) ->
  exists w1 w2, assemble e url output_dir w1 = (w2, Ok data).
Proof.
  unfold fetch_page. destruct (path_exists _ w); [discriminate|].
  destruct (setup_driver e w) as [w1 [[]|ex]]; [|discriminate].
  destruct (assemble e url output_dir w1) as [w2 [d|ex]] eqn:Ha;
    [|discriminate].
  intros [= _ <-]. now exists w1, w2.
Qed.

Lemma grove_record :
  exists w' data,
    fetch_page Samples.grove_online Samples.grove_url "data"
               Samples.empty_world = (w', Some data)
    /\ map HomeSite.image_url (Community.homesites data)
       = [Some "https://www.meritagehomes.com/images/lot-7.jpg"]
    /\ map (fun h => HomePlan.image_url (HomePlan.dets h))
           (Community.homeplans data)
       = [Some "https://cdn.meritagehomes.com/aspen.jpg"]
    /\ map Nearby.name (Community.nearbyplaces data) = ["Cedar Elementary"]
    /\ length (Community.images data) = 1.
Proof. eexists _, _. vm_compute. repeat split; reflexivity. Defined.

(** X12. In every record [fetch_page] returns, each home site has
    status [Available] and each home plan status [Actively selling],
    whatever their own pages said, and the nearby places are exactly
    those of the community page, group after group. *)
Theorem children_fixed_fields (e : env) (url output_dir : string)
        (w w' : world) (data : Community.t)
  (Hrun : fetch_page e url output_dir w = (w', Some data)) :
  Forall (fun h => HomeSite.status h = "Available") (Community.homesites data)
  /\ Forall (fun h => HomePlan.status (HomePlan.dets h) = "Actively selling")
            (Community.homeplans data)
  /\ exists p, web e url = Some p
               /\ Community.nearbyplaces data
                  = nearby_entries (soup_of (parsed p)).
Proof.
  apply fetch_page_assembles in Hrun as (w1 & w2 & Ha).
  apply assemble_lists in Ha as (p & Hweb & Hn & Hs & Hp & _).
  split; [|split].
  - eapply List.Forall_impl; [|exact Hs]. now intros h [H _].
  - eapply List.Forall_impl; [|exact Hp]. now intros h [H _].
  - now exists p.
Qed.

Lemma children_fixed_fields_witness :
  exists w' data,
    fetch_page Samples.grove_online Samples.grove_url "data"
               Samples.empty_world = (w', Some data)
    /\ length (Community.homesites data) = 1
    /\ Forall (fun h => HomeSite.status h = "Available")
              (Community.homesites data)
    /\ Forall (fun h => HomePlan.status (HomePlan.dets h) = "Actively selling")
              (Community.homeplans data).
Proof.
  destruct grove_record as (w' & data & Hrun & Hsites & _).
  exists w', data. split; [exact Hrun|].
  split; [now rewrite <- (length_map HomeSite.image_url), Hsites|].
  destruct (children_fixed_fields _ _ _ _ _ _ Hrun) as (Hs & Hp & _).
  now split.
Defined.

(** X13. In every record [fetch_page] returns, the top-level image list
    holds at most one URL and that URL is absolute; so are all gallery
    images of the home sites, and the primary image of a home site or
    home plan unless it is missing or empty. *)
Theorem images_are_absolute (e : env) (url output_dir : string)
        (w w' : world) (data : Community.t)
  (Hrun : fetch_page e url output_dir w = (w', Some data)) :
  length (Community.images data) <= 1
  /\ Forall absolute (Community.images data)
  /\ Forall site_images_absolute (Community.homesites data)
  /\ Forall plan_image_absolute (Community.homeplans data).
Proof.
  apply fetch_page_assembles in Hrun as (w1 & w2 & Ha).
  apply assemble_lists in Ha as (p & _ & _ & Hs & Hp & Hlen & Habs).
  repeat split; auto.
  - eapply List.Forall_impl; [|exact Hs]. now intros h [_ H].
  - eapply List.Forall_impl; [|exact Hp]. now intros h [_ H].
Qed.

Lemma images_are_absolute_witness :
  exists w' data,
    fetch_page Samples.grove_online Samples.grove_url "data"
               Samples.empty_world = (w', Some data)
    /\ length (Community.images data) = 1
    /\ Forall absolute (Community.images data)
    /\ Forall site_images_absolute (Community.homesites data)
    /\ Forall plan_image_absolute (Community.homeplans data).
Proof.
  destruct grove_record as (w' & data & Hrun & _ & _ & _ & Hlen).
  exists w', data. split; [exact Hrun|]. split; [exact Hlen|].
  destruct (images_are_absolute _ _ _ _ _ _ Hrun) as (_ & Ha & Hs & Hp).
  now repeat split.
Defined.

(** ** The column loops *)

Lemma labelled_column_find label columns :
  labelled_column label columns
  = match List.find (column_headed label) columns with
    | Some col => column_value label col
    | None => None
    end.
Proof.
  induction columns as [|col rest IH]; [reflexivity|].
  cbn [labelled_column List.find].
  destruct (column_headed label col) eqn:Hh; unfold column_headed in Hh.
  - unfold column_value.
    destruct (find col "h3" []) as [h3|]; [|discriminate]. now rewrite Hh.
  - destruct (find col "h3" []) as [h3|]; [|exact IH]. now rewrite Hh.
Qed.

Lemma half_baths_column_head cols :
  half_baths_column cols = head (omap (column_value "Half Bathrooms") cols).
Proof.
  induction cols as [|col rest IH]; [reflexivity|].
  cbn [half_baths_column]. rewrite IH.
  change (omap (column_value "Half Bathrooms") (col :: rest))
    with (match column_value "Half Bathrooms" col with
          | Some v => v :: omap (column_value "Half Bathrooms") rest
          | None => omap (column_value "Half Bathrooms") rest
          end).
  unfold column_value.
  destruct (find col "h3" []) as [h3|]; [|reflexivity].
  destruct (String.eqb (strip (text_of h3)) "Half Bathrooms"); [|reflexivity].
  destruct (find_next_sibling h3 "span"); reflexivity.
Qed.

(** X14. On the community page the first column headed by the label
    decides alone: its value is taken if it has one, and if it has none
    the later columns are not looked at. The half-bath loop of a plan
    page goes on instead to the first column that is headed
    [Half Bathrooms] and has a value. *)
Theorem column_loops (label : string) (columns : list tag) :
  labelled_column label columns
  = match List.find (column_headed label) columns with
    | Some col => column_value label col
    | None => None
    end
  /\ half_baths_column columns
     = head (omap (column_value "Half Bathrooms") columns)
  /\ (forall col rest,
        column_headed label col = true ->
        column_value label col = None ->
        labelled_column label (col :: rest) = None).
Proof.
  split; [apply labelled_column_find|].
  split; [apply half_baths_column_head|].
  intros col rest Hh Hv. rewrite labelled_column_find. simpl.
  now rewrite Hh.
Qed.

Example column_loops_on_samples :
  let first := soup_of (Samples.bare_column "Half Bathrooms") in
  let second := soup_of (Samples.valued_column "Half Bathrooms" "1") in
  labelled_column "Half Bathrooms" [first; second] = None
  /\ half_baths_column [first; second] = Some "1".
Proof. vm_compute. split; reflexivity. Qed.

(** ** Directories *)

Lemma chars_append s1 s2 : chars (s1 +:+ s2) = chars s1 ++ chars s2.
Proof.
  unfold chars. induction s1 as [|c s1 IH]; simpl; [reflexivity|].
  now rewrite <- IH.
Qed.

Lemma split_char_aux_free sep cur l :
  ~ In sep cur ->
  Forall (fun s => ~ In sep (chars s)) (split_char_aux sep cur l).
Proof.
  revert cur. induction l as [|c l IH]; intros cur Hcur; simpl.
  - constructor; [|constructor]. rewrite chars_text.
    intros Hin. now apply in_rev in Hin.
  - destruct (Ascii.eqb_spec c sep) as [->|Hne].
    + constructor; [|apply IH; intros []]. rewrite chars_text.
      intros Hin. now apply in_rev in Hin.
    + apply IH. intros [Heq|Hin]; [now apply Hne | now apply Hcur].
Qed.

Lemma last_Forall (P : string -> Prop) l d :
  Forall P l -> P d -> P (List.last l d).
Proof.
  intros Hl Hd. induction Hl as [|x l Hx Hl IH]; [exact Hd|].
  destruct l; [exact Hx | exact IH].
Qed.

Lemma existsb_eqb_In h l : existsb (String.eqb h) l = true <-> In h l.
Proof.
  rewrite existsb_exists. split.
  - intros (x & Hin & Heq). apply String.eqb_eq in Heq. now subst.
  - intros Hin. exists h. split; [exact Hin | apply String.eqb_refl].
Qed.

Lemma after_slash_app l1 l2 :
  ~ In "/"%char l1 -> after_slash (l1 ++ "/"%char :: l2) = l2.
Proof.
  induction l1 as [|c l1 IH]; intros Hfree; simpl.
  - reflexivity.
  - destruct (Ascii.eqb_spec c "/") as [->|Hne].
    + exfalso. apply Hfree. now left.
    + apply IH. intros Hin. apply Hfree. now right.
Qed.

(** A file named without a slash lies in the directory it is put in. *)
Lemma parent_of_file dir name :
  ~ In "/"%char (chars name) -> parent (dir +:+ "/" +:+ name) = dir.
Proof.
  intros Hfree. unfold parent. rewrite !chars_append.
  change (chars "/") with ["/"%char]. simpl app.
  rewrite rev_app_distr. simpl rev. rewrite <- app_assoc. simpl app.
  rewrite after_slash_app by (intros Hin; now apply in_rev in Hin).
  now rewrite rev_involutive, text_chars.
Qed.

Lemma append_assoc s1 s2 s3 : (s1 +:+ s2) +:+ s3 = s1 +:+ (s2 +:+ s3).
Proof.
  induction s1 as [|c s1 IH]; [reflexivity|].
  change (String c ((s1 +:+ s2) +:+ s3) = String c (s1 +:+ (s2 +:+ s3))).
  now rewrite IH.
Qed.

Lemma last_segment_free url :
  ~ In "/"%char (chars (last_item (split_char "/" url))).
Proof.
  unfold last_item, split_char.
  apply (last_Forall (fun s => ~ In "/"%char (chars s))).
  - apply split_char_aux_free. intros [].
  - intros [].
Qed.

Lemma parent_html_file output_dir url :
  parent (html_file_of output_dir url) = output_dir +:+ "/html".
Proof.
  unfold html_file_of. cbv zeta.
  change (output_dir +:+ "/html/meritage_"
          +:+ last_item (split_char "/" url) +:+ ".html")
    with (output_dir +:+ ("/html" +:+ ("/" +:+ ("meritage_"
          +:+ last_item (split_char "/" url) +:+ ".html")))).
  rewrite <- append_assoc. apply parent_of_file.
  rewrite !chars_append. intros Hin.
  apply in_app_or in Hin as [Hin|Hin];
    [vm_compute in Hin; intuition discriminate|].
  apply in_app_or in Hin as [Hin|Hin];
    [now apply last_segment_free in Hin|].
  vm_compute in Hin. intuition discriminate.
Qed.

Lemma ancestors_aux_self done l :
  In (text (rev done ++ l)) (ancestors_aux done l).
Proof.
  revert done. induction l as [|c l IH]; intros done; simpl.
  - left. now rewrite app_nil_r.
  - assert (Hstep : In (text (rev done ++ c :: l))
                       (ancestors_aux (c :: done) l)).
    { specialize (IH (c :: done)). simpl in IH.
      now rewrite <- app_assoc in IH. }
    destruct (Ascii.eqb c "/"); [right|]; exact Hstep.
Qed.

Lemma ancestors_self path : In path (ancestors path).
Proof.
  unfold ancestors. pose proof (ancestors_aux_self [] (chars path)) as H.
  simpl in H. now rewrite text_chars in H.
Qed.

Lemma makedirs_run path w :
  makedirs path w
  = (log (Makedirs path) (with_dirs (fun d => ancestors path ++ d) w), Ok tt).
Proof. reflexivity. Qed.

Lemma write_file_run path c w :
  dir_exists (parent path) w = true ->
  write_file path c w
  = (log (WriteFile path) (with_fs (insert path c) w), Ok tt).
Proof. intros H. unfold write_file. now rewrite H. Qed.

(** After [os.makedirs(path)] the directory is there, and so is every
    directory that was. *)
Lemma dir_exists_In dir w : In dir (dirs w) -> dir_exists dir w = true.
Proof.
  intros Hin. unfold dir_exists. apply orb_true_iff. right.
  now apply existsb_eqb_In.
Qed.

Lemma dir_exists_makedirs path w :
  dir_exists path (fst (makedirs path w)) = true.
Proof.
  apply dir_exists_In. simpl. apply in_or_app. left. apply ancestors_self.
Qed.

Lemma dir_exists_after_makedirs dir path w :
  dir_exists dir w = true -> dir_exists dir (fst (makedirs path w)) = true.
Proof.
  unfold dir_exists. simpl. intros H. apply orb_true_iff in H as [H|H].
  - now rewrite H.
  - apply orb_true_iff. right. rewrite existsb_app. now rewrite H, orb_true_r.
Qed.

(** ** Pages that lose the whole record *)

Lemma heading_url_raises card :
  link_without_href card -> heading_url card = Raise KeyError.
Proof.
  intros (c & h3 & a & -> & Hh3 & Ha & Hget).
  unfold heading_url, index. now rewrite Hh3, Ha, Hget.
Qed.

Lemma process_plans_records e output_dir plans data w w' data' :
  process_plans e output_dir plans data w = (w', Ok data') ->
  forall plan, In plan plans -> exists h, homeplan_record plan = Ok h.
Proof.
  revert data w. induction plans as [|plan0 rest IH]; intros data w H plan Hin.
  - destruct Hin.
  - simpl in H. apply bind_ok in H as (w1 & d1 & H1 & H).
    destruct Hin as [<-|Hin]; [|eapply IH; eauto].
    unfold process_plan in H1. apply bind_ok in H1 as (w2 & h & Hrec & _).
    unfold lift in Hrec. injection Hrec as _ Hrec. now exists h.
Qed.

Lemma process_qmis_records e output_dir index qmis data w w' data' :
  process_qmis e output_dir index qmis data w = (w', Ok data') ->
  forall qmi content mid,
    In qmi qmis ->
    find qmi "div" (by_class "content") = Some content ->
    find content "div" (by_class "mid") = Some mid ->
    exists i h, homesite_record i mid = Ok h.
Proof.
  revert index data w.
  induction qmis as [|qmi0 rest IH]; intros index data w H qmi content mid Hin.
  - destruct Hin.
  - simpl in H. apply bind_ok in H as (w1 & d1 & H1 & H).
    destruct Hin as [<-|Hin]; [|eapply IH; eauto].
    intros Hc Hm. unfold process_qmi in H1. rewrite Hc, Hm in H1.
    apply bind_ok in H1 as (w2 & h & Hrec & _).
    unfold lift in Hrec. injection Hrec as _ Hrec. now exists index, h.
Qed.

(** The stages of [assemble] when it returns a record. *)
Lemma assemble_stages e url output_dir w w' data :
  assemble e url output_dir w = (w', Ok data) ->
  exists p,
    web e url = Some p
    /\ (exists d0 d1, extract_name (soup_of (parsed p)) d0 = Ok d1)
    /\ (exists d0 d1 w0 w1,
          extract_homesites e output_dir (soup_of (parsed p)) d0 w0
          = (w1, Ok d1))
    /\ (exists d0 d1 w0 w1,
          extract_homeplans e output_dir (soup_of (parsed p)) d0 w0
          = (w1, Ok d1)).
Proof.
  unfold assemble. intros H.
  apply bind_ok in H as (w1 & p & Hget & H).
  apply bind_ok in H as (w2 & [] & _ & H).
  apply bind_ok in H as (w3 & [] & _ & H).
  apply bind_ok in H as (w4 & [] & _ & H).
  apply bind_ok in H as (w5 & [] & _ & H).
  cbv zeta in H.
  apply bind_ok in H as (w6 & now & _ & H).
  apply bind_ok in H as (w7 & d1 & H1 & H).
  apply bind_ok in H as (w8 & d2 & H2 & H).
  apply bind_ok in H as (w9 & d3 & H3 & H).
  apply bind_ok in H as (w10 & d4 & H4 & H).
  apply bind_ok in H as (w11 & d5 & H5 & _).
  unfold lift in H1. injection H1 as _ H1.
  unfold driver_get in Hget. destruct (web e url) as [p'|]; [|discriminate].
  injection Hget as _ ->.
  exists p. split; [reflexivity|]. split; [eauto|]. split; eauto 6.
Qed.

(** X15. One card is enough to lose the whole community: when a plan
    card or a quick move-in card of the page has a heading link without
    an [href], the KeyError is raised outside the enrichment block, so
    [fetch_page] returns [None] and writes no JSON record, whatever else
    the page holds. *)
Theorem card_without_href_loses_record (e : env) (url output_dir : string)
        (w : world) (p : page)
  (Hweb : web e url = Some p)
  (Hcard : plan_card_without_href (soup_of (parsed p))
           \/ site_card_without_href (soup_of (parsed p))) :
  snd (fetch_page e url output_dir w) = None
  /\ fs (fst (fetch_page e url output_dir w)) !! json_file_of output_dir url
     = fs w !! json_file_of output_dir url.
Proof.
  destruct (fetch_page e url output_dir w) as [w' r] eqn:Hrun. simpl.
  assert (Hr : r = None).
  { destruct r as [data|]; [exfalso|reflexivity].
    apply fetch_page_assembles in Hrun as (w1 & w2 & Ha).
    apply assemble_stages in Ha as (p' & Hweb' & _ & Hsites & Hplans).
    rewrite Hweb in Hweb'. injection Hweb' as <-.
    destruct Hcard as [(plan & Hin & Hlink)|
                       (qmi_section & qmi & content & mid
                        & Hsec & Hin & Hc & Hm & Hlink)].
    - destruct Hplans as (d0 & d1 & w0 & w3 & Hplans).
      unfold extract_homeplans in Hplans.
      destruct (process_plans_records _ _ _ _ _ _ _ Hplans plan Hin)
        as (h & Hrec).
      unfold homeplan_record in Hrec. cbv zeta in Hrec.
      now rewrite (heading_url_raises _ Hlink) in Hrec.
    - destruct Hsites as (d0 & d1 & w0 & w3 & Hsites).
      unfold extract_homesites in Hsites. rewrite Hsec in Hsites.
      destruct (process_qmis_records _ _ _ _ _ _ _ _ Hsites
                  qmi content mid Hin Hc Hm) as (i & h & Hrec).
      unfold homesite_record in Hrec. cbv zeta in Hrec.
      now rewrite (heading_url_raises _ Hlink) in Hrec. }
  split; [exact Hr|].
  rewrite (json_file_is_json_path output_dir url).
  eapply fetch_page_json; [exact Hrun | now left].
Qed.

Lemma card_without_href_loses_record_witness :
  snd (fetch_page (Samples.serving Samples.linkless_page)
         Samples.oak_url "data" Samples.empty_world) = None
  /\ fs (fst (fetch_page (Samples.serving Samples.linkless_page)
                Samples.oak_url "data" Samples.empty_world))
       !! json_file_of "data" Samples.oak_url = None.
Proof.
  apply (card_without_href_loses_record
           (Samples.serving Samples.linkless_page) Samples.oak_url "data"
           Samples.empty_world
           {| page_source := "<html></html>";
              parsed := Samples.linkless_page |}).
  - reflexivity.
  - left. eexists. split; [left; reflexivity|].
    eexists _, _, _. repeat split; vm_compute; reflexivity.
Defined.

(** X16. A page whose overview block holds no [article] gives no record:
    the AttributeError aborts the assembly, [fetch_page] returns [None]
    and writes no JSON record. When the browser could be started, the
    HTML snapshot of the page has been written by then and stays. *)
Theorem overview_without_article_loses_record
        (e : env) (url output_dir : string) (w : world) (p : page)
  (Hweb : web e url = Some p)
  (Hoverview : overview_without_article (soup_of (parsed p))) :
  let w' := fst (fetch_page e url output_dir w) in
  snd (fetch_page e url output_dir w) = None
  /\ fs w' !! json_file_of output_dir url = fs w !! json_file_of output_dir url
  /\ (path_exists (json_file_of output_dir url) w = false ->
      chrome e = true ->
      fs w' !! html_file_of output_dir url = Some (Html (page_source p))).
Proof.
  destruct Hoverview as (overview_section & Ho & Harticle).
  assert (Hname : forall d, extract_name (soup_of (parsed p)) d
                            = Raise AttributeError).
  { intros d. unfold extract_name. now rewrite Ho, Harticle. }
  simpl. destruct (fetch_page e url output_dir w) as [w' r] eqn:Hrun. simpl.
  assert (Hr : r = None).
  { destruct r as [data|]; [exfalso|reflexivity].
    apply fetch_page_assembles in Hrun as (w1 & w2 & Ha).
    apply assemble_stages in Ha as (p' & Hweb' & (d0 & d1 & Hn) & _).
    rewrite Hweb in Hweb'. injection Hweb' as <-.
    now rewrite Hname in Hn. }
  split; [exact Hr|]. split.
  - rewrite (json_file_is_json_path output_dir url).
    eapply fetch_page_json; [exact Hrun | now left].
  - intros Hnew Hchrome. unfold fetch_page in Hrun.
    rewrite Hnew in Hrun. unfold setup_driver in Hrun.
    rewrite Hchrome in Hrun.
    unfold assemble, bind, driver_get, sleep in Hrun.
    rewrite Hweb in Hrun. rewrite !makedirs_run in Hrun.
    rewrite write_file_run in Hrun
      by (rewrite parent_html_file;
          apply (dir_exists_after_makedirs _ (output_dir +:+ "/json")),
            (dir_exists_makedirs (output_dir +:+ "/html"))).
    unfold now_isoformat, lift in Hrun.
    cbv zeta in Hrun. rewrite Hname in Hrun.
    injection Hrun as <- _. simpl. apply lookup_insert_eq.
Qed.

Lemma overview_without_article_loses_record_witness :
  snd (fetch_page (Samples.serving Samples.bare_overview_page)
         Samples.oak_url "data" Samples.empty_world) = None
  /\ fs (fst (fetch_page (Samples.serving Samples.bare_overview_page)
                Samples.oak_url "data" Samples.empty_world))
       !! html_file_of "data" Samples.oak_url
     = Some (Html "<html></html>").
Proof.
  destruct (overview_without_article_loses_record
              (Samples.serving Samples.bare_overview_page) Samples.oak_url
              "data" Samples.empty_world
              {| page_source := "<html></html>";
                 parsed := Samples.bare_overview_page |})
    as (Hnone & _ & Hhtml).
  - reflexivity.
  - eexists. split; vm_compute; reflexivity.
  - split; [exact Hnone|]. apply Hhtml; vm_compute; reflexivity.
Defined.

(** ** The discovery script: the links it collects *)

Lemma add_community_link_of community_links link :
  add_community_link community_links link
  = match link_of link with
    | Some h => if existsb (String.eqb h) community_links
                then community_links else community_links ++ [h]
    | None => community_links
    end.
Proof.
  unfold add_community_link, link_of.
  destruct (truthy (get link "href")); reflexivity.
Qed.

Lemma add_city_link_of city_links element :
  add_city_link city_links element = add_community_link city_links element.
Proof. reflexivity. Qed.

Lemma link_of_absolute a x : link_of a = Some x -> absolute x.
Proof.
  unfold link_of. destruct (truthy (get a "href")) eqn:Ht; [|discriminate].
  destruct (absolutize_truthy _ Ht) as (u & -> & Hu). now intros [= <-].
Qed.

Lemma NoDup_snoc (l : list string) h :
  List.NoDup l -> ~ In h l -> List.NoDup (l ++ [h]).
Proof.
  intros Hl Hh. apply NoDup_ListNoDup. apply NoDup_app.
  split; [now apply NoDup_ListNoDup|]. split.
  - intros x Hx Hx'. apply list_elem_of_singleton in Hx'. subst.
    apply Hh. now apply list_elem_of_In.
  - apply NoDup_singleton.
Qed.

(** What a collected list of links is, against the anchors it came
    from. *)
Definition collected (anchors : list tag) (before after : list string)
  : Prop :=
  (List.NoDup before -> List.NoDup after)
  /\ (Forall absolute before -> Forall absolute after)
  /\ (forall x, In x after
                <-> In x before \/ exists a, In a anchors /\ link_of a = Some x).

Lemma collected_nil l : collected [] l l.
Proof.
  repeat split; auto. intros [H|(a & [] & _)]. exact H.
Qed.

Lemma collected_app anchors1 anchors2 l1 l2 l3 :
  collected anchors1 l1 l2 -> collected anchors2 l2 l3 ->
  collected (anchors1 ++ anchors2) l1 l3.
Proof.
  intros (A1 & A2 & A3) (B1 & B2 & B3). repeat split; auto.
  - intros Hx. apply B3 in Hx as [Hx|(a & Hin & Ha)].
    + apply A3 in Hx as [Hx|(a & Hin & Ha)]; [now left|].
      right. exists a. split; [apply in_or_app; now left | exact Ha].
    + right. exists a. split; [apply in_or_app; now right | exact Ha].
  - intros [Hx|(a & Hin & Ha)]; apply B3.
    + left. apply A3. now left.
    + apply in_app_or in Hin as [Hin|Hin].
      * left. apply A3. right. now exists a.
      * right. now exists a.
Qed.

Lemma add_community_link_collected l a :
  collected [a] l (add_community_link l a).
Proof.
  rewrite add_community_link_of.
  destruct (link_of a) as [h|] eqn:Hlink.
  - destruct (existsb (String.eqb h) l) eqn:Hex.
    + apply existsb_eqb_In in Hex. repeat split; auto.
      intros [Hx|(a' & [<-|[]] & Ha)]; [exact Hx|]. congruence.
    + assert (Hnot : ~ In h l).
      { intros Hin. apply existsb_eqb_In in Hin. congruence. }
      repeat split.
      * intros Hl. now apply NoDup_snoc.
      * intros Hl. apply Forall_app. split; [exact Hl|].
        constructor; [|constructor]. eapply link_of_absolute; eauto.
      * intros Hx. apply in_app_or in Hx as [Hx|[<-|[]]]; [now left|].
        right. exists a. split; [now left | exact Hlink].
      * intros [Hx|(a' & [<-|[]] & Ha)]; apply in_or_app; [now left|].
        right. left. congruence.
  - repeat split; auto.
    intros [Hx|(a' & [<-|[]] & Ha)]; [exact Hx|]. congruence.
Qed.

Lemma add_links_collected anchors l :
  collected anchors l (fold_left add_community_link anchors l).
Proof.
  revert l. induction anchors as [|a rest IH]; intros l; simpl.
  - apply collected_nil.
  - apply (collected_app [a] rest _ (add_community_link l a));
      [apply add_community_link_collected | apply IH].
Qed.

Lemma add_page_links_collected soup l :
  collected (community_anchors soup) l (add_page_links soup l).
Proof.
  unfold add_page_links, community_anchors.
  generalize (find_all soup "div" (by_class "community-horizontal")).
  intros containers. revert l.
  induction containers as [|c rest IH]; intros l; simpl.
  - apply collected_nil.
  - eapply collected_app; [apply add_links_collected | apply IH].
Qed.

Lemma city_links_of_collected soup :
  collected (city_anchors soup) [] (city_links_of soup).
Proof. apply add_links_collected. Qed.

(** ** File names *)

Lemma split_char_aux_nonempty sep cur l : split_char_aux sep cur l <> [].
Proof.
  revert cur. induction l as [|c l IH]; intros cur; simpl; [discriminate|].
  destruct (Ascii.eqb c sep); [discriminate | apply IH].
Qed.

Lemma last_cons_nonempty (x : string) l d :
  l <> [] -> List.last (x :: l) d = List.last l d.
Proof. destruct l; [contradiction | reflexivity]. Qed.

Lemma split_char_aux_trailing sep cur l :
  List.last (split_char_aux sep cur (l ++ [sep])) "" = "".
Proof.
  revert cur. induction l as [|c l IH]; intros cur; simpl.
  - now rewrite Ascii.eqb_refl.
  - destruct (Ascii.eqb c sep); [|apply IH].
    rewrite last_cons_nonempty by apply split_char_aux_nonempty. apply IH.
Qed.

Lemma rstrip_char_trailing c s :
  rstrip_char c (s +:+ String c EmptyString) = rstrip_char c s.
Proof.
  unfold rstrip_char. rewrite chars_append. simpl chars at 2.
  change (chars (String c EmptyString)) with [c].
  rewrite rev_app_distr. simpl. now rewrite Ascii.eqb_refl.
Qed.

(** X20. The two scripts name their files differently. The discovery
    script strips trailing slashes first, so the name of a city snapshot
    is never empty, holds no slash, and is the same with or without a
    slash at the end of the URL. [fetch_page] takes the text after the
    last slash as it is: for a URL that ends in a slash that is the empty
    string, so every such URL shares the one record [meritage_.json]. *)
Theorem file_names (url output_dir : string) :
  page_filename url <> ""
  /\ ~ In "/"%char (chars (page_filename url))
  /\ page_filename (url +:+ "/") = page_filename url
  /\ json_file_of output_dir (url +:+ "/")
     = output_dir +:+ "/json/meritage_.json".
Proof.
  split; [|split; [|split]].
  - unfold page_filename. cbv zeta.
    destruct (String.eqb_spec
                (last_item (split_char "/" (rstrip_char "/" url))) "");
      [discriminate | assumption].
  - unfold page_filename. cbv zeta.
    destruct (String.eqb _ ""); [vm_compute; intuition discriminate|].
    unfold last_item, split_char.
    apply (last_Forall (fun s => ~ In "/"%char (chars s))).
    + apply split_char_aux_free. intros [].
    + intros [].
  - unfold page_filename. now rewrite rstrip_char_trailing.
  - unfold json_file_of, last_item, split_char. cbv zeta.
    rewrite chars_append. change (chars "/") with ["/"%char].
    now rewrite split_char_aux_trailing.
Qed.

(** ** The discovery script: its runs *)

Lemma page_filename_free url : ~ In "/"%char (chars (page_filename url)).
Proof.
  unfold page_filename. cbv zeta.
  destruct (String.eqb _ ""); [vm_compute; intuition discriminate|].
  apply last_segment_free.
Qed.

Lemma parent_city_html_file url : parent (city_html_file url) = "data".
Proof.
  unfold city_html_file.
  change ("data/meritage_" +:+ page_filename url +:+ ".html")
    with ("data" +:+ "/" +:+ ("meritage_" +:+ page_filename url +:+ ".html")).
  apply parent_of_file. rewrite !chars_append. intros Hin.
  apply in_app_or in Hin as [Hin|Hin];
    [vm_compute in Hin; intuition discriminate|].
  apply in_app_or in Hin as [Hin|Hin];
    [now apply page_filename_free in Hin|].
  vm_compute in Hin. intuition discriminate.
Qed.

Lemma get_city_links_run e w :
  get_city_links e w
  = if chrome e
    then match web e homes_url with
         | Some p =>
             (log DriverQuit
                (log (WriteFile "data/meritage_initial.html")
                   (with_fs (insert "data/meritage_initial.html"
                                    (Html (page_source p)))
                      (fst (makedirs "data"
                              (log (Sleep 5)
                                 (log (DriverGet homes_url)
                                    (log SetupDriver w))))))),
              Ok (city_links_of (soup_of (parsed p))))
         | None =>
             (log DriverQuit (log (DriverGet homes_url) (log SetupDriver w)),
              Ok [])
         end
    else (w, Raise WebDriverException).
Proof.
  unfold get_city_links, setup_driver. destruct (chrome e); [|reflexivity].
  unfold city_links_page, bind, driver_get.
  destruct (web e homes_url); [|reflexivity].
  unfold sleep. rewrite makedirs_run.
  rewrite write_file_run; [reflexivity|].
  apply (dir_exists_makedirs "data").
Qed.

(** One city page visited. When the page loads and its snapshot can be
    written, the links of the page are added; when the page does not
    load, or when [data/] is missing so that [open] raises, the [except]
    clause takes over and the links stay as they were. Nothing is raised
    either way. *)
Definition visited (e : env) (url : string) (s : world * list string)
  : world * list string :=
  match web e url with
  | Some p =>
      if dir_exists "data" (fst s)
      then (log (WriteFile (city_html_file url))
              (with_fs (insert (city_html_file url) (Html (page_source p)))
                 (log (Sleep 5) (log (DriverGet url) (fst s)))),
            add_page_links (soup_of (parsed p)) (snd s))
      else (log (Sleep 5) (log (DriverGet url) (fst s)), snd s)
  | None => (log (DriverGet url) (fst s), snd s)
  end.

Lemma visit_city_run e url s :
  visit_city e url s = (visited e url s, Ok tt).
Proof.
  destruct s as [w l].
  unfold visit_city, visited, try_except, bind, outside, driver_get.
  cbn [fst snd].
  destruct (web e url) as [p|]; cbn [fst snd]; [|reflexivity].
  unfold sleep, write_file. cbn [fst snd]. rewrite parent_city_html_file.
  change (dir_exists "data" (log (Sleep 5) (log (DriverGet url) w)))
    with (dir_exists "data" w).
  destruct (dir_exists "data" w); reflexivity.
Qed.

Lemma visit_cities_run e city_links s :
  for_each city_links (visit_city e) s
  = (fold_left (fun s url => visited e url s) city_links s, Ok tt).
Proof.
  revert s. induction city_links as [|url rest IH]; intros s; simpl.
  - reflexivity.
  - unfold bind. rewrite visit_city_run. apply IH.
Qed.

(** What one visit, and a round of visits, does to the links and to the
    files, [data_dir] telling whether [data/] exists. *)
Definition links_after (e : env) (data_dir : bool)
           (community_links : list string) (url : string) : list string :=
  match web e url with
  | Some p =>
      if data_dir
      then add_page_links (soup_of (parsed p)) community_links
      else community_links
  | None => community_links
  end.

Definition files_after (e : env) (data_dir : bool)
           (files : gmap string content) (url : string)
  : gmap string content :=
  match web e url with
  | Some p =>
      if data_dir
      then <[city_html_file url := Html (page_source p)]> files
      else files
  | None => files
  end.

Lemma visited_spec e url s :
  dirs (fst (visited e url s)) = dirs (fst s)
  /\ opened (fst (visited e url s)) = opened (fst s)
  /\ closed (fst (visited e url s)) = closed (fst s)
  /\ snd (visited e url s)
     = links_after e (dir_exists "data" (fst s)) (snd s) url
  /\ fs (fst (visited e url s))
     = files_after e (dir_exists "data" (fst s)) (fs (fst s)) url.
Proof.
  unfold visited, links_after, files_after.
  destruct (web e url) as [p|]; [|repeat split].
  destruct (dir_exists "data" (fst s)); repeat split.
Qed.

Lemma dir_exists_dirs dir w w' :
  dirs w' = dirs w -> dir_exists dir w' = dir_exists dir w.
Proof. unfold dir_exists. now intros ->. Qed.

Lemma visits_spec e city_links s :
  let s' := fold_left (fun s url => visited e url s) city_links s in
  let data_dir := dir_exists "data" (fst s) in
  dirs (fst s') = dirs (fst s)
  /\ opened (fst s') = opened (fst s)
  /\ closed (fst s') = closed (fst s)
  /\ snd s' = fold_left (links_after e data_dir) city_links (snd s)
  /\ fs (fst s') = fold_left (files_after e data_dir) city_links (fs (fst s)).
Proof.
  revert s. induction city_links as [|url rest IH]; intros s; simpl.
  - repeat split.
  - destruct (visited_spec e url s) as (Hd & Ho & Hc & Hl & Hf).
    destruct (IH (visited e url s)) as (Hd' & Ho' & Hc' & Hl' & Hf').
    rewrite (dir_exists_dirs "data" _ _ Hd) in Hl', Hf'.
    rewrite Hl in Hl'. rewrite Hf in Hf'.
    repeat split; congruence.
Qed.

Lemma links_after_collected e city_links l :
  (List.NoDup l -> List.NoDup (fold_left (links_after e true) city_links l))
  /\ (Forall absolute l ->
      Forall absolute (fold_left (links_after e true) city_links l))
  /\ (forall x,
        In x (fold_left (links_after e true) city_links l)
        <-> In x l
            \/ exists url p a,
                 In url city_links /\ web e url = Some p
                 /\ In a (community_anchors (soup_of (parsed p)))
                 /\ link_of a = Some x).
Proof.
  revert l. induction city_links as [|url rest IH]; intros l; simpl.
  - repeat split; auto. intros [H|(url & p & a & [] & _)]. exact H.
  - destruct (IH (links_after e true l url)) as (A1 & A2 & A3).
    assert (Hstep : exists anchors,
               collected anchors l (links_after e true l url)
               /\ forall a, In a anchors <->
                    exists p, web e url = Some p
                              /\ In a (community_anchors (soup_of (parsed p)))).
    { unfold links_after. destruct (web e url) as [p|].
      - eexists. split; [apply add_page_links_collected|].
        intros a. split; [intros Ha; now exists p|].
        now intros (p' & [= <-] & Ha).
      - exists []. split; [apply collected_nil|].
        intros a. split; [intros []|]. now intros (p' & Hp & _). }
    destruct Hstep as (anchors & (B1 & B2 & B3) & Hanchors).
    repeat split; auto.
    + intros Hx. apply A3 in Hx as [Hx|(url' & p & a & Hin & Hrest)].
      * apply B3 in Hx as [Hx|(a & Hin & Ha)]; [now left|].
        apply Hanchors in Hin as (p & Hweb & Hin).
        right. exists url, p, a. repeat split; auto.
      * right. exists url', p, a. destruct Hrest as (H1 & H2 & H3).
        repeat split; auto.
    + intros [Hx|(url' & p & a & [<-|Hin] & Hweb & Ha & Hlink)]; apply A3.
      * left. apply B3. now left.
      * left. apply B3. right. exists a. split; [|exact Hlink].
        apply Hanchors. now exists p.
      * right. exists url', p, a. repeat split; auto.
Qed.

Lemma links_after_missing e city_links l :
  fold_left (links_after e false) city_links l = l.
Proof.
  revert l. induction city_links as [|url rest IH]; intros l; simpl.
  - reflexivity.
  - rewrite IH. unfold links_after. now destruct (web e url).
Qed.

Lemma files_after_missing e city_links files :
  fold_left (files_after e false) city_links files = files.
Proof.
  revert files. induction city_links as [|url rest IH]; intros l; simpl.
  - reflexivity.
  - rewrite IH. unfold files_after. now destruct (web e url).
Qed.

(** A file is left alone by the visits of the URLs that do not load or
    that are stored under another name. *)
Lemma files_after_keeps e data_dir city_links files path :
  (forall url, In url city_links -> city_html_file url = path ->
               web e url = None) ->
  fold_left (files_after e data_dir) city_links files !! path = files !! path.
Proof.
  revert files. induction city_links as [|url rest IH]; intros files H; simpl.
  - reflexivity.
  - rewrite IH by (intros url' Hin; apply H; now right).
    unfold files_after. destruct (web e url) as [p|] eqn:Hweb; [|reflexivity].
    destruct data_dir; [|reflexivity].
    apply lookup_insert_ne. intros Heq.
    rewrite (H url (or_introl eq_refl) Heq) in Hweb. discriminate.
Qed.

Lemma files_after_last e before url after p files :
  web e url = Some p ->
  (forall url', In url' after -> city_html_file url' = city_html_file url ->
                web e url' = None) ->
  fold_left (files_after e true) (before ++ url :: after) files
    !! city_html_file url
  = Some (Html (page_source p)).
Proof.
  intros Hweb Hafter. rewrite fold_left_app. simpl.
  rewrite files_after_keeps by exact Hafter.
  unfold files_after at 1. rewrite Hweb. apply lookup_insert_eq.
Qed.

Lemma get_community_links_run e set_order city_links w :
  exists w',
    get_community_links e set_order city_links w
    = (if chrome e
       then (log DriverQuit w',
             Ok (set_order
                   (fold_left (links_after e (dir_exists "data" w))
                              city_links [])))
       else (w, Raise WebDriverException))
    /\ opened w' = S (opened w) /\ closed w' = closed w
    /\ fs w' = fold_left (files_after e (dir_exists "data" w))
                         city_links (fs w).
Proof.
  pose proof (visits_spec e city_links (log SetupDriver w, [])) as H.
  cbv zeta in H. cbn [fst snd] in H.
  change (dir_exists "data" (log SetupDriver w))
    with (dir_exists "data" w) in H.
  destruct (fold_left (fun s url => visited e url s) city_links
                      (log SetupDriver w, [])) as [w' l'] eqn:Hfold.
  cbn [fst snd] in H. destruct H as (Hd & Ho & Hc & Hl & Hf).
  exists w'. split.
  - unfold get_community_links, setup_driver.
    destruct (chrome e); [|reflexivity].
    rewrite visit_cities_run, Hfold. unfold driver_quit. cbn [fst].
    now rewrite Hl.
  - split; [rewrite Ho; reflexivity|]. split; [rewrite Hc; reflexivity|].
    exact Hf.
Qed.

(** X17. The city links [get_city_links] returns are pairwise distinct
    and all start with [http]; they are exactly the links of the
    [city-link] anchors of the listing page, and there are none when that
    page did not load. *)
Theorem city_links_distinct_absolute (e : env) (w w' : world)
        (city_links : list string)
  (Hrun : get_city_links e w = (w', Ok city_links)) :
  List.NoDup city_links
  /\ Forall absolute city_links
  /\ match web e homes_url with
     | Some p =>
         forall x, In x city_links
                   <-> exists a, In a (city_anchors (soup_of (parsed p)))
                                 /\ link_of a = Some x
     | None => city_links = []
     end.
Proof.
  rewrite get_city_links_run in Hrun.
  destruct (chrome e); [|discriminate].
  destruct (web e homes_url) as [p|]; injection Hrun as _ <-.
  - destruct (city_links_of_collected (soup_of (parsed p))) as (H1 & H2 & H3).
    split; [apply H1; constructor|]. split; [apply H2; constructor|].
    intros x. rewrite H3. split; [now intros [[]|H] | now right].
  - repeat split; constructor.
Qed.

Lemma city_links_distinct_absolute_witness :
  get_city_links Samples.listing_online Samples.empty_world
  = (fst (get_city_links Samples.listing_online Samples.empty_world),
     Ok ["https://www.meritagehomes.com/state/tx/austin";
         "https://www.meritagehomes.com/state/az/phoenix"])
  /\ List.NoDup ["https://www.meritagehomes.com/state/tx/austin";
                 "https://www.meritagehomes.com/state/az/phoenix"].
Proof.
  assert (Hrun : get_city_links Samples.listing_online Samples.empty_world
                 = (fst (get_city_links Samples.listing_online
                           Samples.empty_world),
                    Ok ["https://www.meritagehomes.com/state/tx/austin";
                        "https://www.meritagehomes.com/state/az/phoenix"]))
    by (vm_compute; reflexivity).
  split; [exact Hrun|].
  exact (proj1 (city_links_distinct_absolute _ _ _ _ Hrun)).
Defined.

Lemma reversed_set_order : is_set_order Samples.reversed_set.
Proof.
  intros l. unfold Samples.reversed_set. split.
  - apply NoDup_rev, NoDup_nodup.
  - intros x. rewrite <- in_rev. apply nodup_In.
Qed.

(** X18. The community links [get_community_links] returns are pairwise
    distinct and all start with [http]. The function writes each page's
    snapshot into [data/] before it reads the page and never makes that
    directory: when [data/] is missing every visit ends in the [except]
    clause and the result is empty. When [data/] exists the links are
    exactly those of the [button--blue--solid] anchors inside the
    [community-horizontal] blocks of the city pages that loaded; a city
    page that fails to load adds nothing and does not stop the others
    from being read. *)
Theorem community_links_of_loaded_pages
        (e : env) (set_order : list string -> list string)
        (city_links : list string) (w w' : world)
        (community_links : list string)
  (Horder : is_set_order set_order)
  (Hrun : get_community_links e set_order city_links w
          = (w', Ok community_links)) :
  List.NoDup community_links
  /\ Forall absolute community_links
  /\ (dir_exists "data" w = false -> community_links = [])
  /\ (dir_exists "data" w = true ->
      forall x,
        In x community_links
        <-> exists url p a,
              In url city_links /\ web e url = Some p
              /\ In a (community_anchors (soup_of (parsed p)))
              /\ link_of a = Some x).
Proof.
  destruct (get_community_links_run e set_order city_links w)
    as (w1 & Hrun1 & _).
  rewrite Hrun1 in Hrun. destruct (chrome e); [|discriminate].
  injection Hrun as _ <-.
  destruct (Horder (fold_left (links_after e (dir_exists "data" w))
                              city_links [])) as (O1 & O2).
  split; [exact O1|].
  destruct (dir_exists "data" w).
  - destruct (links_after_collected e city_links []) as (_ & H2 & H3).
    split; [|split; [discriminate|]].
    + apply List.Forall_forall. intros x Hx. apply O2 in Hx.
      assert (Hall : Forall absolute
                       (fold_left (links_after e true) city_links []))
        by (apply H2; constructor).
      rewrite List.Forall_forall in Hall. now apply Hall.
    + intros _ x. rewrite O2, H3. split; [now intros [[]|H] | now right].
  - rewrite links_after_missing in O2 |- *.
    assert (Hnil : set_order [] = []).
    { destruct (set_order []) as [|x l]; [reflexivity|].
      destruct (proj1 (O2 x) (or_introl eq_refl)). }
    rewrite Hnil. split; [constructor|]. split; [reflexivity | discriminate].
Qed.

(** The statement at work after [get_city_links] has made [data/]: of
    two city URLs the first does not load, the second gives two links,
    one of them twice. From a world without [data/] the same call gives
    no link at all. *)
Lemma community_links_of_loaded_pages_witness :
  exists w',
    get_community_links Samples.listing_online Samples.reversed_set
      [Samples.phoenix_url; Samples.austin_url]
      (fst (get_city_links Samples.listing_online Samples.empty_world))
    = (w', Ok ["https://www.meritagehomes.com/state/tx/austin/grove";
               "https://www.meritagehomes.com/state/tx/austin/oak"])
    /\ Forall absolute
         ["https://www.meritagehomes.com/state/tx/austin/grove";
          "https://www.meritagehomes.com/state/tx/austin/oak"].
Proof.
  assert (Hrun : exists w',
             get_community_links Samples.listing_online Samples.reversed_set
               [Samples.phoenix_url; Samples.austin_url]
               (fst (get_city_links Samples.listing_online
                       Samples.empty_world))
             = (w', Ok ["https://www.meritagehomes.com/state/tx/austin/grove";
                        "https://www.meritagehomes.com/state/tx/austin/oak"]))
    by (eexists; vm_compute; reflexivity).
  destruct Hrun as (w' & Hrun). exists w'. split; [exact Hrun|].
  exact (proj1 (proj2 (community_links_of_loaded_pages
                         _ _ _ _ _ _ reversed_set_order Hrun))).
Defined.

Example community_links_without_data_dir :
  snd (get_community_links Samples.listing_online Samples.reversed_set
         [Samples.phoenix_url; Samples.austin_url] Samples.empty_world)
  = Ok [].
Proof. vm_compute. reflexivity. Qed.

(** X19. The discovery functions hold their driver safely: if no driver
    can be set up they raise and leave the world as it was; otherwise
    they raise nothing, whatever the pages do, and each sets up exactly
    one driver and quits it as the last thing it does. *)
Theorem discovery_releases_driver
        (e : env) (set_order : list string -> list string) :
  (chrome e = false ->
   (forall w, get_city_links e w = (w, Raise WebDriverException))
   /\ (forall city_links w,
         get_community_links e set_order city_links w
         = (w, Raise WebDriverException)))
  /\ (chrome e = true ->
      (forall w, exists w' city_links rest,
         get_city_links e w = (w', Ok city_links)
         /\ events w' = DriverQuit :: rest
         /\ opened w' = S (opened w) /\ closed w' = S (closed w))
      /\ (forall city_links w, exists w' community_links rest,
            get_community_links e set_order city_links w
            = (w', Ok community_links)
            /\ events w' = DriverQuit :: rest
            /\ opened w' = S (opened w) /\ closed w' = S (closed w))).
Proof.
  split; intros Hchrome; split.
  - intros w. rewrite get_city_links_run. now rewrite Hchrome.
  - intros city_links w.
    destruct (get_community_links_run e set_order city_links w)
      as (w1 & Hrun & _).
    rewrite Hrun. now rewrite Hchrome.
  - intros w. rewrite get_city_links_run. rewrite Hchrome.
    destruct (web e homes_url) as [p|]; eexists _, _, _;
      (split; [reflexivity|]); repeat split; reflexivity.
  - intros city_links w.
    destruct (get_community_links_run e set_order city_links w)
      as (w1 & Hrun & Ho & Hc & _).
    rewrite Hrun. rewrite Hchrome. eexists _, _, _.
    split; [reflexivity|]. split; [reflexivity|].
    unfold opened, closed in *. simpl. split; congruence.
Qed.

(** X21. What [get_community_links] leaves on disk. Without [data/] it
    writes nothing. With [data/], the snapshot named after a city URL
    whose page loaded holds the source of that page, provided no later
    URL of the list that loads has the same file name (a later one
    overwrites it); files named after none of the URLs are left as they
    were. *)
Theorem city_snapshots_written
        (e : env) (set_order : list string -> list string)
        (city_links : list string) (w w' : world)
        (community_links : list string)
  (Hrun : get_community_links e set_order city_links w
          = (w', Ok community_links)) :
  (dir_exists "data" w = false -> fs w' = fs w)
  /\ (dir_exists "data" w = true ->
      forall before url after p,
        city_links = before ++ url :: after ->
        web e url = Some p ->
        (forall url', In url' after ->
                      city_html_file url' = city_html_file url ->
                      web e url' = None) ->
        fs w' !! city_html_file url = Some (Html (page_source p)))
  /\ (forall path,
        (forall url, In url city_links -> city_html_file url <> path) ->
        fs w' !! path = fs w !! path).
Proof.
  destruct (get_community_links_run e set_order city_links w)
    as (w1 & Hrun1 & _ & _ & Hfiles).
  rewrite Hrun1 in Hrun. destruct (chrome e); [|discriminate].
  injection Hrun as <- _. simpl. rewrite Hfiles.
  split; [|split].
  - intros ->. apply files_after_missing.
  - intros -> before url after p -> Hweb Hafter.
    now apply files_after_last.
  - intros path Hpath. apply files_after_keeps.
    intros url Hin Heq. now destruct (Hpath url Hin).
Qed.

(** The statement at work on two URLs that share their last segment and
    both load: the snapshot holds the page of the second. *)
Lemma city_snapshots_written_witness :
  exists w',
    fst (get_community_links Samples.listing_online Samples.reversed_set
           [Samples.austin_url; Samples.austin_url_slash]
           (fst (get_city_links Samples.listing_online Samples.empty_world)))
    = w'
    /\ city_html_file Samples.austin_url_slash
       = city_html_file Samples.austin_url
    /\ fs w' !! "data/meritage_austin.html"
       = Some (Html "<html>austin again</html>").
Proof.
  destruct (get_community_links Samples.listing_online Samples.reversed_set
              [Samples.austin_url; Samples.austin_url_slash]
              (fst (get_city_links Samples.listing_online
                      Samples.empty_world)))
    as [w' r] eqn:Hrun.
  assert (Hr : exists l, r = Ok l).
  { change r with (snd (w', r)). rewrite <- Hrun. eexists.
    vm_compute. reflexivity. }
  destruct Hr as (l & ->).
  exists w'. split; [reflexivity|]. split; [vm_compute; reflexivity|].
  destruct (city_snapshots_written _ _ _ _ _ _ Hrun) as (_ & Hlast & _).
  apply (Hlast eq_refl [Samples.austin_url] Samples.austin_url_slash []
           {| page_source := "<html>austin again</html>";
              parsed := Samples.austin_page |}).
  - reflexivity.
  - vm_compute. reflexivity.
  - intros url' [].
Defined.
